(** * MyPaint pixel operations: tile compositing, brush dabs, conversions

    A shallow embedding of the tile operations of [lib/pixops.hpp] and of
    the brush dab renderers of [lib/brushmodes.hpp], with the properties
    of their specification stated and proved over it.

    Conventions.
    - A C integer is a [Z]; every store into a fixed-width variable or
      array cell writes out the wrap-around of that width ([u8], [u16],
      [u32], [i32]).  Unsigned division is [/], signed division is
      [Z.quot].
    - A pixel buffer is a [list Z] of array cells, four consecutive cells
      (R, G, B, A) per pixel, as the C code sees it through a
      [uint16_t *] or [uint8_t *].  A pointer into a buffer is an offset
      of type [nat].
    - What C leaves undefined (an access outside the buffer, a division
      by zero) is the error [None] of the [option] monad.
    - A counted C loop is [for_loop]; the pointers it increments are part
      of the loop state. *)

From Stdlib Require Import ZArith List Lia ZifyNat Bool.
From stdpp Require Import base option list.

Local Open Scope Z_scope.

(** ** Fixed-width integers *)

Definition u8 (x : Z) : Z := x mod 2 ^ 8.
Definition u16 (x : Z) : Z := x mod 2 ^ 16.
Definition u32 (x : Z) : Z := x mod 2 ^ 32.
Definition i32 (x : Z) : Z := (x + 2 ^ 31) mod 2 ^ 32 - 2 ^ 31.

Definition is_u8 (x : Z) : Prop := 0 <= x < 2 ^ 8.
Definition is_u16 (x : Z) : Prop := 0 <= x < 2 ^ 16.

(** The fixed-point domain: [1 << 15] stands for 1.0. *)
Definition fix15_one : Z := 2 ^ 15.

Definition is_fix15 (x : Z) : Prop := 0 <= x <= fix15_one.

(** The glib macros [MAX] and [CLAMP]. *)
Definition MAX (a b : Z) : Z := if a >? b then a else b.
Definition CLAMP (x lo hi : Z) : Z :=
  if x >? hi then hi else if x <? lo then lo else x.

(** Division by a divisor that is not a constant. *)
Definition udiv (a b : Z) : option Z := if b =? 0 then None else Some (a / b).
Definition sdiv (a b : Z) : option Z := if b =? 0 then None else Some (Z.quot a b).

(** ** Buffers and loops *)

(** [p[i]] as an rvalue is the list lookup [buf !! i]; [p[i] = v] through
    a [uint16_t *] and through a [uint8_t *]: *)
Definition store16 (buf : list Z) (i : nat) (v : Z) : option (list Z) :=
  if (i <? length buf)%nat then Some (<[i := u16 v]> buf) else None.
Definition store8 (buf : list Z) (i : nat) (v : Z) : option (list Z) :=
  if (i <? length buf)%nat then Some (<[i := u8 v]> buf) else None.

(** [for (int i = i0; ...; i++) body], with [n] iterations to go. *)
Fixpoint for_loop {St : Type} (n : nat) (i : nat)
  (body : nat -> St -> option St) (s : St) : option St :=
  match n with
  | O => Some s
  | S n' => s' ← body i s; for_loop n' (S i) body s'
  end.

(** Modelled from the spec: the tile edge length [TILE_SIZE], whose
    definition is in a header that is not part of these sources.  The spec
    gives a "fixed edge length N (power of two, e.g. 64)", and the noise
    table below is sized [64*64*2] for it. *)
Definition TILE_SIZE : nat := 64.

(** [strides[0]] of a C-contiguous [TILE_SIZE x TILE_SIZE x 4] array,
    and its size, both counted in cells. *)
Definition tile_stride : nat := (4 * TILE_SIZE)%nat.
Definition tile_cells : nat := (TILE_SIZE * TILE_SIZE * 4)%nat.

(** ** Mipmap downscaler *)

(** One channel of the inner loop's body:
    [src_p[c]/4 + (src_p+4)[c]/4 + (src_p+4*TILE_SIZE)[c]/4
     + (src_p+4*TILE_SIZE+4)[c]/4]. *)
Definition downscale_channel (src : list Z) (src_p c : nat) : option Z :=
  s00 ← src !! (src_p + c)%nat;
  s01 ← src !! (src_p + 4 + c)%nat;
  s10 ← src !! (src_p + 4 * TILE_SIZE + c)%nat;
  s11 ← src !! (src_p + 4 * TILE_SIZE + 4 + c)%nat;
  Some (s00 / 4 + s01 / 4 + s10 / 4 + s11 / 4).

Definition downscale_pixel (src : list Z) (x : nat) (st : nat * nat * list Z)
  : option (nat * nat * list Z) :=
  let '(src_p, dst_p, dst) := st in
  v0 ← downscale_channel src src_p 0;
  dst ← store16 dst dst_p v0;
  v1 ← downscale_channel src src_p 1;
  dst ← store16 dst (dst_p + 1) v1;
  v2 ← downscale_channel src src_p 2;
  dst ← store16 dst (dst_p + 2) v2;
  v3 ← downscale_channel src src_p 3;
  dst ← store16 dst (dst_p + 3) v3;
  Some ((src_p + 8)%nat, (dst_p + 4)%nat, dst).

(** [dst_stride] is [dst_arr->strides[0]], counted in cells. *)
Definition downscale_row (src : list Z) (dst_stride dst_x dst_y : nat) (y : nat)
  (dst : list Z) : option (list Z) :=
  let src_p := (2 * y * tile_stride)%nat in
  let dst_p := ((y + dst_y) * dst_stride + 4 * dst_x)%nat in
  '(_, _, dst) ← for_loop (TILE_SIZE / 2) 0 (downscale_pixel src) (src_p, dst_p, dst);
  Some dst.

Definition tile_downscale_rgba16 (src dst : list Z) (dst_stride dst_x dst_y : nat)
  : option (list Z) :=
  for_loop (TILE_SIZE / 2) 0 (downscale_row src dst_stride dst_x dst_y) dst.

(** ** Tile compositing engine *)

Inductive BlendMode : Type :=
  | NormalBlendMode | MultiplyBlendMode | ScreenBlendMode | OverlayBlendMode
  | HardLightBlendMode | LightenBlendMode | DarkenBlendMode
  | SoftLightBlendMode | ColorDodgeBlendMode | ColorBurnBlendMode
  | DifferenceBlendMode | ExclusionBlendMode | HueBlendMode
  | SaturationBlendMode | ColorBlendMode | LuminosityBlendMode.

Inductive BufferCompOutput : Type :=
  | BufferCompOutputRGBA | BufferCompOutputRGBX.

Section Composite.

(** The headers [compositing.hpp] and [blendmodes.hpp] are not part of
    these sources; what [tile_composite_data] takes from them is a
    parameter here:
    - [float], the type of [src_opacity], and [float_to_fix15 o], the
      value of [src_opacity * fix15_one] as converted to the argument
      type of [fix15_short_clamp];
    - [fix15_short_clamp];
    - [composite_src_over out B src dst opac], the buffer that
      [BufferComp<out, TILE_SIZE*TILE_SIZE*4, B>::composite_src_over]
      leaves in [dst]. *)
Variable float : Type.
Variable float_to_fix15 : float -> Z.
Variable fix15_short_clamp : Z -> Z.
Variable composite_src_over :
  BufferCompOutput -> BlendMode -> list Z -> list Z -> Z -> list Z.

Definition tile_composite_data (B : BlendMode) (src dst : list Z)
  (dst_has_alpha : bool) (src_opacity : float) : list Z :=
  let opac := fix15_short_clamp (float_to_fix15 src_opacity) in
  if opac =? 0 then dst
  else if dst_has_alpha
       then composite_src_over BufferCompOutputRGBA B src dst opac
       else composite_src_over BufferCompOutputRGBX B src dst opac.

Definition tile_composite_normal := tile_composite_data NormalBlendMode.
Definition tile_composite_multiply := tile_composite_data MultiplyBlendMode.
Definition tile_composite_screen := tile_composite_data ScreenBlendMode.
Definition tile_composite_overlay := tile_composite_data OverlayBlendMode.
Definition tile_composite_hard_light := tile_composite_data HardLightBlendMode.
Definition tile_composite_lighten := tile_composite_data LightenBlendMode.
Definition tile_composite_darken := tile_composite_data DarkenBlendMode.
Definition tile_composite_soft_light := tile_composite_data SoftLightBlendMode.
Definition tile_composite_color_dodge := tile_composite_data ColorDodgeBlendMode.
Definition tile_composite_color_burn := tile_composite_data ColorBurnBlendMode.
Definition tile_composite_difference := tile_composite_data DifferenceBlendMode.
Definition tile_composite_exclusion := tile_composite_data ExclusionBlendMode.
Definition tile_composite_hue := tile_composite_data HueBlendMode.
Definition tile_composite_saturation := tile_composite_data SaturationBlendMode.
Definition tile_composite_color := tile_composite_data ColorBlendMode.
Definition tile_composite_luminosity := tile_composite_data LuminosityBlendMode.

End Composite.

(** ** Dithering noise table *)

Definition dithering_noise_size : nat := (64 * 64 * 2)%nat.

(** The two static variables: the table and the flag of
    [precalculate_dithering_noise_if_required]. *)
Record noise_state : Type := {
  have_noise : bool;
  dithering_noise : list Z
}.

(** [(rand() % (1<<15)) * 240/256 + (1<<15) * 8/256], in [int];
    [rand()] is not negative, so [%] is [mod]. *)
Definition noise_value (r : Z) : Z :=
  Z.quot ((r mod 2 ^ 15) * 240) 256 + Z.quot (2 ^ 15 * 8) 256.

(** [rand i] is what the [i]-th call of [rand()] returns. *)
Definition precalculate_dithering_noise_if_required (rand : nat -> Z)
  (st : noise_state) : option noise_state :=
  if have_noise st then Some st
  else
    tbl ← for_loop dithering_noise_size 0
             (fun i tbl => store16 tbl i (noise_value (rand i)))
             (dithering_noise st);
    Some {| have_noise := true; dithering_noise := tbl |}.

(** ** Bit-depth converters *)

(** [((c << 15) + a/2) / a] in [uint32_t]. *)
Definition unpremultiply (c a : Z) : option Z :=
  udiv (u32 (u32 (c * 2 ^ 15) + a / 2)) a.

(** [(c * 255 + add) / (1<<15)] in [uint32_t]. *)
Definition dither8 (c add : Z) : Z := u32 (u32 (c * 255) + add) / 2 ^ 15.

Definition convert_rgba16_to_rgba8_pixel (noise src : list Z) (x : nat)
  (st : nat * nat * nat * list Z) : option (nat * nat * nat * list Z) :=
  let '(src_p, dst_p, noise_idx, dst) := st in
  r ← src !! src_p;
  g ← src !! (src_p + 1)%nat;
  b ← src !! (src_p + 2)%nat;
  a ← src !! (src_p + 3)%nat;
  '(r, g, b) ←
    (if negb (a =? 0) then
       r ← unpremultiply r a;
       g ← unpremultiply g a;
       b ← unpremultiply b a;
       Some (r, g, b)
     else Some (0, 0, 0));
  add_r ← noise !! noise_idx;
  let add_g := add_r in
  let add_b := add_r in
  add_a ← noise !! (noise_idx + 1)%nat;
  dst ← store8 dst dst_p (dither8 r add_r);
  dst ← store8 dst (dst_p + 1) (dither8 g add_g);
  dst ← store8 dst (dst_p + 2) (dither8 b add_b);
  dst ← store8 dst (dst_p + 3) (dither8 a add_a);
  Some ((src_p + 4)%nat, (dst_p + 4)%nat, (noise_idx + 2)%nat, dst).

(** The two additions at the end of the row's body change pointers that
    the next iteration assigns anew; they are left out. *)
Definition convert_rgba16_to_rgba8_row (noise src : list Z) (y : nat)
  (st : nat * list Z) : option (nat * list Z) :=
  let '(noise_idx, dst) := st in
  let src_p := (y * tile_stride)%nat in
  let dst_p := (y * tile_stride)%nat in
  '(_, _, noise_idx, dst) ←
    for_loop TILE_SIZE 0 (convert_rgba16_to_rgba8_pixel noise src)
      (src_p, dst_p, noise_idx, dst);
  Some (noise_idx, dst).

Definition tile_convert_rgba16_to_rgba8 (rand : nat -> Z) (st : noise_state)
  (src dst : list Z) : option (noise_state * list Z) :=
  st ← precalculate_dithering_noise_if_required rand st;
  let noise_idx := 0%nat in
  '(_, dst) ←
    for_loop TILE_SIZE 0 (convert_rgba16_to_rgba8_row (dithering_noise st) src)
      (noise_idx, dst);
  Some (st, dst).

(** [tile_convert_rgbu16_to_rgbu8]: the alpha of the source is skipped,
    one noise value serves the three channels, and the alpha written is
    255. *)
Definition convert_rgbu16_to_rgbu8_pixel (noise src : list Z) (x : nat)
  (st : nat * nat * nat * list Z) : option (nat * nat * nat * list Z) :=
  let '(src_p, dst_p, noise_idx, dst) := st in
  r ← src !! src_p;
  g ← src !! (src_p + 1)%nat;
  b ← src !! (src_p + 2)%nat;
  add ← noise !! noise_idx;
  dst ← store8 dst dst_p (dither8 r add);
  dst ← store8 dst (dst_p + 1) (dither8 g add);
  dst ← store8 dst (dst_p + 2) (dither8 b add);
  dst ← store8 dst (dst_p + 3) 255;
  Some ((src_p + 4)%nat, (dst_p + 4)%nat, (noise_idx + 1)%nat, dst).

Definition convert_rgbu16_to_rgbu8_row (noise src : list Z) (y : nat)
  (st : nat * list Z) : option (nat * list Z) :=
  let '(noise_idx, dst) := st in
  let src_p := (y * tile_stride)%nat in
  let dst_p := (y * tile_stride)%nat in
  '(_, _, noise_idx, dst) ←
    for_loop TILE_SIZE 0 (convert_rgbu16_to_rgbu8_pixel noise src)
      (src_p, dst_p, noise_idx, dst);
  Some (noise_idx, dst).

Definition tile_convert_rgbu16_to_rgbu8 (rand : nat -> Z) (st : noise_state)
  (src dst : list Z) : option (noise_state * list Z) :=
  st ← precalculate_dithering_noise_if_required rand st;
  let noise_idx := 0%nat in
  '(_, dst) ←
    for_loop TILE_SIZE 0 (convert_rgbu16_to_rgbu8_row (dithering_noise st) src)
      (noise_idx, dst);
  Some (st, dst).

(** [(c * (1<<15) + 255/2) / 255] and [(c * a + (1<<15)/2) / (1<<15)],
    both in [uint32_t]. *)
Definition to_fix15 (c : Z) : Z := u32 (u32 (c * 2 ^ 15) + 255 / 2) / 255.
Definition premultiply (c a : Z) : Z := u32 (u32 (c * a) + 2 ^ 15 / 2) / 2 ^ 15.

Definition convert_rgba8_to_rgba16_pixel (src : list Z) (x : nat)
  (st : nat * nat * list Z) : option (nat * nat * list Z) :=
  let '(src_p, dst_p, dst) := st in
  r ← src !! src_p;
  g ← src !! (src_p + 1)%nat;
  b ← src !! (src_p + 2)%nat;
  a ← src !! (src_p + 3)%nat;
  let r := to_fix15 r in
  let g := to_fix15 g in
  let b := to_fix15 b in
  let a := to_fix15 a in
  dst ← store16 dst dst_p (premultiply r a);
  dst ← store16 dst (dst_p + 1) (premultiply g a);
  dst ← store16 dst (dst_p + 2) (premultiply b a);
  dst ← store16 dst (dst_p + 3) a;
  Some ((src_p + 4)%nat, (dst_p + 4)%nat, dst).

Definition convert_rgba8_to_rgba16_row (src : list Z) (y : nat) (dst : list Z)
  : option (list Z) :=
  let src_p := (y * tile_stride)%nat in
  let dst_p := (y * tile_stride)%nat in
  '(_, _, dst) ←
    for_loop TILE_SIZE 0 (convert_rgba8_to_rgba16_pixel src) (src_p, dst_p, dst);
  Some dst.

Definition tile_convert_rgba8_to_rgba16 (src dst : list Z) : option (list Z) :=
  for_loop TILE_SIZE 0 (convert_rgba8_to_rgba16_row src) dst.

(** ** Flatten and unflatten *)

(** [dst_p[c] += ((uint32_t)one_minus_top_alpha*bg_p[c]) / (1<<15)]. *)
Definition rgba2flat_channel (bg : list Z) (one_minus_top_alpha : Z)
  (dst_p bg_p c : nat) (dst : list Z) : option (list Z) :=
  d ← dst !! (dst_p + c)%nat;
  b ← bg !! (bg_p + c)%nat;
  store16 dst (dst_p + c) (u32 (d + u32 (one_minus_top_alpha * b) / 2 ^ 15)).

Definition rgba2flat_pixel (bg : list Z) (i : nat) (st : nat * nat * list Z)
  : option (nat * nat * list Z) :=
  let '(dst_p, bg_p, dst) := st in
  a ← dst !! (dst_p + 3)%nat;
  let one_minus_top_alpha := u32 (2 ^ 15 - a) in
  dst ← rgba2flat_channel bg one_minus_top_alpha dst_p bg_p 0 dst;
  dst ← rgba2flat_channel bg one_minus_top_alpha dst_p bg_p 1 dst;
  dst ← rgba2flat_channel bg one_minus_top_alpha dst_p bg_p 2 dst;
  Some ((dst_p + 4)%nat, (bg_p + 4)%nat, dst).

Definition tile_rgba2flat (dst bg : list Z) : option (list Z) :=
  '(_, _, dst) ← for_loop (TILE_SIZE * TILE_SIZE) 0 (rgba2flat_pixel bg)
                   (0%nat, 0%nat, dst);
  Some dst.

(** Body of the first inner loop of [tile_flat2rgba]; the loop state is
    [final_alpha], a [uint16_t]. *)
Definition flat2rgba_alpha (dst bg : list Z) (dst_p bg_p : nat) (i : nat)
  (final_alpha : Z) : option Z :=
  d ← dst !! (dst_p + i)%nat;
  b ← bg !! (bg_p + i)%nat;
  let color_change := i32 (d - b) in
  let small_change := 0 in
  final_alpha ←
    (if color_change >? small_change then
       q ← sdiv (color_change * 2 ^ 15) (2 ^ 15 - b);
       Some (u16 (MAX final_alpha q))
     else if color_change <? small_change then
       q ← sdiv (- color_change * 2 ^ 15) b;
       Some (u16 (MAX final_alpha q))
     else Some final_alpha);
  a ← dst !! (dst_p + 3)%nat;
  Some (u16 (MAX final_alpha a)).

(** Body of the second inner loop; the loop state is the buffer. *)
Definition flat2rgba_color (bg : list Z) (dst_p bg_p : nat) (final_alpha : Z)
  (i : nat) (dst : list Z) : option (list Z) :=
  d ← dst !! (dst_p + i)%nat;
  b ← bg !! (bg_p + i)%nat;
  let color_change := i32 (d - b) in
  let res := u32 (b * final_alpha) / 2 ^ 15 + color_change in
  let res := CLAMP res 0 final_alpha in
  store16 dst (dst_p + i) res.

Definition flat2rgba_pixel (bg : list Z) (i : nat) (st : nat * nat * list Z)
  : option (nat * nat * list Z) :=
  let '(dst_p, bg_p, dst) := st in
  final_alpha ← for_loop 3 0 (flat2rgba_alpha dst bg dst_p bg_p) 0;
  dst ← store16 dst (dst_p + 3) final_alpha;
  dst ←
    (if final_alpha >? 0 then
       for_loop 3 0 (flat2rgba_color bg dst_p bg_p final_alpha) dst
     else
       dst ← store16 dst dst_p 0;
       dst ← store16 dst (dst_p + 1) 0;
       store16 dst (dst_p + 2) 0);
  Some ((dst_p + 4)%nat, (bg_p + 4)%nat, dst).

Definition tile_flat2rgba (dst bg : list Z) : option (list Z) :=
  '(_, _, dst) ← for_loop (TILE_SIZE * TILE_SIZE) 0 (flat2rgba_pixel bg)
                   (0%nat, 0%nat, dst);
  Some dst.

(** ** Perceptual stroke-change detector *)

(** Body of the loop over the three colour channels; the loop state is
    [color_change], an [int32_t]. *)
Definition strokemap_channel (a b : list Z) (a_p b_p : nat) (i : nat)
  (color_change : Z) : option Z :=
  ai ← a !! (a_p + i)%nat;
  b3 ← b !! (b_p + 3)%nat;
  bi ← b !! (b_p + i)%nat;
  a3 ← a !! (a_p + 3)%nat;
  let a_col := i32 (u32 (ai * b3) / 2 ^ 15) in
  let b_col := i32 (u32 (bi * a3) / 2 ^ 15) in
  Some (i32 (color_change + Z.abs (b_col - a_col))).

Definition strokemap_pixel (a b : list Z) (x : nat)
  (st : nat * nat * nat * list Z) : option (nat * nat * nat * list Z) :=
  let '(a_p, b_p, res_p, res) := st in
  color_change ← for_loop 3 0 (strokemap_channel a b a_p b_p) 0;
  alpha_old ← a !! (a_p + 3)%nat;
  alpha_new ← b !! (b_p + 3)%nat;
  let is_perceptual_color_change :=
    color_change >? Z.quot (MAX alpha_old alpha_new) 16 in
  let alpha_diff := alpha_new - alpha_old in
  let is_perceptual_alpha_increase := alpha_diff >? Z.quot (2 ^ 15) 4 in
  let is_big_relative_alpha_increase :=
    (alpha_diff >? Z.quot (2 ^ 15) 64) && (alpha_diff >? Z.quot alpha_old 2) in
  res ←
    (if is_perceptual_alpha_increase || is_big_relative_alpha_increase
        || is_perceptual_color_change
     then store8 res res_p 1
     else store8 res res_p 0);
  Some ((a_p + 4)%nat, (b_p + 4)%nat, (res_p + 1)%nat, res).

Definition strokemap_row (a b : list Z) (y : nat) (st : nat * nat * nat * list Z)
  : option (nat * nat * nat * list Z) :=
  for_loop TILE_SIZE 0 (strokemap_pixel a b) st.

Definition tile_perceptual_change_strokemap (a b res : list Z)
  : option (list Z) :=
  '(_, _, _, res) ← for_loop TILE_SIZE 0 (strokemap_row a b)
                      (0%nat, 0%nat, 0%nat, res);
  Some res.

(** ** Brush dab renderer *)

(** The traversal of the run-length encoded mask, which the three paint
    operations share: [while (1) { for (; mask[0]; mask++, rgba+=4) body;
    if (!mask[1]) break; rgba += mask[1]; mask += 2; }].  [mask] is the
    rest of the mask array from the pointer on, so that reading past its
    end is the error; [p] is the pointer [rgba] as an offset into the
    tile.  Both loops advance [mask], hence the recursion on it. *)
Fixpoint draw_dab_pixels (body : Z -> nat -> list Z -> option (list Z))
  (mask : list Z) (p : nat) (rgba : list Z) : option (list Z) :=
  match mask with
  | [] => None
  | m :: mask' =>
      if negb (m =? 0) then
        rgba ← body m p rgba;
        draw_dab_pixels body mask' (p + 4) rgba
      else
        match mask' with
        | [] => None
        | skip :: mask'' =>
            if skip =? 0 then Some rgba
            else draw_dab_pixels body mask'' (p + Z.to_nat skip) rgba
        end
  end.

(** [(opa_a*color + opa_b*rgba[c])/(1<<15)] in [uint32_t], stored in
    [rgba[c]]. *)
Definition dab_blend_channel (opa_a opa_b color : Z) (p c : nat) (rgba : list Z)
  : option (list Z) :=
  d ← rgba !! (p + c)%nat;
  store16 rgba (p + c) (u32 (u32 (opa_a * color) + u32 (opa_b * d)) / 2 ^ 15).

Definition BlendMode_Normal_pixel (color_r color_g color_b opacity : Z)
  (m : Z) (p : nat) (rgba : list Z) : option (list Z) :=
  let opa_a := u32 (m * opacity) / 2 ^ 15 in
  let opa_b := u32 (2 ^ 15 - opa_a) in
  a ← rgba !! (p + 3)%nat;
  rgba ← store16 rgba (p + 3) (u32 (opa_a + u32 (opa_b * a) / 2 ^ 15));
  rgba ← dab_blend_channel opa_a opa_b color_r p 0 rgba;
  rgba ← dab_blend_channel opa_a opa_b color_g p 1 rgba;
  dab_blend_channel opa_a opa_b color_b p 2 rgba.

Definition draw_dab_pixels_BlendMode_Normal (mask rgba : list Z)
  (color_r color_g color_b opacity : Z) : option (list Z) :=
  draw_dab_pixels (BlendMode_Normal_pixel color_r color_g color_b opacity)
    mask 0 rgba.

Definition BlendMode_Normal_and_Eraser_pixel
  (color_r color_g color_b color_a opacity : Z)
  (m : Z) (p : nat) (rgba : list Z) : option (list Z) :=
  let opa_a := u32 (m * opacity) / 2 ^ 15 in
  let opa_b := u32 (2 ^ 15 - opa_a) in
  let opa_a := u32 (opa_a * color_a) / 2 ^ 15 in
  a ← rgba !! (p + 3)%nat;
  rgba ← store16 rgba (p + 3) (u32 (opa_a + u32 (opa_b * a) / 2 ^ 15));
  rgba ← dab_blend_channel opa_a opa_b color_r p 0 rgba;
  rgba ← dab_blend_channel opa_a opa_b color_g p 1 rgba;
  dab_blend_channel opa_a opa_b color_b p 2 rgba.

Definition draw_dab_pixels_BlendMode_Normal_and_Eraser (mask rgba : list Z)
  (color_r color_g color_b color_a opacity : Z) : option (list Z) :=
  draw_dab_pixels
    (BlendMode_Normal_and_Eraser_pixel color_r color_g color_b color_a opacity)
    mask 0 rgba.

Definition BlendMode_LockAlpha_pixel (color_r color_g color_b opacity : Z)
  (m : Z) (p : nat) (rgba : list Z) : option (list Z) :=
  let opa_a := u32 (m * opacity) / 2 ^ 15 in
  let opa_b := u32 (2 ^ 15 - opa_a) in
  a ← rgba !! (p + 3)%nat;
  let opa_a := u32 (opa_a * a) in
  let opa_a := opa_a / 2 ^ 15 in
  rgba ← dab_blend_channel opa_a opa_b color_r p 0 rgba;
  rgba ← dab_blend_channel opa_a opa_b color_g p 1 rgba;
  dab_blend_channel opa_a opa_b color_b p 2 rgba.

Definition draw_dab_pixels_BlendMode_LockAlpha (mask rgba : list Z)
  (color_r color_g color_b opacity : Z) : option (list Z) :=
  draw_dab_pixels (BlendMode_LockAlpha_pixel color_r color_g color_b opacity)
    mask 0 rgba.

(** ** Overlay painting *)

(** [assert(b)]: a failed assertion ends the program. *)
Definition c_assert (b : bool) : option unit := if b then Some tt else None.

(** The traversal of the mask in [draw_dab_pixels_BlendMode_Overlay]:
    as [draw_dab_pixels], with the pointer [bg] into a background of
    three cells per pixel, [bg += 3] in a run and
    [bg += mask[1] / 4 * 3] at a skip. *)
Fixpoint draw_dab_pixels_bg (body : Z -> nat -> nat -> list Z -> option (list Z))
  (mask : list Z) (p bp : nat) (rgba : list Z) : option (list Z) :=
  match mask with
  | [] => None
  | m :: mask' =>
      if negb (m =? 0) then
        rgba ← body m p bp rgba;
        draw_dab_pixels_bg body mask' (p + 4) (bp + 3) rgba
      else
        match mask' with
        | [] => None
        | skip :: mask'' =>
            if skip =? 0 then Some rgba
            else draw_dab_pixels_bg body mask'' (p + Z.to_nat skip)
                   (bp + Z.to_nat (skip / 4 * 3)) rgba
        end
  end.

(** Body of the first inner loop: composite over the background and
    apply the effect; the loop state is the array [c].  The [int64_t]
    values are far from their bounds and are left unbounded. *)
Definition Overlay_effect (rgba bg color : list Z) (opa_a : Z) (p bp : nat)
  (i : nat) (c : list Z) : option (list Z) :=
  ri ← rgba !! (p + i)%nat;
  a ← rgba !! (p + 3)%nat;
  _ ← c_assert (ri <=? a);
  _ ← c_assert (opa_a <=? 2 ^ 15);
  b ← bg !! (bp + i)%nat;
  let ci := u32 (ri + Z.quot (i32 (i32 (2 ^ 15 - a) * b)) (2 ^ 15)) in
  _ ← c_assert (ci <=? 2 ^ 15);
  col ← color !! i;
  let slope := 2 * col - 2 ^ 15 in
  let tmp := if ci <? Z.quot (2 ^ 15) 2 then u16 ci else u16 (u32 (2 ^ 15 - ci)) in
  let change := Z.quot (tmp * slope) (2 ^ 15) in
  let tmp2 := ci + Z.quot (opa_a * change) (2 ^ 15) in
  _ ← c_assert (tmp2 <=? 2 ^ 15);
  _ ← c_assert (tmp2 >=? 0);
  Some (<[i := u32 (CLAMP tmp2 0 (2 ^ 15))]> c).

(** Body of the second inner loop; the loop state is [final_alpha]. *)
Definition Overlay_alpha (bg c : list Z) (bp : nat) (i : nat) (final_alpha : Z)
  : option Z :=
  ci ← c !! i;
  b ← bg !! (bp + i)%nat;
  let color_change := i32 (i32 ci - b) in
  minimal_alpha ←
    (if color_change >? 0 then
       q ← sdiv (color_change * 2 ^ 15) (i32 (2 ^ 15 - b));
       Some (u16 q)
     else if color_change <? 0 then
       q ← sdiv (- color_change * 2 ^ 15) b;
       Some (u16 q)
     else Some 0);
  let final_alpha := u16 (MAX final_alpha minimal_alpha) in
  _ ← c_assert (final_alpha <=? 2 ^ 15);
  Some final_alpha.

(** Body of the third inner loop; the loop state is the buffer. *)
Definition Overlay_color (bg c : list Z) (p bp : nat) (final_alpha : Z)
  (i : nat) (rgba : list Z) : option (list Z) :=
  ci ← c !! i;
  b ← bg !! (bp + i)%nat;
  let color_change := i32 (i32 ci - b) in
  let res := u32 (b * final_alpha) / 2 ^ 15 + color_change in
  _ ← c_assert (res <=? 2 ^ 15);
  _ ← c_assert (res >=? -1);
  let res := CLAMP res 0 (2 ^ 15) in
  rgba ← store16 rgba (p + i) res;
  ri ← rgba !! (p + i)%nat;
  a ← rgba !! (p + 3)%nat;
  _ ← c_assert (ri <=? a);
  Some rgba.

(** The array [c] is not initialised in the source; every cell is
    written before it is read. *)
Definition BlendMode_Overlay_pixel (bg color : list Z) (opacity : Z)
  (m : Z) (p bp : nat) (rgba : list Z) : option (list Z) :=
  let opa_a := u32 (m * opacity) / 2 ^ 15 in
  c ← for_loop 3 0 (Overlay_effect rgba bg color opa_a p bp) [0; 0; 0];
  final_alpha ← rgba !! (p + 3)%nat;
  final_alpha ← for_loop 3 0 (Overlay_alpha bg c bp) final_alpha;
  rgba ← store16 rgba (p + 3) final_alpha;
  if final_alpha >? 0 then for_loop 3 0 (Overlay_color bg c p bp final_alpha) rgba
  else Some rgba.

Definition draw_dab_pixels_BlendMode_Overlay (mask rgba bg : list Z)
  (color_r color_g color_b opacity : Z) : option (list Z) :=
  let color := [color_r; color_g; color_b] in
  draw_dab_pixels_bg (BlendMode_Overlay_pixel bg color opacity) mask 0 0 rgba.

(** ** Colour picking *)

(** Body of the inner loop of [get_color_pixels_accumulate]; the state
    is the five [uint32_t] accumulators [weight], [r], [g], [b], [a]. *)
Definition get_color_pixel (m : Z) (p : nat) (rgba : list Z)
  (acc : Z * Z * Z * Z * Z) : option (Z * Z * Z * Z * Z) :=
  let '(weight, r, g, b, a) := acc in
  let opa := m in
  let weight := u32 (weight + opa) in
  c0 ← rgba !! p;
  let r := u32 (r + u32 (opa * c0) / 2 ^ 15) in
  c1 ← rgba !! (p + 1)%nat;
  let g := u32 (g + u32 (opa * c1) / 2 ^ 15) in
  c2 ← rgba !! (p + 2)%nat;
  let b := u32 (b + u32 (opa * c2) / 2 ^ 15) in
  c3 ← rgba !! (p + 3)%nat;
  let a := u32 (a + u32 (opa * c3) / 2 ^ 15) in
  Some (weight, r, g, b, a).

(** The same traversal of the mask as in the paint operations, reading
    the tile. *)
Fixpoint get_color_pixels (mask : list Z) (p : nat) (rgba : list Z)
  (acc : Z * Z * Z * Z * Z) : option (Z * Z * Z * Z * Z) :=
  match mask with
  | [] => None
  | m :: mask' =>
      if negb (m =? 0) then
        acc ← get_color_pixel m p rgba acc;
        get_color_pixels mask' (p + 4) rgba acc
      else
        match mask' with
        | [] => None
        | skip :: mask'' =>
            if skip =? 0 then Some acc
            else get_color_pixels mask'' (p + Z.to_nat skip) rgba acc
        end
  end.

Section GetColor.
(** The five sums are [float]; the conversion of an accumulator and the
    addition are parameters. *)
Variable float : Type.
Variable float_of_uint32 : Z -> float.
Variable float_add : float -> float -> float.

Definition get_color_pixels_accumulate (mask rgba : list Z)
  (sums : float * float * float * float * float)
  : option (float * float * float * float * float) :=
  let '(sum_weight, sum_r, sum_g, sum_b, sum_a) := sums in
  '(weight, r, g, b, a) ← get_color_pixels mask 0 rgba (0, 0, 0, 0, 0);
  Some (float_add sum_weight (float_of_uint32 weight),
        float_add sum_r (float_of_uint32 r),
        float_add sum_g (float_of_uint32 g),
        float_add sum_b (float_of_uint32 b),
        float_add sum_a (float_of_uint32 a)).
End GetColor.

(** * Specification-side definitions

    What follows is used to state and prove the properties; none of it is
    part of the program. *)

(** [p[i]] where the access is known to be in range. *)
Definition rd (buf : list Z) (i : nat) : Z := default 0 (buf !! i).

(** Loop invariant of a loop that writes one group of cells per
    iteration: after the iterations before [i], the groups of those
    iterations hold their final values [val] and every other cell is as
    in [orig].  [addr i t], for [t] in [dom i], are the cells of
    iteration [i]. *)
Definition cells_inv {St A : Type} (buf_of : St -> list Z)
  (ptr_ok : nat -> St -> Prop) (dom : nat -> A -> Prop) (addr : nat -> A -> nat)
  (val : nat -> A -> Z) (orig : list Z) (i0 n : nat) (i : nat) (s : St) : Prop :=
  ptr_ok i s /\ length (buf_of s) = length orig /\
  (forall i' t, (i0 <= i' < i)%nat -> dom i' t ->
     buf_of s !! addr i' t = Some (val i' t)) /\
  (forall i' t, (i <= i' < i0 + n)%nat -> dom i' t ->
     buf_of s !! addr i' t = orig !! addr i' t) /\
  (forall j, (forall i' t, (i0 <= i' < i0 + n)%nat -> dom i' t -> j <> addr i' t) ->
     buf_of s !! j = orig !! j).

(** ** Final cell values of the tile operations *)

(** Downscaler: channel [c] of the destination pixel whose 2x2 source
    block starts at [src_p]. *)
Definition downscale_val (src : list Z) (src_p c : nat) : Z :=
  u16 (rd src (src_p + c) / 4 + rd src (src_p + 4 + c) / 4
       + rd src (src_p + 4 * TILE_SIZE + c) / 4
       + rd src (src_p + 4 * TILE_SIZE + 4 + c) / 4).

(** Flatten: a colour channel [d] of a pixel of alpha [a] over the
    background channel [b]. *)
Definition flat_channel (d a b : Z) : Z :=
  u16 (u32 (d + u32 (u32 (2 ^ 15 - a) * b) / 2 ^ 15)).

Definition rgba2flat_val (dst bg : list Z) (k c : nat) : Z :=
  if (c <? 3)%nat
  then flat_channel (rd dst (4 * k + c)) (rd dst (4 * k + 3)) (rd bg (4 * k + c))
  else rd dst (4 * k + 3).

(** Unflatten: [final_alpha] after one iteration of the first inner
    loop, after the three of them, and the colour written by the second
    inner loop. *)
Definition alpha_step (d b a fa : Z) : Z :=
  let cc := i32 (d - b) in
  let fa :=
    if cc >? 0 then u16 (MAX fa (Z.quot (cc * 2 ^ 15) (2 ^ 15 - b)))
    else if cc <? 0 then u16 (MAX fa (Z.quot (- cc * 2 ^ 15) b))
    else fa in
  u16 (MAX fa a).

Definition final_alpha_val (dst bg : list Z) (p : nat) : Z :=
  let a := rd dst (p + 3) in
  alpha_step (rd dst (p + 2)) (rd bg (p + 2)) a
    (alpha_step (rd dst (p + 1)) (rd bg (p + 1)) a
       (alpha_step (rd dst (p + 0)) (rd bg (p + 0)) a 0)).

Definition color_val (d b fa : Z) : Z :=
  if fa >? 0 then u16 (CLAMP (u32 (b * fa) / 2 ^ 15 + i32 (d - b)) 0 fa) else 0.

Definition flat2rgba_val (dst bg : list Z) (k c : nat) : Z :=
  let fa := final_alpha_val dst bg (4 * k) in
  if (c <? 3)%nat then color_val (rd dst (4 * k + c)) (rd bg (4 * k + c)) fa
  else u16 fa.

(** The spec's words for the alpha that one channel requires: "the
    minimal alpha that can explain the channel's deviation from the
    background is |delta color| / background-or-its-complement", in the
    fixed-point domain.  [d] is the flat colour, [b] the background. *)
Definition minimal_alpha (d b : Z) : Z :=
  if d >? b then (d - b) * 2 ^ 15 / (2 ^ 15 - b)
  else if d <? b then (b - d) * 2 ^ 15 / b
  else 0.

(** Stroke map: [color_change] after one iteration of the channel loop,
    and the flag written for pixel [k]. *)
Definition strokemap_channel_val (a b : list Z) (p i : nat) (color_change : Z) : Z :=
  let a_col := i32 (u32 (rd a (p + i) * rd b (p + 3)) / 2 ^ 15) in
  let b_col := i32 (u32 (rd b (p + i) * rd a (p + 3)) / 2 ^ 15) in
  i32 (color_change + Z.abs (b_col - a_col)).

Definition strokemap_val (a b : list Z) (k : nat) : Z :=
  let p := (4 * k)%nat in
  let color_change :=
    strokemap_channel_val a b p 2
      (strokemap_channel_val a b p 1 (strokemap_channel_val a b p 0 0)) in
  let alpha_old := rd a (p + 3) in
  let alpha_new := rd b (p + 3) in
  let alpha_diff := alpha_new - alpha_old in
  if (alpha_diff >? Z.quot (2 ^ 15) 4)
     || ((alpha_diff >? Z.quot (2 ^ 15) 64) && (alpha_diff >? Z.quot alpha_old 2))
     || (color_change >? Z.quot (MAX alpha_old alpha_new) 16)
  then 1 else 0.

(** 8 bit to 16 bit. *)
Definition rgba16_val (src : list Z) (k c : nat) : Z :=
  let a := to_fix15 (rd src (4 * k + 3)) in
  if (c <? 3)%nat then u16 (premultiply (to_fix15 (rd src (4 * k + c))) a)
  else u16 a.

(** 16 bit to 8 bit; pixel [k] takes the noise values [2k] and [2k+1]. *)
Definition unpremultiply_val (c a : Z) : Z :=
  if a =? 0 then 0 else u32 (u32 (c * 2 ^ 15) + a / 2) / a.

Definition rgba8_val (noise src : list Z) (k c : nat) : Z :=
  let a := rd src (4 * k + 3) in
  if (c <? 3)%nat
  then u8 (dither8 (unpremultiply_val (rd src (4 * k + c)) a) (rd noise (2 * k)))
  else u8 (dither8 a (rd noise (2 * k + 1))).

(** ** The noise band *)

(** The documented band of the noise table, [0.03 .. 0.97] * (1<<15). *)
Definition in_noise_band (n : Z) : Prop := 3 * 2 ^ 15 <= 100 * n <= 97 * 2 ^ 15.

(** The integers of the band. *)
Definition noise_lo : Z := 984.
Definition noise_hi : Z := 31784.

(** A state of the two static variables: the table has its size, and
    once the flag is set its entries are in the band. *)
Definition noise_state_ok (st : noise_state) : Prop :=
  length (dithering_noise st) = dithering_noise_size /\
  (have_noise st = true -> Forall in_noise_band (dithering_noise st)).

(** ** The 8 bit round trip *)

(** The un-premultiplied colour that the 16 bit to 8 bit conversion
    computes from what the 8 bit to 16 bit conversion stored for the
    colour [r] at alpha [a]. *)
Definition roundtrip_unpremultiplied (r a : Z) : Z :=
  unpremultiply_val (u16 (premultiply (to_fix15 r) (to_fix15 a))) (u16 (to_fix15 a)).

(** Dithering the 16 bit value [c] gives the 8 bit value [v] for every
    noise value of the band. *)
Definition dither_exact (v c : Z) : bool :=
  (0 <=? c) && (v * 2 ^ 15 <=? c * 255 + noise_lo)
  && (c * 255 + noise_hi <? (v + 1) * 2 ^ 15).

(** The check of one alpha [a]: its own round trip, and the round trip
    of every colour at this alpha. *)
Definition roundtrip_check (a : Z) : bool :=
  let a15 := to_fix15 a in
  let a16 := u16 a15 in
  dither_exact a a16
  && forallb (fun r => dither_exact r
                         (unpremultiply_val (u16 (premultiply (to_fix15 r) a15)) a16))
       (seqZ 0 256).

(** Some colour at the alpha [a] does not come back at one end of the
    band. *)
Definition roundtrip_lost (a : Z) : bool :=
  existsb (fun r =>
             negb (u8 (dither8 (roundtrip_unpremultiplied r a) noise_lo) =? r)
             || negb (u8 (dither8 (roundtrip_unpremultiplied r a) noise_hi) =? r))
    (seqZ 0 256).

(** The bound of the round trip as the code has it: 37 of 255 is the
    least 8 bit alpha from which the round trip is exact for every colour
    and every noise value of the band; at every alpha below it some
    colour is lost.  The bound is a fact of the code's arithmetic. *)
Definition alpha_threshold : Z := 37.

(** ** Masks and pixels *)

(** A run-length encoded mask for a buffer of [len] cells, read from the
    pointer [p] on: the traversal reaches the terminating zero skip
    inside the mask array, every pixel of a run lies inside the buffer,
    and every skip is a whole number of pixels (the skip counts cells,
    four per pixel). *)
Fixpoint mask_ok (len : nat) (mask : list Z) (p : nat) : bool :=
  match mask with
  | [] => false
  | m :: mask' =>
      if negb (m =? 0) then (p + 4 <=? len)%nat && mask_ok len mask' (p + 4)
      else
        match mask' with
        | [] => false
        | skip :: mask'' =>
            if skip =? 0 then true
            else (skip mod 4 =? 0) && mask_ok len mask'' (p + Z.to_nat skip)
        end
  end.

(** The invariant of the working encoding, [R,G,B <= A <= 1<<15], at
    pixel [k] and at every pixel of a buffer. *)
Definition pixel_ok (buf : list Z) (k : nat) : Prop :=
  let a := rd buf (4 * k + 3) in
  0 <= rd buf (4 * k) <= a /\ 0 <= rd buf (4 * k + 1) <= a /\
  0 <= rd buf (4 * k + 2) <= a /\ a <= fix15_one.

Definition premultiplied (buf : list Z) : Prop :=
  forall k, (4 * k + 3 < length buf)%nat -> pixel_ok buf k.

(** The value that [dab_blend_channel] stores. *)
Definition blend_val (opa_a opa_b color d : Z) : Z :=
  u16 (u32 (u32 (opa_a * color) + u32 (opa_b * d)) / 2 ^ 15).

(** ** Pixels of a mask *)

(** The pixels that the traversal of a mask visits, from the pointer [p]
    on: the offset of each one and the mask value it is painted with. *)
Fixpoint mask_pixels (mask : list Z) (p : nat) : list (nat * Z) :=
  match mask with
  | [] => []
  | m :: mask' =>
      if negb (m =? 0) then (p, m) :: mask_pixels mask' (p + 4)
      else
        match mask' with
        | [] => []
        | skip :: mask'' =>
            if skip =? 0 then []
            else mask_pixels mask'' (p + Z.to_nat skip)
        end
  end.

(** The four cells of the pixel at offset [p]. *)
Definition pixel_at (buf : list Z) (p : nat) : Z * Z * Z * Z :=
  (rd buf p, rd buf (p + 1), rd buf (p + 2), rd buf (p + 3)).

(** What the three paint operations make of the pixel [(r, g, b, a)]
    under the mask value [m]. *)
Definition Normal_px (color_r color_g color_b opacity : Z) (m : Z)
  (px : Z * Z * Z * Z) : Z * Z * Z * Z :=
  let '(r, g, b, a) := px in
  let opa_a := u32 (m * opacity) / 2 ^ 15 in
  let opa_b := u32 (2 ^ 15 - opa_a) in
  (blend_val opa_a opa_b color_r r, blend_val opa_a opa_b color_g g,
   blend_val opa_a opa_b color_b b,
   u16 (u32 (opa_a + u32 (opa_b * a) / 2 ^ 15))).

Definition Normal_and_Eraser_px (color_r color_g color_b color_a opacity : Z) (m : Z)
  (px : Z * Z * Z * Z) : Z * Z * Z * Z :=
  let '(r, g, b, a) := px in
  let opa_a := u32 (m * opacity) / 2 ^ 15 in
  let opa_b := u32 (2 ^ 15 - opa_a) in
  let opa_a := u32 (opa_a * color_a) / 2 ^ 15 in
  (blend_val opa_a opa_b color_r r, blend_val opa_a opa_b color_g g,
   blend_val opa_a opa_b color_b b,
   u16 (u32 (opa_a + u32 (opa_b * a) / 2 ^ 15))).

Definition LockAlpha_px (color_r color_g color_b opacity : Z) (m : Z)
  (px : Z * Z * Z * Z) : Z * Z * Z * Z :=
  let '(r, g, b, a) := px in
  let opa_a := u32 (m * opacity) / 2 ^ 15 in
  let opa_b := u32 (2 ^ 15 - opa_a) in
  let opa_a := u32 (opa_a * a) / 2 ^ 15 in
  (blend_val opa_a opa_b color_r r, blend_val opa_a opa_b color_g g,
   blend_val opa_a opa_b color_b b, a).

(** The sums over the visited pixels, in unbounded integers: the mask
    values, and channel [c] weighted by the mask value. *)
Definition pixels_weight (px : list (nat * Z)) : Z :=
  foldr (fun qm s => qm.2 + s) 0 px.
Definition pixels_sum (rgba : list Z) (c : nat) (px : list (nat * Z)) : Z :=
  foldr (fun qm s => qm.2 * rd rgba (qm.1 + c) / 2 ^ 15 + s) 0 px.

(** ** Conversion without alpha *)

(** 16 bit to 8 bit without alpha; pixel [k] takes the noise value [k]. *)
Definition rgbu8_val (noise src : list Z) (k c : nat) : Z :=
  if (c <? 3)%nat then u8 (dither8 (rd src (4 * k + c)) (rd noise k)) else 255.

(** ** Concrete inputs *)

(** The tile whose pixels all are [(r, g, b, a)]. *)
Definition pixel_tile (r g b a : Z) : list Z :=
  concat (replicate (TILE_SIZE * TILE_SIZE) [r; g; b; a]).

(** The noise state before the first conversion. *)
Definition no_noise : noise_state :=
  {| have_noise := false; dithering_noise := replicate dithering_noise_size 0 |}.

(** A mask of two runs (two pixels, one skipped, one pixel) over a
    buffer of four pixels. *)
Definition example_mask : list Z := [32768; 16384; 0; 4; 8192; 0; 0].
Definition example_rgba : list Z :=
  [100; 200; 300; 400; 0; 0; 0; 0; 5; 6; 7; 8; 32768; 0; 16384; 32768].

(** * Properties *)

(** ** Fixed-width integers and cells *)

Lemma i32_small (x : Z) : - 2 ^ 31 <= x < 2 ^ 31 -> i32 x = x.
Proof. intros H. unfold i32. rewrite Z.mod_small; lia. Qed.

Lemma u16_small (x : Z) : 0 <= x < 2 ^ 16 -> u16 x = x.
Proof. intros H. unfold u16. apply Z.mod_small. lia. Qed.

Lemma u32_small (x : Z) : 0 <= x < 2 ^ 32 -> u32 x = x.
Proof. intros H. unfold u32. apply Z.mod_small. lia. Qed.

Lemma u8_small (x : Z) : 0 <= x < 2 ^ 8 -> u8 x = x.
Proof. intros H. unfold u8. apply Z.mod_small. lia. Qed.

Lemma MAX_max (a b : Z) : MAX a b = Z.max a b.
Proof. unfold MAX. destruct (Z.gtb_spec a b); lia. Qed.

Lemma CLAMP_range (x lo hi : Z) : lo <= hi -> lo <= CLAMP x lo hi <= hi.
Proof.
  intros H. unfold CLAMP.
  destruct (Z.gtb_spec x hi); [lia|]. destruct (Z.ltb_spec x lo); lia.
Qed.

Lemma lookup_rd (buf : list Z) (i : nat) :
  (i < length buf)%nat -> buf !! i = Some (rd buf i).
Proof.
  intros H. unfold rd. destruct (lookup_lt_is_Some_2 buf i H) as [v ->]. reflexivity.
Qed.

Lemma Forall_rd (P : Z -> Prop) (buf : list Z) (j : nat) :
  Forall P buf -> (j < length buf)%nat -> P (rd buf j).
Proof.
  intros HF Hj. apply (Forall_lookup_1 P buf j); [exact HF | apply lookup_rd, Hj].
Qed.

Lemma store16_Some (buf : list Z) (i : nat) (v : Z) :
  (i < length buf)%nat -> store16 buf i v = Some (<[i := u16 v]> buf).
Proof.
  intros H. unfold store16. destruct (Nat.ltb_spec i (length buf)); [reflexivity | lia].
Qed.

Lemma store8_Some (buf : list Z) (i : nat) (v : Z) :
  (i < length buf)%nat -> store8 buf i v = Some (<[i := u8 v]> buf).
Proof.
  intros H. unfold store8. destruct (Nat.ltb_spec i (length buf)); [reflexivity | lia].
Qed.

(** ** Loops *)

Section ForLoopInv.
Context {St : Type}.
Variable Inv : nat -> St -> Prop.
Variable body : nat -> St -> option St.
Variables i0 n : nat.
Hypothesis Hstep : forall i s, (i0 <= i < i0 + n)%nat -> Inv i s ->
  exists s', body i s = Some s' /\ Inv (S i) s'.

Lemma for_loop_inv_from (m i : nat) (s : St) :
  (i0 <= i)%nat -> (i + m = i0 + n)%nat -> Inv i s ->
  exists s', for_loop m i body s = Some s' /\ Inv (i0 + n)%nat s'.
Proof.
  revert i s. induction m as [|m IH]; intros i s Hi Hm HI.
  - exists s. split; [reflexivity|]. replace (i0 + n)%nat with i by lia. exact HI.
  - destruct (Hstep i s) as (s1 & Hb & HI1); [lia | exact HI |].
    destruct (IH (S i) s1) as (s2 & Hl & HI2); [lia | lia | exact HI1 |].
    exists s2. split; [|exact HI2]. cbn [for_loop]. rewrite Hb. exact Hl.
Qed.

Lemma for_loop_inv (s : St) :
  Inv i0 s -> exists s', for_loop n i0 body s = Some s' /\ Inv (i0 + n)%nat s'.
Proof. intros. apply for_loop_inv_from; [lia | lia | assumption]. Qed.
End ForLoopInv.

Section ForLoopCells.
Context {St A : Type}.
Variable buf_of : St -> list Z.
Variable ptr_ok : nat -> St -> Prop.
Variable dom : nat -> A -> Prop.
Variable addr : nat -> A -> nat.
Variable val : nat -> A -> Z.
Variable orig : list Z.
Variable body : nat -> St -> option St.
Variables i0 n : nat.

Hypothesis addr_disjoint : forall i i' t t',
  (i0 <= i < i0 + n)%nat -> (i0 <= i' < i0 + n)%nat -> dom i t -> dom i' t' ->
  i <> i' -> addr i t <> addr i' t'.

Hypothesis Hstep : forall i s,
  (i0 <= i < i0 + n)%nat -> ptr_ok i s -> length (buf_of s) = length orig ->
  (forall t, dom i t -> buf_of s !! addr i t = orig !! addr i t) ->
  exists s', body i s = Some s' /\ ptr_ok (S i) s' /\
    length (buf_of s') = length orig /\
    (forall t, dom i t -> buf_of s' !! addr i t = Some (val i t)) /\
    (forall j, (forall t, dom i t -> j <> addr i t) -> buf_of s' !! j = buf_of s !! j).

Lemma for_loop_cells (s : St) :
  ptr_ok i0 s -> buf_of s = orig ->
  exists s', for_loop n i0 body s = Some s' /\ ptr_ok (i0 + n)%nat s' /\
    length (buf_of s') = length orig /\
    (forall i t, (i0 <= i < i0 + n)%nat -> dom i t ->
       buf_of s' !! addr i t = Some (val i t)) /\
    (forall j, (forall i t, (i0 <= i < i0 + n)%nat -> dom i t -> j <> addr i t) ->
       buf_of s' !! j = orig !! j).
Proof.
  intros Hp Hb.
  destruct (for_loop_inv (cells_inv buf_of ptr_ok dom addr val orig i0 n) body i0 n)
    with (s := s)
    as (s' & Hl & Hp' & Hlen & Hdone & _ & Hout).
  - intros i s1 Hi (Hp1 & Hlen1 & Hdone1 & Htodo1 & Hout1).
    destruct (Hstep i s1 Hi Hp1 Hlen1) as (s2 & Hb2 & Hp2 & Hlen2 & Hnew & Hframe).
    { intros t Ht. apply Htodo1; [lia | exact Ht]. }
    exists s2. split; [exact Hb2|]. unfold cells_inv. repeat split; try assumption.
    + intros i' t Hi' Ht. destruct (decide (i' = i)) as [->|Hne].
      * apply Hnew, Ht.
      * rewrite Hframe.
        -- apply Hdone1; [lia | exact Ht].
        -- intros t' Ht'. apply addr_disjoint; auto; lia.
    + intros i' t Hi' Ht. rewrite Hframe.
      * apply Htodo1; [lia | exact Ht].
      * intros t' Ht'. apply addr_disjoint; auto; lia.
    + intros j Hj. rewrite Hframe.
      * apply Hout1, Hj.
      * intros t Ht. apply Hj; [lia | exact Ht].
  - unfold cells_inv. repeat split; try assumption.
    + rewrite Hb. reflexivity.
    + intros i' t Hi'. lia.
    + intros i' t _ _. rewrite Hb. reflexivity.
    + intros j _. rewrite Hb. reflexivity.
  - exists s'. repeat split; assumption.
Qed.
End ForLoopCells.

(** ** Tile geometry *)

Lemma TILE_SIZE_eq : TILE_SIZE = 64%nat.
Proof. reflexivity. Qed.
Lemma tile_stride_eq : tile_stride = 256%nat.
Proof. reflexivity. Qed.
Lemma tile_cells_eq : tile_cells = (64 * 64 * 4)%nat.
Proof. reflexivity. Qed.

Opaque TILE_SIZE tile_stride tile_cells.

Ltac tile_facts :=
  pose proof TILE_SIZE_eq; pose proof tile_stride_eq; pose proof tile_cells_eq.

(** For closed side conditions on the tile geometry. *)
Ltac tile_lia :=
  repeat match goal with H : _ |- _ => clear H end; tile_facts; lia.

Ltac lookup_inserts :=
  repeat first
    [ rewrite list_lookup_insert_eq by (rewrite ?length_insert; lia)
    | rewrite list_lookup_insert_ne by lia ].

Ltac run_step :=
  repeat first
    [ rewrite list_lookup_insert_ne by lia
    | rewrite lookup_rd by (rewrite ?length_insert; lia)
    | rewrite store16_Some by (rewrite ?length_insert; lia)
    | progress cbn [mbind option_bind] ].

Lemma rows_disjoint (s a a' r r' : nat) :
  (r < s)%nat -> (r' < s)%nat -> a <> a' -> (a * s + r)%nat <> (a' * s + r')%nat.
Proof. intros Hr Hr' Hne Heq. apply Hne. nia. Qed.

(** ** Concrete tiles *)

Lemma lookup_pixels (n : nat) (r g b a : Z) (k c : nat) :
  (k < n)%nat -> (c < 4)%nat ->
  concat (replicate n [r; g; b; a]) !! (4 * k + c)%nat = [r; g; b; a] !! c.
Proof.
  revert k. induction n as [|n IH]; intros k Hk Hc; [lia|].
  cbn [replicate concat]. destruct k as [|k].
  - rewrite lookup_app_l by (cbn [length]; lia). reflexivity.
  - rewrite lookup_app_r by (cbn [length]; lia). cbn [length].
    replace (4 * S k + c - 4)%nat with (4 * k + c)%nat by lia.
    apply IH; lia.
Qed.

Lemma length_pixels (n : nat) (r g b a : Z) :
  length (concat (replicate n [r; g; b; a])) = (n * 4)%nat.
Proof. induction n as [|n IH]; [reflexivity|]. cbn [replicate concat]. rewrite length_app, IH. reflexivity. Qed.

Lemma length_pixel_tile (r g b a : Z) : length (pixel_tile r g b a) = tile_cells.
Proof. apply length_pixels. Qed.

Lemma rd_pixel_tile (r g b a : Z) (k c : nat) :
  (k < TILE_SIZE * TILE_SIZE)%nat -> (c < 4)%nat ->
  rd (pixel_tile r g b a) (4 * k + c) = default 0 ([r; g; b; a] !! c).
Proof. intros Hk Hc. unfold rd, pixel_tile. rewrite lookup_pixels by assumption. reflexivity. Qed.

Lemma Forall_pixel_tile (P : Z -> Prop) (r g b a : Z) :
  P r -> P g -> P b -> P a -> Forall P (pixel_tile r g b a).
Proof.
  intros Hr Hg Hb Ha. unfold pixel_tile.
  induction (TILE_SIZE * TILE_SIZE)%nat as [|n IH]; cbn [replicate concat].
  - constructor.
  - apply Forall_app. split; [|exact IH]. repeat constructor; assumption.
Qed.

Lemma premultiplied_pixel_tile (r g b a : Z) :
  0 <= r <= a -> 0 <= g <= a -> 0 <= b <= a -> a <= fix15_one ->
  premultiplied (pixel_tile r g b a).
Proof.
  intros Hr Hg Hb Ha k Hk. rewrite length_pixel_tile in Hk.
  pose proof TILE_SIZE_eq. pose proof tile_cells_eq.
  unfold pixel_ok.
  assert (Hr0 : rd (pixel_tile r g b a) (4 * k) = r).
  { rewrite <- (Nat.add_0_r (4 * k)). rewrite rd_pixel_tile by lia. reflexivity. }
  rewrite Hr0, !rd_pixel_tile by lia. cbn [lookup list_lookup default from_option id].
  unfold id. lia.
Qed.

Lemma no_noise_ok : noise_state_ok no_noise.
Proof. split; [apply length_replicate | discriminate]. Qed.

(** ** Tile compositing engine *)

(** C1.  Whatever the source tile, the destination tile, the blend mode
    and [dst_has_alpha]: when the fixed-point conversion of the opacity
    is zero, [tile_composite_data] returns the destination tile as it
    was. *)
Theorem tile_composite_zero_opacity (float : Type) (float_to_fix15 : float -> Z)
  (fix15_short_clamp : Z -> Z)
  (composite_src_over : BufferCompOutput -> BlendMode -> list Z -> list Z -> Z -> list Z)
  (B : BlendMode) (src dst : list Z) (dst_has_alpha : bool) (src_opacity : float) :
  fix15_short_clamp (float_to_fix15 src_opacity) = 0 ->
  tile_composite_data float float_to_fix15 fix15_short_clamp composite_src_over
    B src dst dst_has_alpha src_opacity = dst.
Proof.
  intros H. unfold tile_composite_data. rewrite H. reflexivity.
Qed.

Lemma tile_composite_zero_opacity_witness :
  tile_composite_data (Z * positive)
    (fun o => Z.quot (fst o * 2 ^ 15) (Z.pos (snd o)))
    (fun n => if n >? fix15_one then fix15_one else n)
    (fun _ _ src _ _ => src)
    MultiplyBlendMode [1; 2; 3; 4] [5; 6; 7; 8] true (1, 100000%positive)
  = [5; 6; 7; 8].
Proof.
  apply (tile_composite_zero_opacity (Z * positive)
           (fun o => Z.quot (fst o * 2 ^ 15) (Z.pos (snd o)))
           (fun n => if n >? fix15_one then fix15_one else n)
           (fun _ _ src _ _ => src)
           MultiplyBlendMode [1; 2; 3; 4] [5; 6; 7; 8] true (1, 100000%positive)).
  reflexivity.
Defined.

(** ** Mipmap downscaler *)

Lemma downscale_channel_Some (src : list Z) (src_p c : nat) :
  (src_p + 4 * TILE_SIZE + 4 + c < length src)%nat ->
  downscale_channel src src_p c =
    Some (rd src (src_p + c) / 4 + rd src (src_p + 4 + c) / 4
          + rd src (src_p + 4 * TILE_SIZE + c) / 4
          + rd src (src_p + 4 * TILE_SIZE + 4 + c) / 4).
Proof.
  intros H. unfold downscale_channel.
  rewrite !lookup_rd by lia. reflexivity.
Qed.

Lemma downscale_pixel_Some (src : list Z) (x src_p dst_p : nat) (dst : list Z) :
  (src_p + 4 * TILE_SIZE + 8 <= length src)%nat ->
  (dst_p + 4 <= length dst)%nat ->
  downscale_pixel src x (src_p, dst_p, dst) =
    Some ((src_p + 8)%nat, (dst_p + 4)%nat,
          <[(dst_p + 3)%nat := downscale_val src src_p 3]>
            (<[(dst_p + 2)%nat := downscale_val src src_p 2]>
               (<[(dst_p + 1)%nat := downscale_val src src_p 1]>
                  (<[dst_p := downscale_val src src_p 0]> dst)))).
Proof.
  intros Hs Hd. unfold downscale_pixel.
  rewrite !downscale_channel_Some by lia. cbn [mbind option_bind].
  rewrite store16_Some by lia. cbn [mbind option_bind].
  rewrite store16_Some by (rewrite ?length_insert; lia). cbn [mbind option_bind].
  rewrite store16_Some by (rewrite ?length_insert; lia). cbn [mbind option_bind].
  rewrite store16_Some by (rewrite ?length_insert; lia). cbn [mbind option_bind].
  reflexivity.
Qed.

Lemma downscale_row_cells (src : list Z) (dst_stride dst_x dst_y y : nat) (dst : list Z) :
  (2 * y * tile_stride + 8 * TILE_SIZE <= length src)%nat ->
  ((y + dst_y) * dst_stride + 4 * dst_x + 4 * (TILE_SIZE / 2) <= length dst)%nat ->
  exists dst', downscale_row src dst_stride dst_x dst_y y dst = Some dst' /\
    length dst' = length dst /\
    (forall x c, (x < TILE_SIZE / 2)%nat -> (c < 4)%nat ->
       dst' !! ((y + dst_y) * dst_stride + 4 * dst_x + 4 * x + c)%nat =
         Some (downscale_val src (2 * y * tile_stride + 8 * x) c)) /\
    (forall j, (j < (y + dst_y) * dst_stride + 4 * dst_x
                \/ (y + dst_y) * dst_stride + 4 * dst_x + 4 * (TILE_SIZE / 2) <= j)%nat ->
       dst' !! j = dst !! j).
Proof.
  intros Hs Hd. tile_facts. unfold downscale_row.
  generalize dependent (2 * y * tile_stride)%nat. intros sb Hs.
  generalize dependent ((y + dst_y) * dst_stride + 4 * dst_x)%nat. intros db Hd.
  destruct (for_loop_cells
              (fun s : nat * nat * list Z => s.2)
              (fun x s => s.1.1 = (sb + 8 * x)%nat /\ s.1.2 = (db + 4 * x)%nat)
              (fun _ c => (c < 4)%nat)
              (fun x c => (db + 4 * x + c)%nat)
              (fun x c => downscale_val src (sb + 8 * x) c)
              dst (downscale_pixel src) 0%nat (TILE_SIZE / 2)%nat)
    with (s := (sb, db, dst)) as (s' & Hl & _ & Hlen & Hcells & Hout).
  - intros; cbv beta in *; lia.
  - intros x [[sp dp] d] Hx [Hsp Hdp] Hlen _. cbn [fst snd] in *. subst sp dp.
    rewrite downscale_pixel_Some by lia.
    eexists. split; [reflexivity|]. cbn [fst snd].
    split; [lia|]. split; [rewrite !length_insert; exact Hlen|]. split.
    + intros c Hc. destruct c as [|[|[|[|c]]]]; try lia;
        rewrite ?Nat.add_0_r; lookup_inserts; reflexivity.
    + intros j Hj.
      pose proof (Hj 0%nat ltac:(lia)). pose proof (Hj 1%nat ltac:(lia)).
      pose proof (Hj 2%nat ltac:(lia)). pose proof (Hj 3%nat ltac:(lia)).
      lookup_inserts. reflexivity.
  - cbn [fst snd]. lia.
  - reflexivity.
  - rewrite Hl. destruct s' as [[sp dp] d]. cbn [fst snd mbind option_bind] in *.
    exists d. split; [reflexivity|]. split; [exact Hlen|]. split.
    + intros x c Hx Hc. apply Hcells; [lia | exact Hc].
    + intros j Hj. apply Hout. intros x c Hx Hc. lia.
Qed.

Lemma tile_downscale_rgba16_cells (src dst : list Z) (dst_stride dst_x dst_y : nat) :
  length src = tile_cells ->
  (4 * dst_x + 4 * (TILE_SIZE / 2) <= dst_stride)%nat ->
  ((dst_y + TILE_SIZE / 2) * dst_stride <= length dst)%nat ->
  exists dst', tile_downscale_rgba16 src dst dst_stride dst_x dst_y = Some dst' /\
    length dst' = length dst /\
    forall y x c, (y < TILE_SIZE / 2)%nat -> (x < TILE_SIZE / 2)%nat -> (c < 4)%nat ->
      dst' !! ((y + dst_y) * dst_stride + 4 * dst_x + 4 * x + c)%nat =
        Some (downscale_val src (2 * y * tile_stride + 8 * x) c).
Proof.
  intros Hsrc Hx Hy. tile_facts. unfold tile_downscale_rgba16.
  destruct (for_loop_cells
              (fun s : list Z => s) (fun _ _ => True)
              (fun _ (t : nat * nat) => (t.1 < TILE_SIZE / 2)%nat /\ (t.2 < 4)%nat)
              (fun y t => ((y + dst_y) * dst_stride + (4 * dst_x + 4 * t.1 + t.2))%nat)
              (fun y t => downscale_val src (2 * y * tile_stride + 8 * t.1) t.2)
              dst (downscale_row src dst_stride dst_x dst_y) 0%nat (TILE_SIZE / 2)%nat)
    with (s := dst) as (dst' & Hl & _ & Hlen & Hcells & _).
  - intros y y' [x c] [x' c'] _ _ [Hx1 Hc1] [Hx2 Hc2] Hne. cbn [fst snd] in *.
    assert (y + dst_y <> y' + dst_y)%nat by lia.
    apply rows_disjoint; [lia | lia | assumption].
  - intros y d Hyr _ Hlen _.
    destruct (downscale_row_cells src dst_stride dst_x dst_y y d)
      as (d' & Hr & Hlen' & Hc & Hf); [lia | nia |].
    exists d'. split; [exact Hr|]. split; [exact I|].
    split; [congruence|]. split.
    + intros [x c] [Hx1 Hc1]. cbn [fst snd] in *.
      rewrite <- Hc by assumption. f_equal. lia.
    + intros j Hj. apply Hf.
      destruct (decide (j < (y + dst_y) * dst_stride + 4 * dst_x)%nat) as [|Hge];
        [left; assumption|].
      destruct (decide ((y + dst_y) * dst_stride + 4 * dst_x + 4 * (TILE_SIZE / 2) <= j)%nat)
        as [|Hlt]; [right; assumption|].
      exfalso.
      apply (Hj (((j - ((y + dst_y) * dst_stride + 4 * dst_x)) / 4)%nat,
                 ((j - ((y + dst_y) * dst_stride + 4 * dst_x)) mod 4)%nat));
        cbn [fst snd]; lia.
  - exact I.
  - reflexivity.
  - exists dst'. split; [exact Hl|]. split; [exact Hlen|].
    intros y x c Hy' Hx' Hc.
    specialize (Hcells y (x, c)). cbn [fst snd] in Hcells.
    rewrite <- Hcells; [f_equal; lia | lia | lia].
Qed.

Lemma rd_uniform (src : list Z) (C : Z) (i : nat) :
  (forall i, (i < length src)%nat -> src !! i = Some C) ->
  (i < length src)%nat -> rd src i = C.
Proof. intros H Hi. unfold rd. rewrite H by exact Hi. reflexivity. Qed.

Lemma downscale_val_uniform (src : list Z) (C : Z) (y x c : nat) :
  length src = tile_cells ->
  (forall i, (i < length src)%nat -> src !! i = Some C) ->
  0 <= C <= fix15_one ->
  (y < TILE_SIZE / 2)%nat -> (x < TILE_SIZE / 2)%nat -> (c < 4)%nat ->
  downscale_val src (2 * y * tile_stride + 8 * x) c = C - C mod 4.
Proof.
  intros Hlen Hsrc HC Hy Hx Hc. tile_facts. unfold downscale_val, fix15_one in *.
  rewrite !(rd_uniform src C) by (assumption || lia).
  rewrite u16_small; lia.
Qed.

(** C2, amended.  A source tile all of whose cells hold the value [C] of
    the range [0 .. 1<<15] gives a destination quadrant all of whose
    cells hold [C - C mod 4], that is [C] rounded down to a multiple of
    four: each of the four summands is divided by 4 before they are
    added.  The quadrant holds [C] itself exactly when [C] is a multiple
    of four. *)
Theorem downscale_uniform (src dst : list Z) (dst_stride dst_x dst_y : nat) (C : Z) :
  0 <= C <= fix15_one ->
  length src = tile_cells ->
  (forall i, (i < length src)%nat -> src !! i = Some C) ->
  (4 * dst_x + 4 * (TILE_SIZE / 2) <= dst_stride)%nat ->
  ((dst_y + TILE_SIZE / 2) * dst_stride <= length dst)%nat ->
  exists dst', tile_downscale_rgba16 src dst dst_stride dst_x dst_y = Some dst' /\
    forall y x c, (y < TILE_SIZE / 2)%nat -> (x < TILE_SIZE / 2)%nat -> (c < 4)%nat ->
      dst' !! ((y + dst_y) * dst_stride + 4 * dst_x + 4 * x + c)%nat
        = Some (C - C mod 4).
Proof.
  intros HC Hlen Hsrc Hx Hy.
  destruct (tile_downscale_rgba16_cells src dst dst_stride dst_x dst_y Hlen Hx Hy)
    as (dst' & Hrun & _ & Hcells).
  exists dst'. split; [exact Hrun|].
  intros y x c Hy' Hx' Hc. rewrite Hcells by assumption.
  f_equal. apply downscale_val_uniform; assumption.
Qed.

Lemma downscale_uniform_witness :
  exists dst',
    tile_downscale_rgba16 (replicate tile_cells 32767) (replicate tile_cells 0)
      tile_stride 32 32 = Some dst' /\
    forall y x c, (y < TILE_SIZE / 2)%nat -> (x < TILE_SIZE / 2)%nat -> (c < 4)%nat ->
      dst' !! ((y + 32) * tile_stride + 4 * 32 + 4 * x + c)%nat = Some 32764.
Proof.
  apply (downscale_uniform (replicate tile_cells 32767) (replicate tile_cells 0)
           tile_stride 32 32 32767).
  - unfold fix15_one. lia.
  - apply length_replicate.
  - intros i Hi. rewrite length_replicate in Hi. apply lookup_replicate_2, Hi.
  - tile_lia.
  - rewrite length_replicate. tile_lia.
Defined.

Lemma downscale_rounds_down :
  (forall i, (i < length (replicate tile_cells 1))%nat ->
     replicate tile_cells 1 !! i = Some 1) /\
  exists dst',
    tile_downscale_rgba16 (replicate tile_cells 1) (replicate tile_cells 1)
      tile_stride 0 0 = Some dst' /\
    dst' !! 0%nat = Some 0.
Proof.
  assert (Hsrc : forall i, (i < length (replicate tile_cells 1))%nat ->
                   replicate tile_cells 1 !! i = Some 1).
  { intros i Hi. rewrite length_replicate in Hi. apply lookup_replicate_2, Hi. }
  split; [exact Hsrc|].
  assert (Hval : downscale_val (replicate tile_cells 1) (2 * 0 * tile_stride + 8 * 0) 0
                 = 1 - 1 mod 4).
  { apply downscale_val_uniform;
      [apply length_replicate | exact Hsrc | unfold fix15_one; lia
      | tile_lia | tile_lia | lia]. }
  destruct (tile_downscale_rgba16_cells (replicate tile_cells 1)
              (replicate tile_cells 1) tile_stride 0 0)
    as (dst' & Hrun & _ & Hcells).
  - apply length_replicate.
  - tile_lia.
  - rewrite length_replicate. tile_lia.
  - exists dst'. split; [exact Hrun|].
    specialize (Hcells 0%nat 0%nat 0%nat). rewrite Hval in Hcells.
    apply Hcells; tile_lia.
Qed.

(** ** Flatten and unflatten *)

Lemma rgba2flat_pixel_Some (bg : list Z) (i p : nat) (dst : list Z) :
  (p + 4 <= length dst)%nat -> (p + 4 <= length bg)%nat ->
  rgba2flat_pixel bg i (p, p, dst) =
    Some ((p + 4)%nat, (p + 4)%nat,
          <[(p + 2)%nat := flat_channel (rd dst (p + 2)) (rd dst (p + 3)) (rd bg (p + 2))]>
            (<[(p + 1)%nat := flat_channel (rd dst (p + 1)) (rd dst (p + 3)) (rd bg (p + 1))]>
               (<[(p + 0)%nat := flat_channel (rd dst (p + 0)) (rd dst (p + 3)) (rd bg (p + 0))]> dst))).
Proof.
  intros Hd Hb. unfold rgba2flat_pixel, rgba2flat_channel. run_step. reflexivity.
Qed.

Lemma tile_rgba2flat_cells (dst bg : list Z) :
  length dst = tile_cells -> length bg = tile_cells ->
  exists dst', tile_rgba2flat dst bg = Some dst' /\
    length dst' = length dst /\
    forall k c, (k < TILE_SIZE * TILE_SIZE)%nat -> (c < 4)%nat ->
      dst' !! (4 * k + c)%nat = Some (rgba2flat_val dst bg k c).
Proof.
  intros Hd Hb. tile_facts. unfold tile_rgba2flat.
  destruct (for_loop_cells
              (fun s : nat * nat * list Z => s.2)
              (fun i s => s.1.1 = (4 * i)%nat /\ s.1.2 = (4 * i)%nat)
              (fun _ c => (c < 4)%nat)
              (fun i c => (4 * i + c)%nat)
              (fun i c => rgba2flat_val dst bg i c)
              dst (rgba2flat_pixel bg) 0%nat (TILE_SIZE * TILE_SIZE)%nat)
    with (s := (0%nat, 0%nat, dst)) as (s' & Hl & _ & Hlen & Hcells & _).
  - intros; cbv beta in *; lia.
  - intros i [[dp bp] d] Hi [Hdp Hbp] Hlen Horig. cbn [fst snd] in *. subst dp bp.
    rewrite rgba2flat_pixel_Some by lia.
    eexists. split; [reflexivity|]. cbn [fst snd].
    split; [lia|]. split; [rewrite !length_insert; exact Hlen|].
    assert (Hrd : forall c, (c < 4)%nat -> rd d (4 * i + c) = rd dst (4 * i + c)).
    { intros c Hc. unfold rd. rewrite Horig by exact Hc. reflexivity. }
    split.
    + intros c Hc. unfold rgba2flat_val.
      destruct c as [|[|[|[|c]]]]; try lia; cbn [Nat.ltb Nat.leb];
        lookup_inserts; rewrite <- ?Hrd by lia; try reflexivity.
      apply lookup_rd. lia.
    + intros j Hj.
      pose proof (Hj 0%nat ltac:(lia)). pose proof (Hj 1%nat ltac:(lia)).
      pose proof (Hj 2%nat ltac:(lia)).
      lookup_inserts. reflexivity.
  - cbn [fst snd]. lia.
  - reflexivity.
  - rewrite Hl. destruct s' as [[dp bp] d]. cbn [fst snd mbind option_bind] in *.
    exists d. split; [reflexivity|]. split; [exact Hlen|].
    intros k c Hk Hc. apply Hcells; [lia | exact Hc].
Qed.

Lemma flat2rgba_alpha_Some (dst bg : list Z) (p i : nat) (fa : Z) :
  (i < 3)%nat -> (p + 4 <= length dst)%nat -> (p + 4 <= length bg)%nat ->
  is_fix15 (rd dst (p + i)) -> is_fix15 (rd bg (p + i)) ->
  flat2rgba_alpha dst bg p p i fa =
    Some (alpha_step (rd dst (p + i)) (rd bg (p + i)) (rd dst (p + 3)) fa).
Proof.
  intros Hi Hd Hb Hdv Hbv. unfold flat2rgba_alpha, alpha_step, sdiv.
  unfold is_fix15, fix15_one in *.
  rewrite !lookup_rd by lia. cbn [mbind option_bind].
  rewrite (i32_small (rd dst (p + i) - rd bg (p + i))) by lia.
  destruct (Z.gtb_spec (rd dst (p + i) - rd bg (p + i)) 0).
  - destruct (Z.eqb_spec (2 ^ 15 - rd bg (p + i)) 0); [lia|]. reflexivity.
  - destruct (Z.ltb_spec (rd dst (p + i) - rd bg (p + i)) 0); [|reflexivity].
    destruct (Z.eqb_spec (rd bg (p + i)) 0); [lia|]. reflexivity.
Qed.

Lemma flat2rgba_pixel_Some (bg : list Z) (i p : nat) (dst : list Z) :
  (p + 4 <= length dst)%nat -> (p + 4 <= length bg)%nat ->
  (forall c, (c < 3)%nat -> is_fix15 (rd dst (p + c)) /\ is_fix15 (rd bg (p + c))) ->
  let fa := final_alpha_val dst bg p in
  flat2rgba_pixel bg i (p, p, dst) =
    Some ((p + 4)%nat, (p + 4)%nat,
          <[(p + 2)%nat := color_val (rd dst (p + 2)) (rd bg (p + 2)) fa]>
            (<[(p + 1)%nat := color_val (rd dst (p + 1)) (rd bg (p + 1)) fa]>
               (<[(p + 0)%nat := color_val (rd dst (p + 0)) (rd bg (p + 0)) fa]>
                  (<[(p + 3)%nat := u16 fa]> dst)))).
Proof.
  intros Hd Hb Hdom fa. unfold flat2rgba_pixel. cbn [for_loop].
  rewrite flat2rgba_alpha_Some by (try apply Hdom; lia). cbn [mbind option_bind].
  rewrite flat2rgba_alpha_Some by (try apply Hdom; lia). cbn [mbind option_bind].
  rewrite flat2rgba_alpha_Some by (try apply Hdom; lia). cbn [mbind option_bind].
  fold (final_alpha_val dst bg p). fold fa.
  rewrite store16_Some by lia. cbn [mbind option_bind].
  unfold color_val. destruct (fa >? 0).
  - unfold flat2rgba_color. run_step. reflexivity.
  - rewrite <- (Nat.add_0_r p) at 1. run_step. rewrite Nat.add_0_r. reflexivity.
Qed.

Lemma tile_flat2rgba_cells (dst bg : list Z) :
  length dst = tile_cells -> length bg = tile_cells ->
  Forall is_fix15 dst -> Forall is_fix15 bg ->
  exists dst', tile_flat2rgba dst bg = Some dst' /\
    length dst' = length dst /\
    forall k c, (k < TILE_SIZE * TILE_SIZE)%nat -> (c < 4)%nat ->
      dst' !! (4 * k + c)%nat = Some (flat2rgba_val dst bg k c).
Proof.
  intros Hd Hb Hfd Hfb. tile_facts. unfold tile_flat2rgba.
  destruct (for_loop_cells
              (fun s : nat * nat * list Z => s.2)
              (fun i s => s.1.1 = (4 * i)%nat /\ s.1.2 = (4 * i)%nat)
              (fun _ c => (c < 4)%nat)
              (fun i c => (4 * i + c)%nat)
              (fun i c => flat2rgba_val dst bg i c)
              dst (flat2rgba_pixel bg) 0%nat (TILE_SIZE * TILE_SIZE)%nat)
    with (s := (0%nat, 0%nat, dst)) as (s' & Hl & _ & Hlen & Hcells & _).
  - intros; cbv beta in *; lia.
  - intros i [[dp bp] d] Hi [Hdp Hbp] Hlen Horig. cbn [fst snd] in *. subst dp bp.
    assert (Hrd : forall c, (c < 4)%nat -> rd d (4 * i + c) = rd dst (4 * i + c)).
    { intros c Hc. unfold rd. rewrite Horig by exact Hc. reflexivity. }
    rewrite flat2rgba_pixel_Some; [| lia | lia |].
    2:{ intros c Hc. rewrite Hrd by lia. split; apply Forall_rd; (assumption || lia). }
    eexists. split; [reflexivity|]. cbn [fst snd].
    split; [lia|]. split; [rewrite !length_insert; exact Hlen|].
    assert (Hfa : final_alpha_val d bg (4 * i) = final_alpha_val dst bg (4 * i)).
    { unfold final_alpha_val. rewrite !Hrd by lia. reflexivity. }
    split.
    + intros c Hc. unfold flat2rgba_val. rewrite Hfa.
      destruct c as [|[|[|[|c]]]]; try lia; cbn [Nat.ltb Nat.leb];
        lookup_inserts; rewrite ?Hrd by lia; reflexivity.
    + intros j Hj.
      pose proof (Hj 0%nat ltac:(lia)). pose proof (Hj 1%nat ltac:(lia)).
      pose proof (Hj 2%nat ltac:(lia)). pose proof (Hj 3%nat ltac:(lia)).
      lookup_inserts. reflexivity.
  - cbn [fst snd]. lia.
  - reflexivity.
  - rewrite Hl. destruct s' as [[dp bp] d]. cbn [fst snd mbind option_bind] in *.
    exists d. split; [reflexivity|]. split; [exact Hlen|].
    intros k c Hk Hc. apply Hcells; [lia | exact Hc].
Qed.

Lemma minimal_alpha_range (d b : Z) :
  is_fix15 d -> is_fix15 b -> is_fix15 (minimal_alpha d b).
Proof.
  unfold is_fix15, fix15_one, minimal_alpha. intros Hd Hb.
  destruct (Z.gtb_spec d b).
  - split; [apply Z.div_pos; lia|].
    apply Z.div_le_upper_bound; nia.
  - destruct (Z.ltb_spec d b); [|lia].
    split; [apply Z.div_pos; lia|].
    apply Z.div_le_upper_bound; nia.
Qed.

Lemma alpha_step_max (d b a fa : Z) :
  is_fix15 d -> is_fix15 b -> is_fix15 a -> is_fix15 fa ->
  alpha_step d b a fa = Z.max (Z.max fa (minimal_alpha d b)) a.
Proof.
  intros Hd Hb Ha Hfa. pose proof (minimal_alpha_range d b Hd Hb) as Hm.
  unfold is_fix15, fix15_one in *.
  unfold alpha_step. rewrite (i32_small (d - b)) by lia. rewrite !MAX_max.
  assert (Hgt : (d - b >? 0) = (d >? b)).
  { destruct (Z.gtb_spec (d - b) 0), (Z.gtb_spec d b); (reflexivity || lia). }
  assert (Hlt : (d - b <? 0) = (d <? b)).
  { destruct (Z.ltb_spec (d - b) 0), (Z.ltb_spec d b); (reflexivity || lia). }
  rewrite Hgt, Hlt. unfold minimal_alpha in *.
  destruct (Z.gtb_spec d b).
  - rewrite Z.quot_div_nonneg by lia.
    rewrite (u16_small (Z.max fa _)) by lia. apply u16_small. lia.
  - destruct (Z.ltb_spec d b).
    + replace (- (d - b)) with (b - d) by lia.
      rewrite Z.quot_div_nonneg by lia.
      rewrite (u16_small (Z.max fa _)) by lia. apply u16_small. lia.
    + rewrite u16_small by lia. lia.
Qed.

Lemma final_alpha_max (dst bg : list Z) (p : nat) :
  (forall c, (c < 4)%nat -> is_fix15 (rd dst (p + c)) /\ is_fix15 (rd bg (p + c))) ->
  final_alpha_val dst bg p =
    Z.max (Z.max (Z.max (minimal_alpha (rd dst (p + 0)) (rd bg (p + 0)))
                        (minimal_alpha (rd dst (p + 1)) (rd bg (p + 1))))
                 (minimal_alpha (rd dst (p + 2)) (rd bg (p + 2))))
          (rd dst (p + 3)).
Proof.
  intros H.
  destruct (H 0%nat ltac:(lia)) as [Hd0 Hb0]. destruct (H 1%nat ltac:(lia)) as [Hd1 Hb1].
  destruct (H 2%nat ltac:(lia)) as [Hd2 Hb2]. destruct (H 3%nat ltac:(lia)) as [Hd3 _].
  pose proof (minimal_alpha_range _ _ Hd0 Hb0). pose proof (minimal_alpha_range _ _ Hd1 Hb1).
  pose proof (minimal_alpha_range _ _ Hd2 Hb2).
  unfold final_alpha_val.
  rewrite (alpha_step_max _ _ _ 0); try assumption; [|unfold is_fix15, fix15_one; lia].
  rewrite (alpha_step_max (rd dst (p + 1))); try assumption;
    [|unfold is_fix15, fix15_one in *; lia].
  rewrite (alpha_step_max (rd dst (p + 2))); try assumption;
    [|unfold is_fix15, fix15_one in *; lia].
  unfold is_fix15, fix15_one in *. lia.
Qed.

(** C4.  For a flat tile and a background with all cells in
    [0 .. 1<<15], unflatten sets the alpha of every pixel to the maximum
    of the three per-channel minimal alphas and the alpha the pixel had;
    in particular the alpha does not decrease. *)
Theorem flat2rgba_alpha_is_max (dst bg : list Z) :
  length dst = tile_cells -> length bg = tile_cells ->
  Forall is_fix15 dst -> Forall is_fix15 bg ->
  exists dst', tile_flat2rgba dst bg = Some dst' /\
    forall k, (k < TILE_SIZE * TILE_SIZE)%nat ->
      dst' !! (4 * k + 3)%nat =
        Some (Z.max
                (Z.max
                   (Z.max (minimal_alpha (rd dst (4 * k + 0)) (rd bg (4 * k + 0)))
                          (minimal_alpha (rd dst (4 * k + 1)) (rd bg (4 * k + 1))))
                   (minimal_alpha (rd dst (4 * k + 2)) (rd bg (4 * k + 2))))
                (rd dst (4 * k + 3))) /\
      rd dst (4 * k + 3) <= rd dst' (4 * k + 3).
Proof.
  intros Hd Hb Hfd Hfb.
  destruct (tile_flat2rgba_cells dst bg Hd Hb Hfd Hfb) as (dst' & Hrun & _ & Hcells).
  exists dst'. split; [exact Hrun|]. intros k Hk.
  assert (Hdom : forall c, (c < 4)%nat ->
            is_fix15 (rd dst (4 * k + c)) /\ is_fix15 (rd bg (4 * k + c))).
  { intros c Hc. split; apply Forall_rd; try assumption;
      pose proof TILE_SIZE_eq; pose proof tile_cells_eq; lia. }
  assert (Hcell := Hcells k 3%nat Hk ltac:(lia)).
  unfold flat2rgba_val in Hcell. cbn [Nat.ltb Nat.leb] in Hcell.
  rewrite (final_alpha_max dst bg (4 * k) Hdom) in Hcell.
  set (M := Z.max _ _) in *.
  assert (HM : rd dst (4 * k + 3) <= M <= 2 ^ 15).
  { destruct (Hdom 0%nat ltac:(lia)) as [Hd0 Hb0].
    destruct (Hdom 1%nat ltac:(lia)) as [Hd1 Hb1].
    destruct (Hdom 2%nat ltac:(lia)) as [Hd2 Hb2].
    destruct (Hdom 3%nat ltac:(lia)) as [Hd3 _].
    pose proof (minimal_alpha_range _ _ Hd0 Hb0).
    pose proof (minimal_alpha_range _ _ Hd1 Hb1).
    pose proof (minimal_alpha_range _ _ Hd2 Hb2).
    unfold is_fix15, fix15_one in *. subst M. lia. }
  assert (0 <= rd dst (4 * k + 3)).
  { destruct (Hdom 3%nat ltac:(lia)) as [[? _] _]. assumption. }
  rewrite u16_small in Hcell by lia.
  split; [exact Hcell|]. unfold rd at 2. rewrite Hcell.
  cbn [default from_option]. unfold id. lia.
Qed.

Lemma flat2rgba_alpha_is_max_witness :
  exists dst', tile_flat2rgba (pixel_tile 300 200 100 50) (pixel_tile 100 200 400 0)
                 = Some dst' /\
    forall k, (k < TILE_SIZE * TILE_SIZE)%nat ->
      dst' !! (4 * k + 3)%nat =
        Some (Z.max
                (Z.max
                   (Z.max (minimal_alpha (rd (pixel_tile 300 200 100 50) (4 * k + 0))
                                         (rd (pixel_tile 100 200 400 0) (4 * k + 0)))
                          (minimal_alpha (rd (pixel_tile 300 200 100 50) (4 * k + 1))
                                         (rd (pixel_tile 100 200 400 0) (4 * k + 1))))
                   (minimal_alpha (rd (pixel_tile 300 200 100 50) (4 * k + 2))
                                  (rd (pixel_tile 100 200 400 0) (4 * k + 2))))
                (rd (pixel_tile 300 200 100 50) (4 * k + 3))) /\
      rd (pixel_tile 300 200 100 50) (4 * k + 3) <= rd dst' (4 * k + 3).
Proof.
  apply (flat2rgba_alpha_is_max (pixel_tile 300 200 100 50) (pixel_tile 100 200 400 0)).
  - apply length_pixel_tile.
  - apply length_pixel_tile.
  - apply Forall_pixel_tile; unfold is_fix15, fix15_one; lia.
  - apply Forall_pixel_tile; unfold is_fix15, fix15_one; lia.
Defined.

Lemma flat_channel_exact (r a b : Z) :
  0 <= r <= a -> a <= 2 ^ 15 -> 0 <= b <= 2 ^ 15 ->
  flat_channel r a b = r + (2 ^ 15 - a) * b / 2 ^ 15 /\
  0 <= flat_channel r a b <= 2 ^ 15.
Proof.
  intros Hr Ha Hb. unfold flat_channel.
  assert (0 <= (2 ^ 15 - a) * b / 2 ^ 15 <= 2 ^ 15 - a).
  { split; [apply Z.div_pos; nia|]. apply Z.div_le_upper_bound; nia. }
  rewrite (u32_small (2 ^ 15 - a)) by lia.
  rewrite (u32_small ((2 ^ 15 - a) * b)) by nia.
  rewrite u32_small by lia. rewrite u16_small by lia. lia.
Qed.


Lemma premultiplied_rd (dst : list Z) (k c : nat) :
  premultiplied dst -> (4 * k + 3 < length dst)%nat -> (c < 3)%nat ->
  0 <= rd dst (4 * k + c) <= rd dst (4 * k + 3) /\ rd dst (4 * k + 3) <= 2 ^ 15.
Proof.
  intros Hp Hk Hc. destruct (Hp k Hk) as (H0 & H1 & H2 & H3).
  unfold fix15_one in *.
  destruct c as [|[|[|c]]]; try lia; rewrite ?Nat.add_0_r; lia.
Qed.






(** ** Perceptual stroke-change detector *)

Lemma strokemap_channel_Some (a b : list Z) (p i : nat) (cc : Z) :
  (i < 3)%nat -> (p + 4 <= length a)%nat -> (p + 4 <= length b)%nat ->
  strokemap_channel a b p p i cc = Some (strokemap_channel_val a b p i cc).
Proof.
  intros Hi Ha Hb. unfold strokemap_channel. rewrite !lookup_rd by lia. reflexivity.
Qed.

Lemma strokemap_pixel_Some (a b : list Z) (x p q : nat) (res : list Z) :
  (p + 4 <= length a)%nat -> (p + 4 <= length b)%nat -> (q < length res)%nat ->
  p = (4 * q)%nat ->
  strokemap_pixel a b x (p, p, q, res) =
    Some ((p + 4)%nat, (p + 4)%nat, (q + 1)%nat, <[q := strokemap_val a b q]> res).
Proof.
  intros Ha Hb Hr Hp. unfold strokemap_pixel. cbn [for_loop].
  repeat (rewrite strokemap_channel_Some by lia; cbn [mbind option_bind]).
  rewrite !lookup_rd by lia. cbn [mbind option_bind].
  unfold strokemap_val. rewrite <- Hp.
  match goal with |- context [if ?c then store8 _ _ _ else _] => destruct c end;
    rewrite store8_Some by lia; reflexivity.
Qed.

Lemma strokemap_row_cells (a b : list Z) (y : nat) (res : list Z) :
  (4 * (TILE_SIZE * y) + 4 * TILE_SIZE <= length a)%nat ->
  (4 * (TILE_SIZE * y) + 4 * TILE_SIZE <= length b)%nat ->
  (TILE_SIZE * y + TILE_SIZE <= length res)%nat ->
  exists res',
    strokemap_row a b y
      ((4 * (TILE_SIZE * y))%nat, (4 * (TILE_SIZE * y))%nat, (TILE_SIZE * y)%nat, res) =
      Some ((4 * (TILE_SIZE * y) + 4 * TILE_SIZE)%nat,
            (4 * (TILE_SIZE * y) + 4 * TILE_SIZE)%nat,
            (TILE_SIZE * y + TILE_SIZE)%nat, res') /\
    length res' = length res /\
    (forall x, (x < TILE_SIZE)%nat ->
       res' !! (TILE_SIZE * y + x)%nat = Some (strokemap_val a b (TILE_SIZE * y + x))) /\
    (forall j, (j < TILE_SIZE * y \/ TILE_SIZE * y + TILE_SIZE <= j)%nat ->
       res' !! j = res !! j).
Proof.
  intros Ha Hb Hr. tile_facts. unfold strokemap_row.
  generalize dependent (TILE_SIZE * y)%nat. intros q Ha Hb Hr.
  destruct (for_loop_cells
              (fun s : nat * nat * nat * list Z => s.2)
              (fun x s => s.1.1.1 = (4 * (q + x))%nat /\ s.1.1.2 = (4 * (q + x))%nat
                          /\ s.1.2 = (q + x)%nat)
              (fun _ (_ : unit) => True)
              (fun x _ => (q + x)%nat)
              (fun x _ => strokemap_val a b (q + x))
              res (strokemap_pixel a b) 0%nat TILE_SIZE)
    with (s := ((4 * q)%nat, (4 * q)%nat, q, res))
    as (s' & Hl & Hp & Hlen & Hcells & Hout).
  - intros; lia.
  - intros x [[[ap bp] rp] r] Hx (Hap & Hbp & Hrp) Hlen _. cbn [fst snd] in *.
    subst ap bp rp.
    rewrite strokemap_pixel_Some by lia.
    eexists. split; [reflexivity|]. cbn [fst snd].
    split; [lia|]. split; [rewrite !length_insert; exact Hlen|]. split.
    + intros _ _. lookup_inserts. reflexivity.
    + intros j Hj. pose proof (Hj tt I). lookup_inserts. reflexivity.
  - cbn [fst snd]. lia.
  - reflexivity.
  - destruct s' as [[[ap bp] rp] r]. cbn [fst snd] in *.
    destruct Hp as (-> & -> & ->).
    exists r. split.
    { rewrite Hl. repeat f_equal; lia. }
    split; [exact Hlen|]. split.
    + intros x Hx. apply (Hcells x tt); [lia | exact I].
    + intros j Hj. apply Hout. intros x _ Hx _. lia.
Qed.

Lemma tile_perceptual_change_strokemap_cells (a b res : list Z) :
  length a = tile_cells -> length b = tile_cells ->
  length res = (TILE_SIZE * TILE_SIZE)%nat ->
  exists res', tile_perceptual_change_strokemap a b res = Some res' /\
    length res' = length res /\
    forall k, (k < TILE_SIZE * TILE_SIZE)%nat -> res' !! k = Some (strokemap_val a b k).
Proof.
  intros Ha Hb Hr. tile_facts. unfold tile_perceptual_change_strokemap.
  destruct (for_loop_cells
              (fun s : nat * nat * nat * list Z => s.2)
              (fun y s => s.1.1.1 = (4 * (TILE_SIZE * y))%nat
                          /\ s.1.1.2 = (4 * (TILE_SIZE * y))%nat
                          /\ s.1.2 = (TILE_SIZE * y)%nat)
              (fun _ x => (x < TILE_SIZE)%nat)
              (fun y x => (TILE_SIZE * y + x)%nat)
              (fun y x => strokemap_val a b (TILE_SIZE * y + x))
              res (strokemap_row a b) 0%nat TILE_SIZE)
    with (s := (0%nat, 0%nat, 0%nat, res))
    as (s' & Hl & _ & Hlen & Hcells & _).
  - intros; cbv beta in *; lia.
  - intros y [[[ap bp] rp] r] Hy (Hap & Hbp & Hrp) Hlen _. cbn [fst snd] in *.
    subst ap bp rp.
    destruct (strokemap_row_cells a b y r) as (r' & Hrow & Hlen' & Hc & Hf);
      [lia | lia | lia |].
    eexists. split; [exact Hrow|]. cbn [fst snd].
    split; [lia|]. split; [congruence|]. split.
    + intros x Hx. apply Hc, Hx.
    + intros j Hj. apply Hf.
      destruct (decide (j < TILE_SIZE * y)%nat); [left; assumption|].
      destruct (decide (TILE_SIZE * y + TILE_SIZE <= j)%nat); [right; assumption|].
      exfalso. apply (Hj (j - TILE_SIZE * y)%nat); lia.
  - cbn [fst snd]. lia.
  - reflexivity.
  - rewrite Hl. destruct s' as [[[ap bp] rp] r]. cbn [fst snd mbind option_bind] in *.
    exists r. split; [reflexivity|]. split; [exact Hlen|].
    intros k Hk.
    specialize (Hcells (k / 64)%nat (k mod 64)%nat).
    replace (TILE_SIZE * (k / 64) + k mod 64)%nat with k in Hcells by lia.
    apply Hcells; lia.
Qed.

Lemma strokemap_val_same (a : list Z) (k : nat) :
  0 <= rd a (4 * k + 3) -> strokemap_val a a k = 0.
Proof.
  intros Ha. unfold strokemap_val, strokemap_channel_val.
  rewrite !Z.sub_diag. cbn [Z.abs]. rewrite !Z.add_0_r.
  assert (Hi : i32 0 = 0) by reflexivity. rewrite !Hi.
  rewrite MAX_max, Z.max_id.
  assert (0 <= Z.quot (rd a (4 * k + 3)) 16) by (apply Z.quot_pos; lia).
  assert (0 <= Z.quot (rd a (4 * k + 3)) 2) by (apply Z.quot_pos; lia).
  destruct (Z.gtb_spec 0 (Z.quot (2 ^ 15) 4)) as [Hc|_]; [cbv in Hc; lia|].
  destruct (Z.gtb_spec 0 (Z.quot (2 ^ 15) 64)) as [Hc|_]; [cbv in Hc; lia|].
  destruct (Z.gtb_spec 0 (Z.quot (rd a (4 * k + 3)) 16)); [lia|].
  destruct (0 >? Z.quot (rd a (4 * k + 3)) 2); reflexivity.
Qed.

(** C8.  For two identical snapshots the stroke map is zero at every
    pixel. *)
Theorem strokemap_identical (a res : list Z) :
  length a = tile_cells -> Forall is_u16 a ->
  length res = (TILE_SIZE * TILE_SIZE)%nat ->
  tile_perceptual_change_strokemap a a res = Some (replicate (TILE_SIZE * TILE_SIZE) 0).
Proof.
  intros Ha Hu Hr.
  destruct (tile_perceptual_change_strokemap_cells a a res Ha Ha Hr)
    as (res' & Hrun & Hlen & Hcells).
  rewrite Hrun. f_equal. apply list_eq. intros k.
  destruct (decide (k < TILE_SIZE * TILE_SIZE)%nat) as [Hk|Hk].
  - rewrite Hcells, lookup_replicate_2 by assumption. f_equal.
    apply strokemap_val_same.
    assert (Hv : is_u16 (rd a (4 * k + 3))).
    { apply Forall_rd; [exact Hu|]. pose proof TILE_SIZE_eq. pose proof tile_cells_eq. lia. }
    unfold is_u16 in Hv. lia.
  - rewrite !lookup_ge_None_2; [reflexivity | rewrite length_replicate; lia | lia].
Qed.

Lemma strokemap_identical_witness :
  tile_perceptual_change_strokemap (pixel_tile 5 6 7 1000) (pixel_tile 5 6 7 1000)
    (replicate (TILE_SIZE * TILE_SIZE) 9)
  = Some (replicate (TILE_SIZE * TILE_SIZE) 0).
Proof.
  apply (strokemap_identical (pixel_tile 5 6 7 1000)
           (replicate (TILE_SIZE * TILE_SIZE) 9)).
  - apply length_pixel_tile.
  - apply Forall_pixel_tile; unfold is_u16; lia.
  - apply length_replicate.
Defined.

(** ** Bit-depth converters *)

Lemma convert_rgba8_to_rgba16_pixel_Some (src : list Z) (x p : nat) (dst : list Z) :
  (p + 4 <= length src)%nat -> (p + 4 <= length dst)%nat ->
  convert_rgba8_to_rgba16_pixel src x (p, p, dst) =
    let a := to_fix15 (rd src (p + 3)) in
    Some ((p + 4)%nat, (p + 4)%nat,
          <[(p + 3)%nat := u16 a]>
            (<[(p + 2)%nat := u16 (premultiply (to_fix15 (rd src (p + 2))) a)]>
               (<[(p + 1)%nat := u16 (premultiply (to_fix15 (rd src (p + 1))) a)]>
                  (<[p := u16 (premultiply (to_fix15 (rd src p)) a)]> dst)))).
Proof.
  intros Hs Hd. unfold convert_rgba8_to_rgba16_pixel. run_step. reflexivity.
Qed.

Lemma convert_rgba8_to_rgba16_row_cells (src : list Z) (y : nat) (dst : list Z) :
  (y * tile_stride + 4 * TILE_SIZE <= length src)%nat ->
  (y * tile_stride + 4 * TILE_SIZE <= length dst)%nat ->
  exists dst', convert_rgba8_to_rgba16_row src y dst = Some dst' /\
    length dst' = length dst /\
    (forall x c, (x < TILE_SIZE)%nat -> (c < 4)%nat ->
       dst' !! (4 * (TILE_SIZE * y + x) + c)%nat =
         Some (rgba16_val src (TILE_SIZE * y + x) c)) /\
    (forall j, (j < 4 * (TILE_SIZE * y) \/ 4 * (TILE_SIZE * y) + 4 * TILE_SIZE <= j)%nat ->
       dst' !! j = dst !! j).
Proof.
  intros Hs Hd. tile_facts. unfold convert_rgba8_to_rgba16_row.
  replace (y * tile_stride)%nat with (4 * (TILE_SIZE * y))%nat in * by lia.
  generalize dependent (TILE_SIZE * y)%nat. intros q Hs Hd.
  destruct (for_loop_cells
              (fun s : nat * nat * list Z => s.2)
              (fun x s => s.1.1 = (4 * (q + x))%nat /\ s.1.2 = (4 * (q + x))%nat)
              (fun _ c => (c < 4)%nat)
              (fun x c => (4 * (q + x) + c)%nat)
              (fun x c => rgba16_val src (q + x) c)
              dst (convert_rgba8_to_rgba16_pixel src) 0%nat TILE_SIZE)
    with (s := ((4 * q)%nat, (4 * q)%nat, dst)) as (s' & Hl & _ & Hlen & Hcells & Hout).
  - intros; cbv beta in *; lia.
  - intros x [[sp dp] d] Hx [Hsp Hdp] Hlen _. cbn [fst snd] in *. subst sp dp.
    rewrite convert_rgba8_to_rgba16_pixel_Some by lia. cbv zeta.
    eexists. split; [reflexivity|]. cbn [fst snd].
    split; [lia|]. split; [rewrite !length_insert; exact Hlen|]. split.
    + intros c Hc. unfold rgba16_val.
      destruct c as [|[|[|[|c]]]]; try lia; cbn [Nat.ltb Nat.leb];
        rewrite ?Nat.add_0_r; lookup_inserts; reflexivity.
    + intros j Hj.
      pose proof (Hj 0%nat ltac:(lia)). pose proof (Hj 1%nat ltac:(lia)).
      pose proof (Hj 2%nat ltac:(lia)). pose proof (Hj 3%nat ltac:(lia)).
      lookup_inserts. reflexivity.
  - cbn [fst snd]. lia.
  - reflexivity.
  - rewrite Hl. destruct s' as [[sp dp] d]. cbn [fst snd mbind option_bind] in *.
    exists d. split; [reflexivity|]. split; [exact Hlen|]. split.
    + intros x c Hx Hc. apply Hcells; [lia | exact Hc].
    + intros j Hj. apply Hout. intros x c Hx Hc. lia.
Qed.

Lemma tile_convert_rgba8_to_rgba16_cells (src dst : list Z) :
  length src = tile_cells -> length dst = tile_cells ->
  exists dst', tile_convert_rgba8_to_rgba16 src dst = Some dst' /\
    length dst' = length dst /\
    forall k c, (k < TILE_SIZE * TILE_SIZE)%nat -> (c < 4)%nat ->
      dst' !! (4 * k + c)%nat = Some (rgba16_val src k c).
Proof.
  intros Hs Hd. tile_facts. unfold tile_convert_rgba8_to_rgba16.
  destruct (for_loop_cells
              (fun s : list Z => s) (fun _ _ => True)
              (fun _ (t : nat * nat) => (t.1 < TILE_SIZE)%nat /\ (t.2 < 4)%nat)
              (fun y t => (4 * (TILE_SIZE * y + t.1) + t.2)%nat)
              (fun y t => rgba16_val src (TILE_SIZE * y + t.1) t.2)
              dst (convert_rgba8_to_rgba16_row src) 0%nat TILE_SIZE)
    with (s := dst) as (dst' & Hl & _ & Hlen & Hcells & _).
  - intros y y' [x c] [x' c'] _ _ [Hx1 Hc1] [Hx2 Hc2] Hne. cbn [fst snd] in *. lia.
  - intros y d Hy _ Hlen _.
    destruct (convert_rgba8_to_rgba16_row_cells src y d) as (d' & Hr & Hlen' & Hc & Hf);
      [lia | lia |].
    exists d'. split; [exact Hr|]. split; [exact I|]. split; [congruence|]. split.
    + intros [x c] [Hx1 Hc1]. cbn [fst snd] in *. apply Hc; assumption.
    + intros j Hj. apply Hf.
      destruct (decide (j < 4 * (TILE_SIZE * y))%nat); [left; assumption|].
      destruct (decide (4 * (TILE_SIZE * y) + 4 * TILE_SIZE <= j)%nat);
        [right; assumption|].
      exfalso.
      apply (Hj (((j - 4 * (TILE_SIZE * y)) / 4)%nat, ((j - 4 * (TILE_SIZE * y)) mod 4)%nat));
        cbn [fst snd]; lia.
  - exact I.
  - reflexivity.
  - exists dst'. split; [exact Hl|]. split; [exact Hlen|].
    intros k c Hk Hc.
    specialize (Hcells (k / 64)%nat ((k mod 64)%nat, c)). cbn [fst snd] in Hcells.
    replace (TILE_SIZE * (k / 64) + k mod 64)%nat with k in Hcells by lia.
    apply Hcells; lia.
Qed.

Lemma noise_value_in_band (r : Z) : in_noise_band (u16 (noise_value r)).
Proof.
  unfold in_noise_band, noise_value.
  pose proof (Z.mod_pos_bound r (2 ^ 15) ltac:(lia)) as Hr.
  change (Z.quot (2 ^ 15 * 8) 256) with 1024.
  rewrite Z.quot_div_nonneg by lia.
  assert (0 <= r mod 2 ^ 15 * 240 / 256 <= 30719).
  { split; [apply Z.div_pos; lia|]. apply Z.lt_succ_r, Z.div_lt_upper_bound; lia. }
  rewrite u16_small; lia.
Qed.

Lemma precalculate_dithering_noise_ok (rand : nat -> Z) (st : noise_state) :
  noise_state_ok st ->
  exists st', precalculate_dithering_noise_if_required rand st = Some st' /\
    have_noise st' = true /\
    length (dithering_noise st') = dithering_noise_size /\
    Forall in_noise_band (dithering_noise st').
Proof.
  intros [Hlen Hband]. unfold precalculate_dithering_noise_if_required.
  destruct (have_noise st) eqn:Hh.
  - exists st. auto.
  - destruct (for_loop_cells
                (fun s : list Z => s) (fun _ _ => True) (fun _ (_ : unit) => True)
                (fun i _ => i) (fun i _ => u16 (noise_value (rand i)))
                (dithering_noise st)
                (fun i tbl => store16 tbl i (noise_value (rand i)))
                0%nat dithering_noise_size)
      with (s := dithering_noise st) as (tbl & Hl & _ & Hlen' & Hcells & _).
    + intros; lia.
    + intros i tbl Hi _ Hlt _. rewrite store16_Some by lia.
      eexists. split; [reflexivity|]. split; [exact I|].
      split; [rewrite length_insert; exact Hlt|]. split.
      * intros _ _. lookup_inserts. reflexivity.
      * intros j Hj. pose proof (Hj tt I). lookup_inserts. reflexivity.
    + exact I.
    + reflexivity.
    + rewrite Hl. cbn [mbind option_bind]. eexists. split; [reflexivity|].
      cbn [have_noise dithering_noise]. split; [reflexivity|].
      split; [congruence|].
      apply Forall_lookup_2. intros i x Hx.
      pose proof (lookup_lt_Some _ _ _ Hx) as Hi.
      rewrite (Hcells i tt) in Hx by (try exact I; lia).
      injection Hx as <-. apply noise_value_in_band.
Qed.

Lemma convert_rgba16_to_rgba8_pixel_Some (noise src : list Z) (x p ni : nat)
  (dst : list Z) :
  (p + 4 <= length src)%nat -> (p + 4 <= length dst)%nat ->
  (ni + 2 <= length noise)%nat ->
  convert_rgba16_to_rgba8_pixel noise src x (p, p, ni, dst) =
    let a := rd src (p + 3) in
    let add_r := rd noise ni in
    Some ((p + 4)%nat, (p + 4)%nat, (ni + 2)%nat,
          <[(p + 3)%nat := u8 (dither8 a (rd noise (ni + 1)))]>
            (<[(p + 2)%nat := u8 (dither8 (unpremultiply_val (rd src (p + 2)) a) add_r)]>
               (<[(p + 1)%nat := u8 (dither8 (unpremultiply_val (rd src (p + 1)) a) add_r)]>
                  (<[p := u8 (dither8 (unpremultiply_val (rd src p) a) add_r)]> dst)))).
Proof.
  intros Hs Hd Hn. unfold convert_rgba16_to_rgba8_pixel, unpremultiply_val.
  rewrite !lookup_rd by lia. cbn [mbind option_bind].
  unfold unpremultiply, udiv.
  destruct (rd src (p + 3) =? 0); cbn [negb mbind option_bind];
    repeat (rewrite store8_Some by (rewrite ?length_insert; lia);
            cbn [mbind option_bind]);
    reflexivity.
Qed.

Lemma convert_rgba16_to_rgba8_row_cells (noise src : list Z) (y : nat) (dst : list Z) :
  (y * tile_stride + 4 * TILE_SIZE <= length src)%nat ->
  (y * tile_stride + 4 * TILE_SIZE <= length dst)%nat ->
  (2 * (TILE_SIZE * y) + 2 * TILE_SIZE <= length noise)%nat ->
  exists dst',
    convert_rgba16_to_rgba8_row noise src y ((2 * (TILE_SIZE * y))%nat, dst) =
      Some ((2 * (TILE_SIZE * y) + 2 * TILE_SIZE)%nat, dst') /\
    length dst' = length dst /\
    (forall x c, (x < TILE_SIZE)%nat -> (c < 4)%nat ->
       dst' !! (4 * (TILE_SIZE * y + x) + c)%nat =
         Some (rgba8_val noise src (TILE_SIZE * y + x) c)) /\
    (forall j, (j < 4 * (TILE_SIZE * y) \/ 4 * (TILE_SIZE * y) + 4 * TILE_SIZE <= j)%nat ->
       dst' !! j = dst !! j).
Proof.
  intros Hs Hd Hn. tile_facts. unfold convert_rgba16_to_rgba8_row.
  replace (y * tile_stride)%nat with (4 * (TILE_SIZE * y))%nat in * by lia.
  generalize dependent (TILE_SIZE * y)%nat. intros q Hs Hd Hn.
  destruct (for_loop_cells
              (fun s : nat * nat * nat * list Z => s.2)
              (fun x s => s.1.1.1 = (4 * (q + x))%nat /\ s.1.1.2 = (4 * (q + x))%nat
                          /\ s.1.2 = (2 * (q + x))%nat)
              (fun _ c => (c < 4)%nat)
              (fun x c => (4 * (q + x) + c)%nat)
              (fun x c => rgba8_val noise src (q + x) c)
              dst (convert_rgba16_to_rgba8_pixel noise src) 0%nat TILE_SIZE)
    with (s := ((4 * q)%nat, (4 * q)%nat, (2 * q)%nat, dst))
    as (s' & Hl & Hp & Hlen & Hcells & Hout).
  - intros; cbv beta in *; lia.
  - intros x [[[sp dp] ni] d] Hx (Hsp & Hdp & Hni) Hlen _. cbn [fst snd] in *.
    subst sp dp ni.
    rewrite convert_rgba16_to_rgba8_pixel_Some by lia. cbv zeta.
    eexists. split; [reflexivity|]. cbn [fst snd].
    split; [lia|]. split; [rewrite !length_insert; exact Hlen|]. split.
    + intros c Hc. unfold rgba8_val.
      destruct c as [|[|[|[|c]]]]; try lia; cbn [Nat.ltb Nat.leb];
        rewrite ?Nat.add_0_r; lookup_inserts; reflexivity.
    + intros j Hj.
      pose proof (Hj 0%nat ltac:(lia)). pose proof (Hj 1%nat ltac:(lia)).
      pose proof (Hj 2%nat ltac:(lia)). pose proof (Hj 3%nat ltac:(lia)).
      lookup_inserts. reflexivity.
  - cbn [fst snd]. lia.
  - reflexivity.
  - rewrite Hl. destruct s' as [[[sp dp] ni] d]. cbn [fst snd mbind option_bind] in *.
    destruct Hp as (_ & _ & ->).
    exists d. split; [f_equal; f_equal; lia|]. split; [exact Hlen|]. split.
    + intros x c Hx Hc. apply Hcells; [lia | exact Hc].
    + intros j Hj. apply Hout. intros x c Hx Hc. lia.
Qed.

Lemma tile_convert_rgba16_to_rgba8_cells (rand : nat -> Z) (st : noise_state)
  (src dst : list Z) :
  noise_state_ok st -> length src = tile_cells -> length dst = tile_cells ->
  exists st' dst', tile_convert_rgba16_to_rgba8 rand st src dst = Some (st', dst') /\
    have_noise st' = true /\
    length (dithering_noise st') = dithering_noise_size /\
    Forall in_noise_band (dithering_noise st') /\
    (have_noise st = true -> st' = st) /\
    length dst' = length dst /\
    forall k c, (k < TILE_SIZE * TILE_SIZE)%nat -> (c < 4)%nat ->
      dst' !! (4 * k + c)%nat = Some (rgba8_val (dithering_noise st') src k c).
Proof.
  intros Hst Hs Hd. tile_facts. unfold tile_convert_rgba16_to_rgba8.
  destruct (precalculate_dithering_noise_ok rand st Hst)
    as (st' & Hpre & Hh & Hnl & Hnb).
  rewrite Hpre. cbn [mbind option_bind].
  assert (Hsame : have_noise st = true -> st' = st).
  { intros Ht. unfold precalculate_dithering_noise_if_required in Hpre.
    rewrite Ht in Hpre. congruence. }
  assert (Hnl' : length (dithering_noise st') = (64 * 64 * 2)%nat)
    by (rewrite Hnl; reflexivity).
  assert (Hres : have_noise st' = true /\
                 length (dithering_noise st') = dithering_noise_size) by auto.
  clear Hnl.
  destruct (for_loop_cells
              (fun s : nat * list Z => s.2)
              (fun y s => s.1 = (2 * (TILE_SIZE * y))%nat)
              (fun _ (t : nat * nat) => (t.1 < TILE_SIZE)%nat /\ (t.2 < 4)%nat)
              (fun y t => (4 * (TILE_SIZE * y + t.1) + t.2)%nat)
              (fun y t => rgba8_val (dithering_noise st') src (TILE_SIZE * y + t.1) t.2)
              dst (convert_rgba16_to_rgba8_row (dithering_noise st') src) 0%nat TILE_SIZE)
    with (s := (0%nat, dst)) as (s' & Hl & _ & Hlen & Hcells & _).
  - intros y y' [x c] [x' c'] _ _ [Hx1 Hc1] [Hx2 Hc2] Hne. cbn [fst snd] in *. lia.
  - intros y [ni d] Hy Hni Hlen _. cbn [fst snd] in *. subst ni.
    destruct (convert_rgba16_to_rgba8_row_cells (dithering_noise st') src y d)
      as (d' & Hr & Hlen' & Hc & Hf); [lia | lia | lia |].
    eexists. split; [exact Hr|]. cbn [fst snd]. split; [lia|].
    split; [congruence|]. split.
    + intros [x c] [Hx1 Hc1]. cbn [fst snd] in *. apply Hc; assumption.
    + intros j Hj. apply Hf.
      destruct (decide (j < 4 * (TILE_SIZE * y))%nat); [left; assumption|].
      destruct (decide (4 * (TILE_SIZE * y) + 4 * TILE_SIZE <= j)%nat);
        [right; assumption|].
      exfalso.
      apply (Hj (((j - 4 * (TILE_SIZE * y)) / 4)%nat, ((j - 4 * (TILE_SIZE * y)) mod 4)%nat));
        cbn [fst snd]; lia.
  - cbn [fst snd]. lia.
  - reflexivity.
  - rewrite Hl. destruct s' as [ni d]. cbn [fst snd mbind option_bind] in *.
    exists st', d. split; [reflexivity|]. destruct Hres as [? ?].
    repeat (split; [assumption|]). clear H3.
    intros k c Hk Hc.
    specialize (Hcells (k / 64)%nat ((k mod 64)%nat, c)). cbn [fst snd] in Hcells.
    replace (TILE_SIZE * (k / 64) + k mod 64)%nat with k in Hcells by lia.
    apply Hcells; lia.
Qed.

(** C9.  In the conversion of 16 bit premultiplied to 8 bit straight
    alpha, every pixel whose alpha is zero gets the colour channels zero,
    whatever its own colour cells hold, for every state of the noise
    table within the documented band. *)
Theorem rgba16_to_rgba8_transparent (rand : nat -> Z) (st : noise_state)
  (src dst : list Z) :
  noise_state_ok st -> length src = tile_cells -> length dst = tile_cells ->
  exists st' dst', tile_convert_rgba16_to_rgba8 rand st src dst = Some (st', dst') /\
    forall k c, (k < TILE_SIZE * TILE_SIZE)%nat -> (c < 3)%nat ->
      src !! (4 * k + 3)%nat = Some 0 -> dst' !! (4 * k + c)%nat = Some 0.
Proof.
  intros Hst Hs Hd.
  destruct (tile_convert_rgba16_to_rgba8_cells rand st src dst Hst Hs Hd)
    as (st' & dst' & Hrun & _ & Hnl & Hnb & _ & _ & Hcells).
  exists st', dst'. split; [exact Hrun|].
  intros k c Hk Hc Ha. rewrite Hcells by lia. f_equal.
  unfold rgba8_val. destruct (Nat.ltb_spec c 3); [|lia].
  unfold rd at 2. rewrite Ha. cbn [default from_option]. unfold id.
  unfold unpremultiply_val. cbn [Z.eqb].
  assert (Hn : in_noise_band (rd (dithering_noise st') (2 * k))).
  { apply Forall_rd; [exact Hnb|]. rewrite Hnl.
    assert (Z.of_nat dithering_noise_size = 8192) by reflexivity.
    pose proof TILE_SIZE_eq. lia. }
  unfold in_noise_band in Hn. unfold dither8.
  change (u32 (0 * 255)) with 0. rewrite Z.add_0_l.
  rewrite u32_small by lia. rewrite Z.div_small by lia. reflexivity.
Qed.

Lemma rgba16_to_rgba8_transparent_witness :
  exists st' dst',
    tile_convert_rgba16_to_rgba8 (fun i => Z.of_nat i * 7919) no_noise
      (pixel_tile 0 0 0 0) (replicate tile_cells 9) = Some (st', dst') /\
    forall k c, (k < TILE_SIZE * TILE_SIZE)%nat -> (c < 3)%nat ->
      pixel_tile 0 0 0 0 !! (4 * k + 3)%nat = Some 0 -> dst' !! (4 * k + c)%nat = Some 0.
Proof.
  apply (rgba16_to_rgba8_transparent (fun i => Z.of_nat i * 7919) no_noise
           (pixel_tile 0 0 0 0) (replicate tile_cells 9)).
  - exact no_noise_ok.
  - apply length_pixel_tile.
  - apply length_replicate.
Defined.

(** ** The 8 bit round trip *)

Lemma in_noise_band_bounds (n : Z) : in_noise_band n <-> noise_lo <= n <= noise_hi.
Proof. unfold in_noise_band, noise_lo, noise_hi. lia. Qed.

Lemma roundtrip_check_all :
  forallb roundtrip_check (seqZ alpha_threshold (256 - alpha_threshold)) = true.
Proof. vm_cast_no_check (eq_refl true). Qed.

Lemma dither_exact_sound (v c n : Z) :
  is_u8 v -> dither_exact v c = true -> in_noise_band n -> u8 (dither8 c n) = v.
Proof.
  unfold is_u8, dither_exact. intros Hv Hc Hn. apply in_noise_band_bounds in Hn.
  unfold noise_lo, noise_hi in *.
  apply andb_prop in Hc as [Hc H3]. apply andb_prop in Hc as [H1 H2].
  apply Z.leb_le in H1, H2. apply Z.ltb_lt in H3.
  unfold dither8. rewrite (u32_small (c * 255)) by lia. rewrite u32_small by lia.
  assert ((c * 255 + n) / 2 ^ 15 = v) as ->.
  { symmetry. apply (Z.div_unique _ _ v (c * 255 + n - v * 2 ^ 15)); lia. }
  apply u8_small. lia.
Qed.

Lemma roundtrip_check_true (a r : Z) :
  is_u8 r -> alpha_threshold <= a < 2 ^ 8 ->
  dither_exact a (u16 (to_fix15 a)) = true /\
  dither_exact r (roundtrip_unpremultiplied r a) = true.
Proof.
  intros Hr Ha. pose proof roundtrip_check_all as H.
  rewrite forallb_forall in H. specialize (H a).
  unfold roundtrip_check in H. cbv zeta in H.
  rewrite andb_true_iff, forallb_forall in H.
  destruct H as [H1 H2].
  - apply list_elem_of_In, elem_of_seqZ. unfold alpha_threshold in *. lia.
  - split; [exact H1|]. apply H2.
    apply list_elem_of_In, elem_of_seqZ. unfold is_u8 in Hr. lia.
Qed.

Lemma roundtrip_color (r a n : Z) :
  is_u8 r -> alpha_threshold <= a < 2 ^ 8 -> in_noise_band n ->
  u8 (dither8 (roundtrip_unpremultiplied r a) n) = r.
Proof.
  intros Hr Ha Hn. destruct (roundtrip_check_true a r Hr Ha) as [_ H].
  exact (dither_exact_sound _ _ _ Hr H Hn).
Qed.

Lemma roundtrip_alpha (a n : Z) :
  alpha_threshold <= a < 2 ^ 8 -> in_noise_band n ->
  u8 (dither8 (u16 (to_fix15 a)) n) = a.
Proof.
  intros Ha Hn.
  assert (Hr : is_u8 0) by (unfold is_u8; lia).
  destruct (roundtrip_check_true a 0 Hr Ha) as [H _].
  apply (dither_exact_sound a); try assumption.
  unfold is_u8, alpha_threshold in *. lia.
Qed.

(** C6, amended.  For every 8 bit tile and every state of the noise
    table (not yet filled, or filled with entries in the documented
    band), converting to 16 bit and back again gives back every channel
    of every pixel whose 8 bit alpha is at least [alpha_threshold] = 37
    of 255.  Below that bound colours are lost. *)
Theorem rgba8_roundtrip (rand : nat -> Z) (st : noise_state) (src d16 d8 : list Z) :
  noise_state_ok st ->
  length src = tile_cells -> Forall is_u8 src ->
  length d16 = tile_cells -> length d8 = tile_cells ->
  exists t16 st' t8,
    tile_convert_rgba8_to_rgba16 src d16 = Some t16 /\
    tile_convert_rgba16_to_rgba8 rand st t16 d8 = Some (st', t8) /\
    forall k c, (k < TILE_SIZE * TILE_SIZE)%nat -> (c < 4)%nat ->
      alpha_threshold <= rd src (4 * k + 3) ->
      t8 !! (4 * k + c)%nat = src !! (4 * k + c)%nat.
Proof.
  intros Hst Hs Hu H16 H8.
  destruct (tile_convert_rgba8_to_rgba16_cells src d16 Hs H16)
    as (t16 & Hrun1 & Hlen1 & Hcells1).
  assert (Ht16 : length t16 = tile_cells) by congruence.
  destruct (tile_convert_rgba16_to_rgba8_cells rand st t16 d8 Hst Ht16 H8)
    as (st' & t8 & Hrun2 & _ & Hnl & Hnb & _ & _ & Hcells2).
  exists t16, st', t8. split; [exact Hrun1|]. split; [exact Hrun2|].
  intros k c Hk Hc Ha.
  pose proof TILE_SIZE_eq as HT. pose proof tile_cells_eq as HC.
  assert (Hsize : Z.of_nat (length (dithering_noise st')) = 8192)
    by (rewrite Hnl; reflexivity).
  clear Hnl.
  rewrite Hcells2, (lookup_rd src) by lia. f_equal.
  assert (Hrd : forall c', (c' < 4)%nat -> rd t16 (4 * k + c') = rgba16_val src k c').
  { intros c' Hc'. unfold rd. rewrite Hcells1 by assumption. reflexivity. }
  assert (Hav : alpha_threshold <= rd src (4 * k + 3) < 2 ^ 8).
  { assert (Hv : is_u8 (rd src (4 * k + 3))) by (apply Forall_rd; [assumption | lia]).
    unfold is_u8 in Hv. lia. }
  unfold rgba8_val. rewrite !Hrd by lia. unfold rgba16_val.
  change (3 <? 3)%nat with false. cbv iota.
  destruct (Nat.ltb_spec c 3) as [Hc3|Hc3].
  - apply roundtrip_color; [apply Forall_rd; [assumption | lia] | exact Hav |].
    apply Forall_rd; [exact Hnb | lia].
  - replace c with 3%nat by lia.
    apply roundtrip_alpha; [exact Hav|]. apply Forall_rd; [exact Hnb | lia].
Qed.

Lemma rgba8_roundtrip_witness :
  exists t16 st' t8,
    tile_convert_rgba8_to_rgba16 (pixel_tile 110 145 255 37) (replicate tile_cells 0)
      = Some t16 /\
    tile_convert_rgba16_to_rgba8 (fun i => Z.of_nat i * 7919) no_noise t16
      (replicate tile_cells 0) = Some (st', t8) /\
    forall k c, (k < TILE_SIZE * TILE_SIZE)%nat -> (c < 4)%nat ->
      alpha_threshold <= rd (pixel_tile 110 145 255 37) (4 * k + 3) ->
      t8 !! (4 * k + c)%nat = pixel_tile 110 145 255 37 !! (4 * k + c)%nat.
Proof.
  apply (rgba8_roundtrip (fun i => Z.of_nat i * 7919) no_noise
           (pixel_tile 110 145 255 37) (replicate tile_cells 0) (replicate tile_cells 0)).
  - exact no_noise_ok.
  - apply length_pixel_tile.
  - apply Forall_pixel_tile; unfold is_u8; lia.
  - apply length_replicate.
  - apply length_replicate.
Defined.

(** At alpha 36 the noise value 1024, which the table holds where
    [rand()] returned a multiple of [1<<15], turns the colour 110 into
    109. *)
Lemma roundtrip_below_threshold :
  in_noise_band (noise_value 0) /\ noise_value 0 = 1024 /\
  u8 (dither8 (roundtrip_unpremultiplied 110 36) 1024) = 109.
Proof.
  split; [|split]; [unfold in_noise_band | |]; vm_compute;
    try reflexivity; split; discriminate.
Qed.

Lemma roundtrip_lost_all : forallb roundtrip_lost (seqZ 0 alpha_threshold) = true.
Proof. vm_cast_no_check (eq_refl true). Qed.

(** The bound is the least one: at every alpha below it some colour does
    not come back for some noise value of the band. *)
Lemma roundtrip_threshold_sharp (a : Z) :
  0 <= a < alpha_threshold ->
  exists r n, is_u8 r /\ in_noise_band n /\
    u8 (dither8 (roundtrip_unpremultiplied r a) n) <> r.
Proof.
  intros Ha. pose proof roundtrip_lost_all as Hall.
  rewrite forallb_forall in Hall.
  specialize (Hall a). unfold roundtrip_lost in Hall.
  rewrite existsb_exists in Hall.
  destruct Hall as (r & Hr & Hlost).
  { apply list_elem_of_In, elem_of_seqZ. lia. }
  apply list_elem_of_In, elem_of_seqZ in Hr.
  apply orb_true_iff in Hlost.
  destruct Hlost as [Hl|Hl]; apply negb_true_iff, Z.eqb_neq in Hl.
  - exists r, noise_lo. split; [unfold is_u8; lia|]. split; [|exact Hl].
    apply in_noise_band_bounds. unfold noise_lo, noise_hi. lia.
  - exists r, noise_hi. split; [unfold is_u8; lia|]. split; [|exact Hl].
    apply in_noise_band_bounds. unfold noise_lo, noise_hi. lia.
Qed.

(** The entries of a table that is filled by this call. *)
Lemma precalculate_dithering_noise_values (rand : nat -> Z) (st : noise_state) :
  noise_state_ok st -> have_noise st = false ->
  exists st', precalculate_dithering_noise_if_required rand st = Some st' /\
    forall i, (i < dithering_noise_size)%nat ->
      dithering_noise st' !! i = Some (u16 (noise_value (rand i))).
Proof.
  intros [Hlen _] Hh. unfold precalculate_dithering_noise_if_required. rewrite Hh.
  destruct (for_loop_cells
              (fun s : list Z => s) (fun _ _ => True) (fun _ (_ : unit) => True)
              (fun i _ => i) (fun i _ => u16 (noise_value (rand i)))
              (dithering_noise st)
              (fun i tbl => store16 tbl i (noise_value (rand i)))
              0%nat dithering_noise_size)
    with (s := dithering_noise st) as (tbl & Hl & _ & _ & Hcells & _).
  - intros; lia.
  - intros i tbl Hi _ Hlt _. rewrite store16_Some by lia.
    eexists. split; [reflexivity|]. split; [exact I|].
    split; [rewrite length_insert; exact Hlt|]. split.
    + intros _ _. lookup_inserts. reflexivity.
    + intros j Hj. pose proof (Hj tt I). lookup_inserts. reflexivity.
  - exact I.
  - reflexivity.
  - rewrite Hl. cbn [mbind option_bind]. eexists. split; [reflexivity|].
    cbn [dithering_noise]. intros i Hi.
    apply (Hcells i tt); [|exact I]. split; [apply Nat.le_0_l | exact Hi].
Qed.

Lemma tile_convert_rgba16_to_rgba8_state (rand : nat -> Z) (st st' : noise_state)
  (src dst dst' : list Z) :
  tile_convert_rgba16_to_rgba8 rand st src dst = Some (st', dst') ->
  precalculate_dithering_noise_if_required rand st = Some st'.
Proof.
  unfold tile_convert_rgba16_to_rgba8.
  destruct (precalculate_dithering_noise_if_required rand st) as [st1|];
    [|discriminate].
  cbn [mbind option_bind].
  destruct (for_loop TILE_SIZE 0 _ _) as [[ni d]|]; [|discriminate].
  cbn [mbind option_bind]. intros H. injection H as -> _. reflexivity.
Qed.

(** The 8 bit tile of the pixel [(110, 145, 255, 36)], alpha 36 of 255,
    converted with a table that is filled while [rand()] returns 0: the
    table is within the band, and the red channel comes back as 109. *)
Lemma roundtrip_loses_colour :
  Forall is_u8 (pixel_tile 110 145 255 36) /\
  exists t16 st' t8,
    tile_convert_rgba8_to_rgba16 (pixel_tile 110 145 255 36) (replicate tile_cells 0)
      = Some t16 /\
    tile_convert_rgba16_to_rgba8 (fun _ => 0) no_noise t16 (replicate tile_cells 0)
      = Some (st', t8) /\
    Forall in_noise_band (dithering_noise st') /\
    pixel_tile 110 145 255 36 !! 3%nat = Some 36 /\
    pixel_tile 110 145 255 36 !! 0%nat = Some 110 /\
    t8 !! 0%nat = Some 109.
Proof.
  split; [apply Forall_pixel_tile; unfold is_u8; lia|].
  assert (Hk : (0 < TILE_SIZE * TILE_SIZE)%nat) by tile_lia.
  destruct (tile_convert_rgba8_to_rgba16_cells (pixel_tile 110 145 255 36)
              (replicate tile_cells 0) (length_pixel_tile _ _ _ _)
              (length_replicate _ _)) as (t16 & Hrun1 & Hlen1 & Hcells1).
  assert (Ht16 : length t16 = tile_cells) by (rewrite Hlen1; apply length_replicate).
  destruct (tile_convert_rgba16_to_rgba8_cells (fun _ => 0) no_noise t16
              (replicate tile_cells 0) no_noise_ok Ht16 (length_replicate _ _))
    as (st' & t8 & Hrun2 & _ & _ & Hnb & _ & _ & Hcells2).
  exists t16, st', t8. split; [exact Hrun1|]. split; [exact Hrun2|].
  split; [exact Hnb|].
  split; [apply (lookup_pixels (TILE_SIZE * TILE_SIZE) 110 145 255 36 0 3 Hk); lia|].
  split; [apply (lookup_pixels (TILE_SIZE * TILE_SIZE) 110 145 255 36 0 0 Hk); lia|].
  destruct (precalculate_dithering_noise_values (fun _ => 0) no_noise no_noise_ok eq_refl)
    as (st1 & Hpre & Hvals).
  rewrite (tile_convert_rgba16_to_rgba8_state _ _ _ _ _ _ Hrun2) in Hpre.
  injection Hpre as <-.
  assert (Hn : rd (dithering_noise st') 0 = 1024).
  { unfold rd. rewrite Hvals; [reflexivity|]. unfold dithering_noise_size. lia. }
  assert (Hsrc : forall c, (c < 4)%nat ->
            rd (pixel_tile 110 145 255 36) c = default 0 ([110; 145; 255; 36] !! c)).
  { intros c Hc. apply (rd_pixel_tile 110 145 255 36 0 c Hk Hc). }
  assert (Hrd : forall c, (c < 4)%nat ->
            rd t16 c = rgba16_val (pixel_tile 110 145 255 36) 0 c).
  { intros c Hc. pose proof (Hcells1 0%nat c Hk Hc) as Hcell.
    change (4 * 0 + c)%nat with c in Hcell. unfold rd. rewrite Hcell. reflexivity. }
  pose proof (Hcells2 0%nat 0%nat Hk ltac:(lia)) as Hcell.
  change (4 * 0 + 0)%nat with 0%nat in Hcell. rewrite Hcell. f_equal.
  unfold rgba8_val. cbn [Nat.mul Nat.add Nat.ltb Nat.leb].
  rewrite Hn, !Hrd by lia. unfold rgba16_val. cbn [Nat.mul Nat.add Nat.ltb Nat.leb].
  rewrite !Hsrc by lia. reflexivity.
Qed.

(** ** Brush dab renderer *)

Section DabWalk.
Variable body : Z -> nat -> list Z -> option (list Z).
Variable len : nat.
Variable Pm : Z -> Prop.
Variable Inv : list Z -> Prop.
Hypothesis Hbody : forall m k rgba,
  Pm m -> (4 * k + 4 <= len)%nat -> length rgba = len -> Inv rgba ->
  exists rgba', body m (4 * k)%nat rgba = Some rgba' /\
    length rgba' = len /\ Inv rgba'.

Lemma draw_dab_pixels_inv (mask : list Z) :
  Forall Pm mask ->
  forall (k : nat) (rgba : list Z),
    mask_ok len mask (4 * k) = true -> length rgba = len -> Inv rgba ->
    exists rgba', draw_dab_pixels body mask (4 * k) rgba = Some rgba' /\
      length rgba' = len /\ Inv rgba'.
Proof.
  remember (length mask) as n eqn:Hn. revert mask Hn.
  induction n as [n IH] using lt_wf_ind.
  intros mask Hn HPm k rgba Hok Hlen Hinv. subst n.
  destruct mask as [|m mask']; [discriminate|].
  cbn [mask_ok draw_dab_pixels] in *.
  destruct (negb (m =? 0)).
  - apply andb_prop in Hok as [Hb Hok]. apply Nat.leb_le in Hb.
    destruct (Hbody m k rgba) as (rgba1 & -> & Hlen1 & Hinv1);
      [exact (Forall_inv HPm) | exact Hb | exact Hlen | exact Hinv |].
    cbn [mbind option_bind].
    replace (4 * k + 4)%nat with (4 * (k + 1))%nat in * by lia.
    apply (IH (length mask')); [cbn [length]; lia | reflexivity
                               | exact (Forall_inv_tail HPm) | assumption ..].
  - destruct mask' as [|skip mask'']; [discriminate|].
    destruct (skip =? 0).
    + exists rgba. auto.
    + apply andb_prop in Hok as [Hs Hok]. apply Z.eqb_eq in Hs.
      assert (Hk : (4 * k + Z.to_nat skip = 4 * (k + Z.to_nat skip / 4))%nat).
      { assert (Z.to_nat skip mod 4 = 0)%nat; [|lia].
        destruct (Z.le_gt_cases 0 skip); [|lia].
        apply Nat2Z.inj. rewrite Nat2Z.inj_mod, Z2Nat.id by lia. exact Hs. }
      rewrite Hk in *.
      apply (IH (length mask'')); [cbn [length]; lia | reflexivity | | assumption ..].
      exact (Forall_inv_tail (Forall_inv_tail HPm)).
Qed.
End DabWalk.

Lemma draw_dab_pixels_ext (body1 body2 : Z -> nat -> list Z -> option (list Z))
  (Pm : Z -> Prop) :
  (forall m p rgba, Pm m -> body1 m p rgba = body2 m p rgba) ->
  forall mask, Forall Pm mask ->
  forall p rgba, draw_dab_pixels body1 mask p rgba = draw_dab_pixels body2 mask p rgba.
Proof.
  intros Hext mask.
  remember (length mask) as n eqn:Hn. revert mask Hn.
  induction n as [n IH] using lt_wf_ind.
  intros mask Hn HPm p rgba. subst n.
  destruct mask as [|m mask']; [reflexivity|].
  cbn [draw_dab_pixels].
  destruct (negb (m =? 0)).
  - rewrite (Hext m p rgba (Forall_inv HPm)).
    destruct (body2 m p rgba) as [rgba1|]; [|reflexivity]. cbn [mbind option_bind].
    apply (IH (length mask')); [cbn [length]; lia | reflexivity
                               | exact (Forall_inv_tail HPm)].
  - destruct mask' as [|skip mask'']; [reflexivity|].
    destruct (skip =? 0); [reflexivity|].
    apply (IH (length mask'')); [cbn [length]; lia | reflexivity
                                | exact (Forall_inv_tail (Forall_inv_tail HPm))].
Qed.

Lemma dab_blend_channel_Some (opa_a opa_b color : Z) (p c : nat) (rgba : list Z) :
  (p + c < length rgba)%nat ->
  dab_blend_channel opa_a opa_b color p c rgba =
    Some (<[(p + c)%nat :=
             u16 (u32 (u32 (opa_a * color) + u32 (opa_b * rd rgba (p + c))) / 2 ^ 15)]> rgba).
Proof.
  intros H. unfold dab_blend_channel. rewrite lookup_rd by lia. cbn [mbind option_bind].
  apply store16_Some, H.
Qed.

Lemma BlendMode_LockAlpha_pixel_Some (color_r color_g color_b opacity m : Z)
  (p : nat) (rgba : list Z) :
  (p + 4 <= length rgba)%nat ->
  exists r g b,
    BlendMode_LockAlpha_pixel color_r color_g color_b opacity m p rgba =
      Some (<[(p + 2)%nat := b]> (<[(p + 1)%nat := g]> (<[(p + 0)%nat := r]> rgba))).
Proof.
  intros H. unfold BlendMode_LockAlpha_pixel.
  rewrite lookup_rd by lia. cbn [mbind option_bind].
  rewrite dab_blend_channel_Some by lia. cbn [mbind option_bind].
  rewrite dab_blend_channel_Some by (rewrite ?length_insert; lia).
  cbn [mbind option_bind].
  rewrite dab_blend_channel_Some by (rewrite ?length_insert; lia).
  eexists _, _, _. reflexivity.
Qed.

Lemma Forall_True (mask : list Z) : Forall (fun _ => True) mask.
Proof. apply Forall_forall. intros; exact I. Qed.

(** C3.  For every mask that is a well-formed run-length encoding for
    the destination buffer, every paint colour and every opacity, the
    lock-alpha operation returns a buffer of the same size in which the
    alpha cell of every pixel is what it was. *)
Theorem LockAlpha_keeps_alpha (mask rgba : list Z) (color_r color_g color_b opacity : Z) :
  mask_ok (length rgba) mask 0 = true ->
  exists rgba',
    draw_dab_pixels_BlendMode_LockAlpha mask rgba color_r color_g color_b opacity
      = Some rgba' /\
    length rgba' = length rgba /\
    forall k, rgba' !! (4 * k + 3)%nat = rgba !! (4 * k + 3)%nat.
Proof.
  intros Hok. unfold draw_dab_pixels_BlendMode_LockAlpha.
  refine (draw_dab_pixels_inv _ (length rgba) (fun _ => True)
            (fun rg => forall k, rg !! (4 * k + 3)%nat = rgba !! (4 * k + 3)%nat)
            _ mask _ 0%nat rgba _ _ _).
  - intros m k rg _ Hk Hlen Hinv.
    destruct (BlendMode_LockAlpha_pixel_Some color_r color_g color_b opacity m
                (4 * k) rg) as (r & g & b & ->); [lia|].
    eexists. split; [reflexivity|]. split; [rewrite !length_insert; exact Hlen|].
    intros k'. rewrite <- Hinv. lookup_inserts. reflexivity.
  - apply Forall_True.
  - exact Hok.
  - reflexivity.
  - reflexivity.
Qed.

Lemma LockAlpha_keeps_alpha_witness :
  exists rgba',
    draw_dab_pixels_BlendMode_LockAlpha example_mask example_rgba 32768 0 100 32768
      = Some rgba' /\
    length rgba' = length example_rgba /\
    forall k, rgba' !! (4 * k + 3)%nat = example_rgba !! (4 * k + 3)%nat.
Proof.
  apply (LockAlpha_keeps_alpha example_mask example_rgba 32768 0 100 32768).
  reflexivity.
Defined.

(** A skip that is not a whole number of pixels misaligns the pointer:
    the mask [0; 3; 32768; 0; 0] makes the red write land on the alpha of
    the first pixel. *)
Lemma LockAlpha_unaligned_skip :
  mask_ok 16 [0; 3; 32768; 0; 0] 0 = false /\
  draw_dab_pixels_BlendMode_LockAlpha [0; 3; 32768; 0; 0]
    [1; 2; 3; 4; 5; 6; 7; 8; 9; 10; 11; 12; 13; 14; 15; 16] 32768 0 100 32768
  = Some [1; 2; 3; 7; 0; 0; 7; 8; 9; 10; 11; 12; 13; 14; 15; 16].
Proof. split; vm_compute; reflexivity. Qed.

Lemma Normal_and_Eraser_pixel_opaque (color_r color_g color_b opacity m : Z)
  (p : nat) (rgba : list Z) :
  is_u16 opacity -> is_u16 m ->
  BlendMode_Normal_and_Eraser_pixel color_r color_g color_b (2 ^ 15) opacity m p rgba =
  BlendMode_Normal_pixel color_r color_g color_b opacity m p rgba.
Proof.
  unfold is_u16. intros Ho Hm.
  unfold BlendMode_Normal_and_Eraser_pixel, BlendMode_Normal_pixel.
  assert (0 <= m * opacity < 2 ^ 32) by nia.
  assert (0 <= m * opacity / 2 ^ 15 < 2 ^ 17).
  { split; [apply Z.div_pos; lia|]. apply Z.div_lt_upper_bound; lia. }
  rewrite (u32_small (m * opacity)) by lia.
  rewrite (u32_small (m * opacity / 2 ^ 15 * 2 ^ 15)) by lia.
  rewrite Z.div_mul by lia. reflexivity.
Qed.

(** C7.  With [color_a = 1<<15] the normal-and-eraser operation gives
    exactly what the normal paint operation gives, for every mask,
    buffer, colour and opacity of the type [uint16_t]. *)
Theorem Normal_and_Eraser_opaque_is_Normal (mask rgba : list Z)
  (color_r color_g color_b opacity : Z) :
  Forall is_u16 mask -> is_u16 opacity ->
  draw_dab_pixels_BlendMode_Normal_and_Eraser mask rgba color_r color_g color_b
    fix15_one opacity =
  draw_dab_pixels_BlendMode_Normal mask rgba color_r color_g color_b opacity.
Proof.
  intros Hmask Ho.
  unfold draw_dab_pixels_BlendMode_Normal_and_Eraser, draw_dab_pixels_BlendMode_Normal.
  apply (draw_dab_pixels_ext _ _ is_u16); [|exact Hmask].
  intros m p rg Hm. apply Normal_and_Eraser_pixel_opaque; assumption.
Qed.

Lemma Normal_and_Eraser_opaque_is_Normal_witness :
  draw_dab_pixels_BlendMode_Normal_and_Eraser example_mask example_rgba
    32768 0 100 fix15_one 20000 =
  draw_dab_pixels_BlendMode_Normal example_mask example_rgba 32768 0 100 20000.
Proof.
  apply (Normal_and_Eraser_opaque_is_Normal example_mask example_rgba 32768 0 100 20000).
  - unfold example_mask. repeat constructor; unfold is_u16; lia.
  - unfold is_u16. lia.
Defined.

Lemma BlendMode_Normal_pixel_Some (color_r color_g color_b opacity m : Z)
  (p : nat) (rgba : list Z) :
  (p + 4 <= length rgba)%nat ->
  let opa_a := u32 (m * opacity) / 2 ^ 15 in
  let opa_b := u32 (2 ^ 15 - opa_a) in
  BlendMode_Normal_pixel color_r color_g color_b opacity m p rgba =
    Some (<[(p + 2)%nat := blend_val opa_a opa_b color_b (rd rgba (p + 2))]>
            (<[(p + 1)%nat := blend_val opa_a opa_b color_g (rd rgba (p + 1))]>
               (<[p := blend_val opa_a opa_b color_r (rd rgba p)]>
                  (<[(p + 3)%nat :=
                       u16 (u32 (opa_a + u32 (opa_b * rd rgba (p + 3)) / 2 ^ 15))]>
                     rgba)))).
Proof.
  intros H opa_a opa_b. unfold BlendMode_Normal_pixel, dab_blend_channel.
  fold opa_a. fold opa_b. run_step. rewrite !Nat.add_0_r. reflexivity.
Qed.

Lemma Normal_channel_bound (opa_a color d a : Z) :
  0 <= opa_a <= 2 ^ 15 -> 0 <= color <= 2 ^ 15 -> 0 <= d <= a -> a <= 2 ^ 15 ->
  let opa_b := u32 (2 ^ 15 - opa_a) in
  let a' := u16 (u32 (opa_a + u32 (opa_b * a) / 2 ^ 15)) in
  0 <= blend_val opa_a opa_b color d <= a' /\ a' <= 2 ^ 15.
Proof.
  intros Ho Hc Hd Ha opa_b a'. subst opa_b a'. unfold blend_val.
  rewrite (u32_small (2 ^ 15 - opa_a)) by lia.
  set (ob := 2 ^ 15 - opa_a) in *.
  assert (0 <= ob <= 2 ^ 15) by (subst ob; lia).
  assert (0 <= ob * a / 2 ^ 15 <= ob).
  { split; [apply Z.div_pos; nia|]. apply Z.div_le_upper_bound; nia. }
  assert (0 <= (opa_a * color + ob * d) / 2 ^ 15 <= opa_a + ob * a / 2 ^ 15).
  { split; [apply Z.div_pos; nia|].
    rewrite <- (Z.div_add_l opa_a (2 ^ 15) (ob * a)) by lia.
    apply Z.div_le_mono; nia. }
  rewrite (u32_small (ob * a)) by nia.
  rewrite (u32_small (opa_a + _)) by lia.
  rewrite (u16_small (opa_a + _)) by lia.
  rewrite (u32_small (opa_a * color)) by nia.
  rewrite (u32_small (ob * d)) by nia.
  rewrite (u32_small (opa_a * color + ob * d)) by nia.
  rewrite u16_small by lia.
  subst ob. lia.
Qed.

(** C10.  For a well-formed mask with entries in [0 .. 1<<15], an
    opacity and a paint colour in [0 .. 1<<15] and a destination whose
    pixels satisfy [R,G,B <= A <= 1<<15], normal paint returns a buffer
    whose pixels satisfy it as well. *)
Theorem Normal_keeps_premultiplied (mask rgba : list Z)
  (color_r color_g color_b opacity : Z) :
  mask_ok (length rgba) mask 0 = true ->
  Forall is_fix15 mask -> is_fix15 opacity ->
  is_fix15 color_r -> is_fix15 color_g -> is_fix15 color_b ->
  premultiplied rgba ->
  exists rgba',
    draw_dab_pixels_BlendMode_Normal mask rgba color_r color_g color_b opacity
      = Some rgba' /\
    length rgba' = length rgba /\ premultiplied rgba'.
Proof.
  intros Hok Hmask Ho Hr Hg Hb Hpre. unfold draw_dab_pixels_BlendMode_Normal.
  refine (draw_dab_pixels_inv _ (length rgba) is_fix15 premultiplied
            _ mask Hmask 0%nat rgba Hok eq_refl Hpre).
  intros m k rg Hm Hk Hlen Hinv.
  rewrite BlendMode_Normal_pixel_Some by lia. cbv zeta.
  eexists. split; [reflexivity|]. split; [rewrite !length_insert; exact Hlen|].
  unfold is_fix15, fix15_one in *.
  assert (Hopa : 0 <= u32 (m * opacity) / 2 ^ 15 <= 2 ^ 15).
  { rewrite u32_small by nia.
    split; [apply Z.div_pos; nia|]. apply Z.div_le_upper_bound; nia. }
  intros k' Hk'. rewrite !length_insert in Hk'.
  destruct (decide (k' = k)) as [->|Hne].
  - destruct (Hinv k ltac:(lia)) as (Hr0 & Hg0 & Hb0 & Ha0).
    unfold pixel_ok, rd, fix15_one in *.
    lookup_inserts. cbn [default from_option].
    pose proof (Normal_channel_bound _ color_r _ _ Hopa Hr Hr0 Ha0) as [H1 H1'].
    pose proof (Normal_channel_bound _ color_g _ _ Hopa Hg Hg0 Ha0) as [H2 _].
    pose proof (Normal_channel_bound _ color_b _ _ Hopa Hb Hb0 Ha0) as [H3 _].
    cbv zeta in *. unfold rd, id in *. lia.
  - specialize (Hinv k' ltac:(lia)). unfold pixel_ok, rd in *.
    lookup_inserts. exact Hinv.
Qed.

Lemma Normal_keeps_premultiplied_witness :
  exists rgba',
    draw_dab_pixels_BlendMode_Normal example_mask example_rgba 32768 0 100 20000
      = Some rgba' /\
    length rgba' = length example_rgba /\ premultiplied rgba'.
Proof.
  apply (Normal_keeps_premultiplied example_mask example_rgba 32768 0 100 20000).
  - reflexivity.
  - unfold example_mask. repeat constructor; unfold is_fix15, fix15_one; lia.
  - unfold is_fix15, fix15_one. lia.
  - unfold is_fix15, fix15_one. lia.
  - unfold is_fix15, fix15_one. lia.
  - unfold is_fix15, fix15_one. lia.
  - intros k Hk. cbn [length example_rgba] in Hk.
    destruct k as [|[|[|[|k]]]]; [| | | | lia];
      unfold pixel_ok, rd, fix15_one; cbn; lia.
Defined.

(** * Further properties *)

(** ** Brush dab renderer: the pixels of a mask *)

Section DabCells.
Variable body : Z -> nat -> list Z -> option (list Z).
Variable F : Z -> Z * Z * Z * Z -> Z * Z * Z * Z.
Hypothesis Hbody : forall m p rgba,
  (p + 4 <= length rgba)%nat ->
  exists rgba', body m p rgba = Some rgba' /\
    length rgba' = length rgba /\
    (forall j, (j < p \/ p + 4 <= j)%nat -> rgba' !! j = rgba !! j) /\
    pixel_at rgba' p = F m (pixel_at rgba p).

Lemma pixel_at_ext (b1 b2 : list Z) (p : nat) :
  (forall j, (p <= j < p + 4)%nat -> b1 !! j = b2 !! j) ->
  pixel_at b1 p = pixel_at b2 p.
Proof.
  intros H. unfold pixel_at, rd. rewrite !H by lia. reflexivity.
Qed.

Lemma mask_pixels_ge (mask : list Z) :
  forall p q m, (q, m) ∈ mask_pixels mask p -> (p <= q)%nat.
Proof.
  remember (length mask) as n eqn:Hn. revert mask Hn.
  induction n as [n IH] using lt_wf_ind.
  intros mask Hn p q m Hin. subst n.
  destruct mask as [|m0 mask']; [inversion Hin|].
  cbn [mask_pixels] in Hin. destruct (negb (m0 =? 0)).
  - apply elem_of_cons in Hin as [Heq|Hin]; [injection Heq as -> ->; lia|].
    apply (IH (length mask')) in Hin; [lia | cbn [length]; lia | reflexivity].
  - destruct mask' as [|skip mask'']; [inversion Hin|].
    destruct (skip =? 0); [inversion Hin|].
    apply (IH (length mask'')) in Hin; [lia | cbn [length]; lia | reflexivity].
Qed.

Lemma draw_dab_pixels_cells (mask : list Z) :
  forall (p : nat) (rgba : list Z),
    mask_ok (length rgba) mask p = true ->
    exists rgba', draw_dab_pixels body mask p rgba = Some rgba' /\
      length rgba' = length rgba /\
      (forall q m, (q, m) ∈ mask_pixels mask p ->
         pixel_at rgba' q = F m (pixel_at rgba q)) /\
      (forall j, (forall q m, (q, m) ∈ mask_pixels mask p -> (j < q \/ q + 4 <= j)%nat) ->
         rgba' !! j = rgba !! j).
Proof.
  remember (length mask) as n eqn:Hn. revert mask Hn.
  induction n as [n IH] using lt_wf_ind.
  intros mask Hn p rgba Hok. subst n.
  destruct mask as [|m0 mask']; [discriminate|].
  cbn [mask_ok draw_dab_pixels mask_pixels] in *.
  destruct (negb (m0 =? 0)).
  - apply andb_prop in Hok as [Hb Hok]. apply Nat.leb_le in Hb.
    destruct (Hbody m0 p rgba Hb) as (rgba1 & -> & Hlen1 & Hframe1 & Hpx1).
    cbn [mbind option_bind]. rewrite <- Hlen1 in Hok.
    destruct (IH (length mask') ltac:(cbn [length]; lia) mask' eq_refl (p + 4)%nat rgba1 Hok)
      as (rgba2 & Hrun & Hlen2 & Hpx2 & Hframe2).
    exists rgba2. split; [exact Hrun|]. split; [congruence|]. split.
    + intros q m Hin. apply elem_of_cons in Hin as [Heq|Hin].
      * injection Heq as -> ->. rewrite <- Hpx1. apply pixel_at_ext.
        intros j Hj. apply Hframe2. intros q m Hin.
        apply mask_pixels_ge in Hin. lia.
      * rewrite (Hpx2 q m Hin). f_equal. apply pixel_at_ext.
        intros j Hj. apply Hframe1. apply mask_pixels_ge in Hin. lia.
    + intros j Hj. rewrite Hframe2.
      * apply Hframe1. specialize (Hj p m0 ltac:(left)). lia.
      * intros q m Hin. apply (Hj q m). right. exact Hin.
  - destruct mask' as [|skip mask'']; [discriminate|].
    destruct (skip =? 0).
    + exists rgba. split; [reflexivity|]. split; [reflexivity|]. split.
      * intros q m Hin. inversion Hin.
      * reflexivity.
    + apply andb_prop in Hok as [_ Hok].
      apply (IH (length mask'')); [cbn [length]; lia | reflexivity | exact Hok].
Qed.
End DabCells.

Lemma pixel_at_inserts (rgba : list Z) (p : nat) (r g b a : Z) :
  (p + 4 <= length rgba)%nat ->
  pixel_at (<[(p + 2)%nat := b]> (<[(p + 1)%nat := g]> (<[p := r]>
              (<[(p + 3)%nat := a]> rgba)))) p = (r, g, b, a).
Proof.
  intros H. unfold pixel_at, rd.
  repeat first
    [ rewrite list_lookup_insert_eq by (rewrite ?length_insert; lia)
    | rewrite list_lookup_insert_ne by lia ].
  reflexivity.
Qed.

Lemma BlendMode_Normal_and_Eraser_pixel_Some
  (color_r color_g color_b color_a opacity m : Z) (p : nat) (rgba : list Z) :
  (p + 4 <= length rgba)%nat ->
  let opa_a0 := u32 (m * opacity) / 2 ^ 15 in
  let opa_b := u32 (2 ^ 15 - opa_a0) in
  let opa_a := u32 (opa_a0 * color_a) / 2 ^ 15 in
  BlendMode_Normal_and_Eraser_pixel color_r color_g color_b color_a opacity m p rgba =
    Some (<[(p + 2)%nat := blend_val opa_a opa_b color_b (rd rgba (p + 2))]>
            (<[(p + 1)%nat := blend_val opa_a opa_b color_g (rd rgba (p + 1))]>
               (<[p := blend_val opa_a opa_b color_r (rd rgba p)]>
                  (<[(p + 3)%nat :=
                       u16 (u32 (opa_a + u32 (opa_b * rd rgba (p + 3)) / 2 ^ 15))]>
                     rgba)))).
Proof.
  intros H opa_a0 opa_b opa_a.
  unfold BlendMode_Normal_and_Eraser_pixel, dab_blend_channel.
  fold opa_a0. fold opa_b. fold opa_a. run_step. rewrite !Nat.add_0_r. reflexivity.
Qed.

Lemma BlendMode_LockAlpha_pixel_cells (color_r color_g color_b opacity m : Z)
  (p : nat) (rgba : list Z) :
  (p + 4 <= length rgba)%nat ->
  let opa_a0 := u32 (m * opacity) / 2 ^ 15 in
  let opa_b := u32 (2 ^ 15 - opa_a0) in
  let opa_a := u32 (opa_a0 * rd rgba (p + 3)) / 2 ^ 15 in
  BlendMode_LockAlpha_pixel color_r color_g color_b opacity m p rgba =
    Some (<[(p + 2)%nat := blend_val opa_a opa_b color_b (rd rgba (p + 2))]>
            (<[(p + 1)%nat := blend_val opa_a opa_b color_g (rd rgba (p + 1))]>
               (<[p := blend_val opa_a opa_b color_r (rd rgba p)]> rgba))).
Proof.
  intros H opa_a0 opa_b opa_a.
  unfold BlendMode_LockAlpha_pixel, dab_blend_channel.
  fold opa_a0. fold opa_b. run_step. fold opa_a. run_step.
  rewrite !Nat.add_0_r. reflexivity.
Qed.

Ltac frame_inserts :=
  intros j Hj;
  repeat first
    [ rewrite list_lookup_insert_ne by lia ];
  reflexivity.

Lemma Normal_body (color_r color_g color_b opacity m : Z) (p : nat) (rgba : list Z) :
  (p + 4 <= length rgba)%nat ->
  exists rgba',
    BlendMode_Normal_pixel color_r color_g color_b opacity m p rgba = Some rgba' /\
    length rgba' = length rgba /\
    (forall j, (j < p \/ p + 4 <= j)%nat -> rgba' !! j = rgba !! j) /\
    pixel_at rgba' p = Normal_px color_r color_g color_b opacity m (pixel_at rgba p).
Proof.
  intros H. rewrite BlendMode_Normal_pixel_Some by exact H. cbv zeta.
  eexists. split; [reflexivity|]. split; [rewrite !length_insert; reflexivity|].
  split; [frame_inserts|]. rewrite pixel_at_inserts by exact H. reflexivity.
Qed.

Lemma Normal_and_Eraser_body (color_r color_g color_b color_a opacity m : Z)
  (p : nat) (rgba : list Z) :
  (p + 4 <= length rgba)%nat ->
  exists rgba',
    BlendMode_Normal_and_Eraser_pixel color_r color_g color_b color_a opacity m p rgba
      = Some rgba' /\
    length rgba' = length rgba /\
    (forall j, (j < p \/ p + 4 <= j)%nat -> rgba' !! j = rgba !! j) /\
    pixel_at rgba' p =
      Normal_and_Eraser_px color_r color_g color_b color_a opacity m (pixel_at rgba p).
Proof.
  intros H. rewrite BlendMode_Normal_and_Eraser_pixel_Some by exact H. cbv zeta.
  eexists. split; [reflexivity|]. split; [rewrite !length_insert; reflexivity|].
  split; [frame_inserts|]. rewrite pixel_at_inserts by exact H. reflexivity.
Qed.

Lemma LockAlpha_body (color_r color_g color_b opacity m : Z) (p : nat) (rgba : list Z) :
  (p + 4 <= length rgba)%nat ->
  exists rgba',
    BlendMode_LockAlpha_pixel color_r color_g color_b opacity m p rgba = Some rgba' /\
    length rgba' = length rgba /\
    (forall j, (j < p \/ p + 4 <= j)%nat -> rgba' !! j = rgba !! j) /\
    pixel_at rgba' p = LockAlpha_px color_r color_g color_b opacity m (pixel_at rgba p).
Proof.
  intros H. rewrite BlendMode_LockAlpha_pixel_cells by exact H. cbv zeta.
  eexists. split; [reflexivity|]. split; [rewrite !length_insert; reflexivity|].
  split; [frame_inserts|].
  unfold pixel_at, LockAlpha_px, rd.
  repeat first
    [ rewrite list_lookup_insert_eq by (rewrite ?length_insert; lia)
    | rewrite list_lookup_insert_ne by lia ].
  reflexivity.
Qed.

Lemma draw_dab_pixels_Normal_walk (mask rgba : list Z)
  (color_r color_g color_b opacity : Z) :
  mask_ok (length rgba) mask 0 = true ->
  exists rgba',
    draw_dab_pixels_BlendMode_Normal mask rgba color_r color_g color_b opacity
      = Some rgba' /\
    length rgba' = length rgba /\
    (forall q m, (q, m) ∈ mask_pixels mask 0 ->
       pixel_at rgba' q = Normal_px color_r color_g color_b opacity m (pixel_at rgba q)) /\
    (forall j, (forall q m, (q, m) ∈ mask_pixels mask 0 -> (j < q \/ q + 4 <= j)%nat) ->
       rgba' !! j = rgba !! j).
Proof.
  intros Hok. unfold draw_dab_pixels_BlendMode_Normal.
  apply draw_dab_pixels_cells; [|exact Hok].
  intros m p rg Hp. apply Normal_body, Hp.
Qed.

Lemma draw_dab_pixels_Normal_and_Eraser_walk (mask rgba : list Z)
  (color_r color_g color_b color_a opacity : Z) :
  mask_ok (length rgba) mask 0 = true ->
  exists rgba',
    draw_dab_pixels_BlendMode_Normal_and_Eraser mask rgba color_r color_g color_b
      color_a opacity = Some rgba' /\
    length rgba' = length rgba /\
    (forall q m, (q, m) ∈ mask_pixels mask 0 ->
       pixel_at rgba' q =
         Normal_and_Eraser_px color_r color_g color_b color_a opacity m (pixel_at rgba q)) /\
    (forall j, (forall q m, (q, m) ∈ mask_pixels mask 0 -> (j < q \/ q + 4 <= j)%nat) ->
       rgba' !! j = rgba !! j).
Proof.
  intros Hok. unfold draw_dab_pixels_BlendMode_Normal_and_Eraser.
  apply draw_dab_pixels_cells; [|exact Hok].
  intros m p rg Hp. apply Normal_and_Eraser_body, Hp.
Qed.

Lemma draw_dab_pixels_LockAlpha_walk (mask rgba : list Z)
  (color_r color_g color_b opacity : Z) :
  mask_ok (length rgba) mask 0 = true ->
  exists rgba',
    draw_dab_pixels_BlendMode_LockAlpha mask rgba color_r color_g color_b opacity
      = Some rgba' /\
    length rgba' = length rgba /\
    (forall q m, (q, m) ∈ mask_pixels mask 0 ->
       pixel_at rgba' q = LockAlpha_px color_r color_g color_b opacity m (pixel_at rgba q)) /\
    (forall j, (forall q m, (q, m) ∈ mask_pixels mask 0 -> (j < q \/ q + 4 <= j)%nat) ->
       rgba' !! j = rgba !! j).
Proof.
  intros Hok. unfold draw_dab_pixels_BlendMode_LockAlpha.
  apply draw_dab_pixels_cells; [|exact Hok].
  intros m p rg Hp. apply LockAlpha_body, Hp.
Qed.

Lemma example_mask_fix15 : Forall is_fix15 example_mask.
Proof. unfold example_mask. repeat constructor; unfold is_fix15, fix15_one; lia. Qed.

Lemma example_rgba_u16 : Forall is_u16 example_rgba.
Proof. unfold example_rgba. repeat constructor; unfold is_u16; lia. Qed.

Lemma example_rgba_premultiplied : premultiplied example_rgba.
Proof.
  intros k Hk. cbn [length example_rgba] in Hk.
  destruct k as [|[|[|[|k]]]]; [| | | | lia];
    unfold pixel_ok, rd, fix15_one; cbn; lia.
Qed.

(** The three paint operations keep the length of the buffer and change
    no cell outside the pixels that the runs of the mask visit. *)
Theorem paint_touches_only_masked_pixels (mask rgba : list Z)
  (color_r color_g color_b color_a opacity : Z) :
  mask_ok (length rgba) mask 0 = true ->
  exists n e l,
    draw_dab_pixels_BlendMode_Normal mask rgba color_r color_g color_b opacity
      = Some n /\
    draw_dab_pixels_BlendMode_Normal_and_Eraser mask rgba color_r color_g color_b
      color_a opacity = Some e /\
    draw_dab_pixels_BlendMode_LockAlpha mask rgba color_r color_g color_b opacity
      = Some l /\
    length n = length rgba /\ length e = length rgba /\ length l = length rgba /\
    forall j, (forall q m, (q, m) ∈ mask_pixels mask 0 -> (j < q \/ q + 4 <= j)%nat) ->
      n !! j = rgba !! j /\ e !! j = rgba !! j /\ l !! j = rgba !! j.
Proof.
  intros Hok.
  destruct (draw_dab_pixels_Normal_walk mask rgba color_r color_g color_b opacity Hok)
    as (n & Hn & Hln & _ & Hfn).
  destruct (draw_dab_pixels_Normal_and_Eraser_walk mask rgba color_r color_g color_b
              color_a opacity Hok) as (e & He & Hle & _ & Hfe).
  destruct (draw_dab_pixels_LockAlpha_walk mask rgba color_r color_g color_b opacity Hok)
    as (l & Hl & Hll & _ & Hfl).
  exists n, e, l. repeat (split; [assumption|]).
  intros j Hj. auto.
Qed.

Lemma paint_touches_only_masked_pixels_witness :
  exists n e l,
    draw_dab_pixels_BlendMode_Normal example_mask example_rgba 32768 0 100 30000
      = Some n /\
    draw_dab_pixels_BlendMode_Normal_and_Eraser example_mask example_rgba 32768 0 100
      20000 30000 = Some e /\
    draw_dab_pixels_BlendMode_LockAlpha example_mask example_rgba 32768 0 100 30000
      = Some l /\
    length n = length example_rgba /\ length e = length example_rgba /\
    length l = length example_rgba /\
    forall j,
      (forall q m, (q, m) ∈ mask_pixels example_mask 0 -> (j < q \/ q + 4 <= j)%nat) ->
      n !! j = example_rgba !! j /\ e !! j = example_rgba !! j /\
      l !! j = example_rgba !! j.
Proof.
  apply (paint_touches_only_masked_pixels example_mask example_rgba 32768 0 100
           20000 30000).
  reflexivity.
Defined.

(** ** Brush dab renderer: opacity zero and full strength *)

Lemma blend_val_zero_opacity (color d : Z) :
  is_u16 d -> blend_val 0 (2 ^ 15) color d = d.
Proof.
  unfold is_u16, blend_val. intros Hd. cbn [Z.mul].
  change (u32 0) with 0. rewrite Z.add_0_l.
  rewrite (u32_small (2 ^ 15 * d)) by lia.
  rewrite (u32_small (2 ^ 15 * d)) by lia.
  rewrite Z.mul_comm, Z.div_mul by lia. apply u16_small. lia.
Qed.

Lemma alpha_zero_opacity (a : Z) :
  is_u16 a -> u16 (u32 (0 + u32 (2 ^ 15 * a) / 2 ^ 15)) = a.
Proof.
  unfold is_u16. intros Ha. rewrite Z.add_0_l.
  rewrite (u32_small (2 ^ 15 * a)) by lia.
  rewrite Z.mul_comm, Z.div_mul by lia.
  rewrite u32_small by lia. apply u16_small. lia.
Qed.

Lemma insert_rd_id (buf : list Z) (i : nat) :
  <[i := rd buf i]> buf = buf.
Proof.
  destruct (decide (i < length buf)%nat) as [Hi|Hi].
  - apply list_insert_id, lookup_rd, Hi.
  - apply list_insert_ge. lia.
Qed.

Lemma Normal_pixel_zero_opacity (color_r color_g color_b m : Z) (p : nat)
  (rgba : list Z) :
  (p + 4 <= length rgba)%nat -> Forall is_u16 rgba ->
  BlendMode_Normal_pixel color_r color_g color_b 0 m p rgba = Some rgba.
Proof.
  intros Hp Hu. rewrite BlendMode_Normal_pixel_Some by exact Hp. cbv zeta.
  rewrite Z.mul_0_r. change (u32 0 / 2 ^ 15) with 0.
  change (u32 (2 ^ 15 - 0)) with (2 ^ 15).
  rewrite !blend_val_zero_opacity, alpha_zero_opacity by (apply Forall_rd; [assumption|lia]).
  rewrite (insert_rd_id rgba (p + 3)).
  rewrite (insert_rd_id rgba p).
  rewrite (insert_rd_id rgba (p + 1)).
  rewrite (insert_rd_id rgba (p + 2)). reflexivity.
Qed.

Lemma Normal_and_Eraser_pixel_zero_opacity (color_r color_g color_b color_a m : Z)
  (p : nat) (rgba : list Z) :
  (p + 4 <= length rgba)%nat -> Forall is_u16 rgba ->
  BlendMode_Normal_and_Eraser_pixel color_r color_g color_b color_a 0 m p rgba
    = Some rgba.
Proof.
  intros Hp Hu. rewrite BlendMode_Normal_and_Eraser_pixel_Some by exact Hp. cbv zeta.
  rewrite Z.mul_0_r. change (u32 0 / 2 ^ 15) with 0. rewrite Z.mul_0_l.
  change (u32 0 / 2 ^ 15) with 0.
  change (u32 (2 ^ 15 - 0)) with (2 ^ 15).
  rewrite !blend_val_zero_opacity, alpha_zero_opacity by (apply Forall_rd; [assumption|lia]).
  rewrite (insert_rd_id rgba (p + 3)).
  rewrite (insert_rd_id rgba p).
  rewrite (insert_rd_id rgba (p + 1)).
  rewrite (insert_rd_id rgba (p + 2)). reflexivity.
Qed.

Lemma LockAlpha_pixel_zero_opacity (color_r color_g color_b m : Z) (p : nat)
  (rgba : list Z) :
  (p + 4 <= length rgba)%nat -> Forall is_u16 rgba ->
  BlendMode_LockAlpha_pixel color_r color_g color_b 0 m p rgba = Some rgba.
Proof.
  intros Hp Hu. rewrite BlendMode_LockAlpha_pixel_cells by exact Hp. cbv zeta.
  rewrite Z.mul_0_r. change (u32 0 / 2 ^ 15) with 0. rewrite Z.mul_0_l.
  change (u32 0 / 2 ^ 15) with 0.
  change (u32 (2 ^ 15 - 0)) with (2 ^ 15).
  rewrite !blend_val_zero_opacity by (apply Forall_rd; [assumption|lia]).
  rewrite (insert_rd_id rgba p).
  rewrite (insert_rd_id rgba (p + 1)).
  rewrite (insert_rd_id rgba (p + 2)). reflexivity.
Qed.

Lemma draw_dab_pixels_id (body : Z -> nat -> list Z -> option (list Z))
  (mask rgba : list Z) :
  (forall m k, (4 * k + 4 <= length rgba)%nat -> body m (4 * k)%nat rgba = Some rgba) ->
  mask_ok (length rgba) mask 0 = true ->
  draw_dab_pixels body mask 0 rgba = Some rgba.
Proof.
  intros Hbody Hok.
  destruct (draw_dab_pixels_inv body (length rgba) (fun _ => True) (fun rg => rg = rgba))
    with (mask := mask) (k := 0%nat) (rgba := rgba) as (rgba' & Hrun & _ & ->).
  - intros m k rg _ Hk _ ->. exists rgba. auto.
  - apply Forall_True.
  - exact Hok.
  - reflexivity.
  - reflexivity.
  - exact Hrun.
Qed.

(** With opacity zero the three paint operations return the buffer as
    it was, for every mask. *)
Theorem dab_zero_opacity (mask rgba : list Z) (color_r color_g color_b color_a : Z) :
  mask_ok (length rgba) mask 0 = true -> Forall is_u16 rgba ->
  draw_dab_pixels_BlendMode_Normal mask rgba color_r color_g color_b 0 = Some rgba /\
  draw_dab_pixels_BlendMode_Normal_and_Eraser mask rgba color_r color_g color_b
    color_a 0 = Some rgba /\
  draw_dab_pixels_BlendMode_LockAlpha mask rgba color_r color_g color_b 0 = Some rgba.
Proof.
  intros Hok Hu. repeat split.
  - apply draw_dab_pixels_id; [|exact Hok].
    intros m k Hk. apply Normal_pixel_zero_opacity; [lia | exact Hu].
  - apply draw_dab_pixels_id; [|exact Hok].
    intros m k Hk. apply Normal_and_Eraser_pixel_zero_opacity; [lia | exact Hu].
  - apply draw_dab_pixels_id; [|exact Hok].
    intros m k Hk. apply LockAlpha_pixel_zero_opacity; [lia | exact Hu].
Qed.

Lemma dab_zero_opacity_witness :
  draw_dab_pixels_BlendMode_Normal example_mask example_rgba 32768 0 100 0
    = Some example_rgba /\
  draw_dab_pixels_BlendMode_Normal_and_Eraser example_mask example_rgba 32768 0 100
    20000 0 = Some example_rgba /\
  draw_dab_pixels_BlendMode_LockAlpha example_mask example_rgba 32768 0 100 0
    = Some example_rgba.
Proof.
  apply (dab_zero_opacity example_mask example_rgba 32768 0 100 20000).
  - reflexivity.
  - apply example_rgba_u16.
Defined.

Lemma blend_val_full (color d : Z) :
  is_u16 color -> blend_val (2 ^ 15) 0 color d = color.
Proof.
  unfold is_u16, blend_val. intros Hc. rewrite Z.mul_0_l.
  change (u32 0) with 0. rewrite Z.add_0_r.
  rewrite (u32_small (2 ^ 15 * color)) by lia.
  rewrite (u32_small (2 ^ 15 * color)) by lia.
  rewrite Z.mul_comm, Z.div_mul by lia. apply u16_small. lia.
Qed.

(** Where the mask and the opacity both are [1<<15], normal painting
    replaces the pixel by the opaque brush colour. *)
Theorem Normal_full_strength (mask rgba : list Z) (color_r color_g color_b : Z) :
  mask_ok (length rgba) mask 0 = true ->
  is_u16 color_r -> is_u16 color_g -> is_u16 color_b ->
  exists rgba',
    draw_dab_pixels_BlendMode_Normal mask rgba color_r color_g color_b fix15_one
      = Some rgba' /\
    forall q, (q, fix15_one) ∈ mask_pixels mask 0 ->
      pixel_at rgba' q = (color_r, color_g, color_b, fix15_one).
Proof.
  intros Hok Hr Hg Hb.
  destruct (draw_dab_pixels_Normal_walk mask rgba color_r color_g color_b fix15_one Hok)
    as (rgba' & Hrun & _ & Hpx & _).
  exists rgba'. split; [exact Hrun|]. intros q Hq.
  rewrite (Hpx q fix15_one Hq). unfold Normal_px, pixel_at, fix15_one.
  change (u32 (2 ^ 15 * 2 ^ 15) / 2 ^ 15) with (2 ^ 15).
  change (u32 (2 ^ 15 - 2 ^ 15)) with 0.
  rewrite !blend_val_full by assumption.
  rewrite Z.mul_0_l. reflexivity.
Qed.

Lemma Normal_full_strength_witness :
  exists rgba',
    draw_dab_pixels_BlendMode_Normal example_mask example_rgba 32768 0 100 fix15_one
      = Some rgba' /\
    forall q, (q, fix15_one) ∈ mask_pixels example_mask 0 ->
      pixel_at rgba' q = (32768, 0, 100, fix15_one).
Proof.
  apply (Normal_full_strength example_mask example_rgba 32768 0 100).
  - reflexivity.
  - unfold is_u16. lia.
  - unfold is_u16. lia.
  - unfold is_u16. lia.
Defined.

(** With [color_a] zero (erasing) the result does not depend on the
    brush colour, as the comment in the source states; this also holds
    where the operation fails. *)
Theorem eraser_ignores_color (mask rgba : list Z)
  (color_r color_g color_b color_r' color_g' color_b' opacity : Z) :
  draw_dab_pixels_BlendMode_Normal_and_Eraser mask rgba color_r color_g color_b 0 opacity
  = draw_dab_pixels_BlendMode_Normal_and_Eraser mask rgba color_r' color_g' color_b' 0
      opacity.
Proof.
  unfold draw_dab_pixels_BlendMode_Normal_and_Eraser.
  apply (draw_dab_pixels_ext _ _ (fun _ => True)); [|apply Forall_True].
  intros m p rg _.
  unfold BlendMode_Normal_and_Eraser_pixel, dab_blend_channel.
  rewrite Z.mul_0_r. change (u32 0 / 2 ^ 15) with 0. rewrite !Z.mul_0_l.
  reflexivity.
Qed.

(** ** Brush dab renderer: the premultiplied invariant *)

Lemma opa_a_range (m opacity : Z) :
  0 <= m <= 2 ^ 15 -> 0 <= opacity <= 2 ^ 15 ->
  0 <= u32 (m * opacity) / 2 ^ 15 <= 2 ^ 15.
Proof.
  intros Hm Ho. rewrite u32_small by nia.
  split; [apply Z.div_pos; nia|]. apply Z.div_le_upper_bound; nia.
Qed.

Lemma blend_val_bound (oa ob color d a : Z) :
  0 <= oa -> 0 <= ob -> oa + ob <= 2 ^ 15 ->
  0 <= color <= 2 ^ 15 -> 0 <= d <= a -> a <= 2 ^ 15 ->
  0 <= blend_val oa ob color d <= oa + ob * a / 2 ^ 15.
Proof.
  intros Hoa Hob Hsum Hc Hd Ha. unfold blend_val.
  assert (0 <= ob * a / 2 ^ 15 <= ob).
  { split; [apply Z.div_pos; nia|]. apply Z.div_le_upper_bound; nia. }
  assert (0 <= (oa * color + ob * d) / 2 ^ 15 <= oa + ob * a / 2 ^ 15).
  { split; [apply Z.div_pos; nia|].
    rewrite <- (Z.div_add_l oa (2 ^ 15) (ob * a)) by lia.
    apply Z.div_le_mono; nia. }
  rewrite (u32_small (oa * color)) by nia.
  rewrite (u32_small (ob * d)) by nia.
  rewrite (u32_small (oa * color + ob * d)) by nia.
  rewrite u16_small by lia. lia.
Qed.

Lemma premultiplied_update (rg : list Z) (k : nat) (r g b a : Z) :
  premultiplied rg -> (4 * k + 4 <= length rg)%nat ->
  0 <= r <= a -> 0 <= g <= a -> 0 <= b <= a -> a <= 2 ^ 15 ->
  premultiplied (<[(4 * k + 2)%nat := b]> (<[(4 * k + 1)%nat := g]>
                   (<[(4 * k)%nat := r]> (<[(4 * k + 3)%nat := a]> rg)))).
Proof.
  intros Hinv Hk Hr Hg Hb Ha k' Hk'. rewrite !length_insert in Hk'.
  destruct (decide (k' = k)) as [->|Hne].
  - unfold pixel_ok, rd, fix15_one.
    lookup_inserts. cbn [default from_option]. unfold id. lia.
  - specialize (Hinv k' ltac:(lia)). unfold pixel_ok, rd in *.
    lookup_inserts. exact Hinv.
Qed.

(** Smudging and erasing keep a premultiplied buffer premultiplied. *)
Theorem Normal_and_Eraser_keeps_premultiplied (mask rgba : list Z)
  (color_r color_g color_b color_a opacity : Z) :
  mask_ok (length rgba) mask 0 = true ->
  Forall is_fix15 mask -> is_fix15 opacity -> is_fix15 color_a ->
  is_fix15 color_r -> is_fix15 color_g -> is_fix15 color_b ->
  premultiplied rgba ->
  exists rgba',
    draw_dab_pixels_BlendMode_Normal_and_Eraser mask rgba color_r color_g color_b
      color_a opacity = Some rgba' /\
    length rgba' = length rgba /\ premultiplied rgba'.
Proof.
  intros Hok Hmask Ho Hca Hr Hg Hb Hpre.
  unfold draw_dab_pixels_BlendMode_Normal_and_Eraser.
  refine (draw_dab_pixels_inv _ (length rgba) is_fix15 premultiplied
            _ mask Hmask 0%nat rgba Hok eq_refl Hpre).
  intros m k rg Hm Hk Hlen Hinv.
  rewrite BlendMode_Normal_and_Eraser_pixel_Some by lia. cbv zeta.
  eexists. split; [reflexivity|]. split; [rewrite !length_insert; exact Hlen|].
  unfold is_fix15, fix15_one in *.
  pose proof (opa_a_range m opacity Hm Ho) as Hopa.
  set (opa_a0 := u32 (m * opacity) / 2 ^ 15) in *.
  assert (Hoa : 0 <= u32 (opa_a0 * color_a) / 2 ^ 15 <= opa_a0).
  { rewrite u32_small by nia.
    split; [apply Z.div_pos; nia|]. apply Z.div_le_upper_bound; nia. }
  set (oa := u32 (opa_a0 * color_a) / 2 ^ 15) in *.
  rewrite (u32_small (2 ^ 15 - opa_a0)) by lia.
  destruct (Hinv k ltac:(lia)) as (Hr0 & Hg0 & Hb0 & Ha0). unfold fix15_one in Ha0.
  set (a := rd rg (4 * k + 3)) in *.
  assert (Hq : 0 <= (2 ^ 15 - opa_a0) * a / 2 ^ 15 <= 2 ^ 15 - opa_a0).
  { split; [apply Z.div_pos; nia|]. apply Z.div_le_upper_bound; nia. }
  rewrite (u32_small ((2 ^ 15 - opa_a0) * a)) by nia.
  rewrite (u32_small (oa + _)) by lia. rewrite (u16_small (oa + _)) by lia.
  apply premultiplied_update; try assumption; try lia;
    apply blend_val_bound; lia.
Qed.

Lemma Normal_and_Eraser_keeps_premultiplied_witness :
  exists rgba',
    draw_dab_pixels_BlendMode_Normal_and_Eraser example_mask example_rgba
      32768 0 100 20000 30000 = Some rgba' /\
    length rgba' = length example_rgba /\ premultiplied rgba'.
Proof.
  apply (Normal_and_Eraser_keeps_premultiplied example_mask example_rgba
           32768 0 100 20000 30000).
  - reflexivity.
  - apply example_mask_fix15.
  - unfold is_fix15, fix15_one. lia.
  - unfold is_fix15, fix15_one. lia.
  - unfold is_fix15, fix15_one. lia.
  - unfold is_fix15, fix15_one. lia.
  - unfold is_fix15, fix15_one. lia.
  - apply example_rgba_premultiplied.
Defined.

Lemma premultiplied_update_color (rg : list Z) (k : nat) (r g b : Z) :
  premultiplied rg -> (4 * k + 4 <= length rg)%nat ->
  0 <= r <= rd rg (4 * k + 3) -> 0 <= g <= rd rg (4 * k + 3) ->
  0 <= b <= rd rg (4 * k + 3) ->
  premultiplied (<[(4 * k + 2)%nat := b]> (<[(4 * k + 1)%nat := g]>
                   (<[(4 * k)%nat := r]> rg))).
Proof.
  intros Hinv Hk Hr Hg Hb.
  destruct (Hinv k ltac:(lia)) as (_ & _ & _ & Ha). unfold fix15_one in Ha.
  pose proof (premultiplied_update rg k r g b (rd rg (4 * k + 3)) Hinv Hk Hr Hg Hb Ha)
    as H.
  rewrite insert_rd_id in H. exact H.
Qed.

(** Painting with locked alpha keeps a premultiplied buffer
    premultiplied. *)
Theorem LockAlpha_keeps_premultiplied (mask rgba : list Z)
  (color_r color_g color_b opacity : Z) :
  mask_ok (length rgba) mask 0 = true ->
  Forall is_fix15 mask -> is_fix15 opacity ->
  is_fix15 color_r -> is_fix15 color_g -> is_fix15 color_b ->
  premultiplied rgba ->
  exists rgba',
    draw_dab_pixels_BlendMode_LockAlpha mask rgba color_r color_g color_b opacity
      = Some rgba' /\
    length rgba' = length rgba /\ premultiplied rgba'.
Proof.
  intros Hok Hmask Ho Hr Hg Hb Hpre.
  unfold draw_dab_pixels_BlendMode_LockAlpha.
  refine (draw_dab_pixels_inv _ (length rgba) is_fix15 premultiplied
            _ mask Hmask 0%nat rgba Hok eq_refl Hpre).
  intros m k rg Hm Hk Hlen Hinv.
  rewrite BlendMode_LockAlpha_pixel_cells by lia. cbv zeta.
  eexists. split; [reflexivity|]. split; [rewrite !length_insert; exact Hlen|].
  unfold is_fix15, fix15_one in *.
  pose proof (opa_a_range m opacity Hm Ho) as Hopa.
  set (opa_a0 := u32 (m * opacity) / 2 ^ 15) in *.
  destruct (Hinv k ltac:(lia)) as (Hr0 & Hg0 & Hb0 & Ha0). unfold fix15_one in Ha0.
  set (a := rd rg (4 * k + 3)) in *.
  assert (Hoa : 0 <= u32 (opa_a0 * a) / 2 ^ 15 <= opa_a0).
  { rewrite u32_small by nia.
    split; [apply Z.div_pos; nia|]. apply Z.div_le_upper_bound; nia. }
  assert (Hsum : u32 (opa_a0 * a) / 2 ^ 15 + (2 ^ 15 - opa_a0) * a / 2 ^ 15 <= a).
  { rewrite u32_small by nia.
    assert (H1 := Z.mul_div_le (opa_a0 * a) (2 ^ 15) ltac:(lia)).
    assert (H2 := Z.mul_div_le ((2 ^ 15 - opa_a0) * a) (2 ^ 15) ltac:(lia)).
    nia. }
  set (oa := u32 (opa_a0 * a) / 2 ^ 15) in *.
  rewrite (u32_small (2 ^ 15 - opa_a0)) by lia.
  pose proof (blend_val_bound oa (2 ^ 15 - opa_a0) color_r _ a
                ltac:(lia) ltac:(lia) ltac:(lia) Hr Hr0 Ha0).
  pose proof (blend_val_bound oa (2 ^ 15 - opa_a0) color_g _ a
                ltac:(lia) ltac:(lia) ltac:(lia) Hg Hg0 Ha0).
  pose proof (blend_val_bound oa (2 ^ 15 - opa_a0) color_b _ a
                ltac:(lia) ltac:(lia) ltac:(lia) Hb Hb0 Ha0).
  apply premultiplied_update_color; try assumption; fold a; lia.
Qed.

Lemma LockAlpha_keeps_premultiplied_witness :
  exists rgba',
    draw_dab_pixels_BlendMode_LockAlpha example_mask example_rgba 32768 0 100 30000
      = Some rgba' /\
    length rgba' = length example_rgba /\ premultiplied rgba'.
Proof.
  apply (LockAlpha_keeps_premultiplied example_mask example_rgba 32768 0 100 30000).
  - reflexivity.
  - apply example_mask_fix15.
  - unfold is_fix15, fix15_one. lia.
  - unfold is_fix15, fix15_one. lia.
  - unfold is_fix15, fix15_one. lia.
  - unfold is_fix15, fix15_one. lia.
  - apply example_rgba_premultiplied.
Defined.

(** ** Brush dab renderer: erasing and smudging *)

Lemma u16_range (x : Z) : is_u16 (u16 x).
Proof. unfold is_u16, u16. apply Z.mod_pos_bound. lia. Qed.

Lemma pixel_at_alpha (buf : list Z) (q : nat) (r g b a : Z) :
  pixel_at buf q = (r, g, b, a) -> rd buf (q + 3) = a.
Proof. unfold pixel_at. intros H. injection H as _ _ _ H. exact H. Qed.

(** Erasing where the mask and the opacity both are [1<<15] leaves the
    pixel transparent black. *)
Theorem eraser_full_strength_clears (mask rgba : list Z) (color_r color_g color_b : Z) :
  mask_ok (length rgba) mask 0 = true ->
  exists rgba',
    draw_dab_pixels_BlendMode_Normal_and_Eraser mask rgba color_r color_g color_b 0
      fix15_one = Some rgba' /\
    forall q, (q, fix15_one) ∈ mask_pixels mask 0 -> pixel_at rgba' q = (0, 0, 0, 0).
Proof.
  intros Hok.
  destruct (draw_dab_pixels_Normal_and_Eraser_walk mask rgba color_r color_g color_b
              0 fix15_one Hok) as (rgba' & Hrun & _ & Hpx & _).
  exists rgba'. split; [exact Hrun|]. intros q Hq.
  rewrite (Hpx q fix15_one Hq). unfold Normal_and_Eraser_px, pixel_at, fix15_one.
  change (u32 (2 ^ 15 * 2 ^ 15) / 2 ^ 15) with (2 ^ 15).
  change (u32 (2 ^ 15 - 2 ^ 15)) with 0.
  change (u32 (2 ^ 15 * 0) / 2 ^ 15) with 0.
  unfold blend_val. rewrite !Z.mul_0_l. reflexivity.
Qed.

Lemma eraser_full_strength_clears_witness :
  exists rgba',
    draw_dab_pixels_BlendMode_Normal_and_Eraser example_mask example_rgba 32768 0 100 0
      fix15_one = Some rgba' /\
    forall q, (q, fix15_one) ∈ mask_pixels example_mask 0 ->
      pixel_at rgba' q = (0, 0, 0, 0).
Proof.
  apply (eraser_full_strength_clears example_mask example_rgba 32768 0 100).
  reflexivity.
Defined.

(** Erasing never raises the alpha of a pixel. *)
Theorem eraser_never_raises_alpha (mask rgba : list Z)
  (color_r color_g color_b opacity : Z) :
  mask_ok (length rgba) mask 0 = true ->
  Forall is_fix15 mask -> is_fix15 opacity -> Forall is_u16 rgba ->
  exists rgba',
    draw_dab_pixels_BlendMode_Normal_and_Eraser mask rgba color_r color_g color_b 0
      opacity = Some rgba' /\
    forall k, rd rgba' (4 * k + 3) <= rd rgba (4 * k + 3).
Proof.
  intros Hok Hmask Ho Hu.
  unfold draw_dab_pixels_BlendMode_Normal_and_Eraser.
  destruct (draw_dab_pixels_inv
              (BlendMode_Normal_and_Eraser_pixel color_r color_g color_b 0 opacity)
              (length rgba) is_fix15
              (fun rg => Forall is_u16 rg /\
                         forall k, rd rg (4 * k + 3) <= rd rgba (4 * k + 3)))
    with (mask := mask) (k := 0%nat) (rgba := rgba)
    as (rgba' & Hrun & _ & _ & Hle); try assumption; try reflexivity.
  - intros m k rg Hm Hk Hlen [Hurg Hinv].
    rewrite BlendMode_Normal_and_Eraser_pixel_Some by lia. cbv zeta.
    eexists. split; [reflexivity|]. split; [rewrite !length_insert; exact Hlen|].
    split.
    + repeat (apply Forall_insert; [|apply u16_range]). exact Hurg.
    + intros k'. destruct (decide (k' = k)) as [->|Hne].
      * unfold rd at 1. lookup_inserts. cbn [default from_option]. unfold id.
        unfold is_fix15, fix15_one in *.
        pose proof (opa_a_range m opacity Hm Ho) as Hopa.
        set (opa_a0 := u32 (m * opacity) / 2 ^ 15) in *.
        rewrite Z.mul_0_r. change (u32 0 / 2 ^ 15) with 0. rewrite Z.add_0_l.
        rewrite (u32_small (2 ^ 15 - opa_a0)) by lia.
        assert (Ha : is_u16 (rd rg (4 * k + 3))) by (apply Forall_rd; [assumption|lia]).
        unfold is_u16 in Ha.
        assert (0 <= (2 ^ 15 - opa_a0) * rd rg (4 * k + 3) / 2 ^ 15 <= rd rg (4 * k + 3)).
        { split; [apply Z.div_pos; nia|]. apply Z.div_le_upper_bound; nia. }
        rewrite (u32_small ((2 ^ 15 - opa_a0) * _)) by nia.
        rewrite u32_small by lia. rewrite u16_small by lia.
        specialize (Hinv k). lia.
      * unfold rd at 1. lookup_inserts. apply Hinv.
  - split; [exact Hu|]. intros k. lia.
  - exists rgba'. split; [exact Hrun|]. exact Hle.
Qed.

Lemma eraser_never_raises_alpha_witness :
  exists rgba',
    draw_dab_pixels_BlendMode_Normal_and_Eraser example_mask example_rgba 32768 0 100 0
      30000 = Some rgba' /\
    forall k, rd rgba' (4 * k + 3) <= rd example_rgba (4 * k + 3).
Proof.
  apply (eraser_never_raises_alpha example_mask example_rgba 32768 0 100 30000).
  - reflexivity.
  - apply example_mask_fix15.
  - unfold is_fix15, fix15_one. lia.
  - apply example_rgba_u16.
Defined.

(** Smudging with [color_a] over a pixel of that same alpha leaves the
    alpha as it is, up to one unit of rounding downwards. *)
Theorem smudge_keeps_alpha (mask rgba : list Z)
  (color_r color_g color_b color_a opacity : Z) :
  mask_ok (length rgba) mask 0 = true ->
  Forall is_fix15 mask -> is_fix15 opacity -> is_fix15 color_a ->
  exists rgba',
    draw_dab_pixels_BlendMode_Normal_and_Eraser mask rgba color_r color_g color_b
      color_a opacity = Some rgba' /\
    forall q m, (q, m) ∈ mask_pixels mask 0 -> rd rgba (q + 3) = color_a ->
      color_a - 1 <= rd rgba' (q + 3) <= color_a.
Proof.
  intros Hok Hmask Ho Hca.
  destruct (draw_dab_pixels_Normal_and_Eraser_walk mask rgba color_r color_g color_b
              color_a opacity Hok) as (rgba' & Hrun & _ & Hpx & _).
  exists rgba'. split; [exact Hrun|]. intros q m Hq Ha.
  assert (Hm : is_fix15 m).
  { clear - Hq Hmask. revert Hq. generalize 0%nat.
    remember (length mask) as n eqn:Hn. revert mask Hn Hmask.
    induction n as [n IH] using lt_wf_ind. intros mask Hn Hmask p Hq. subst n.
    destruct mask as [|m0 mask']; [inversion Hq|].
    cbn [mask_pixels] in Hq. destruct (negb (m0 =? 0)).
    - apply elem_of_cons in Hq as [Heq|Hq].
      + injection Heq as -> ->. exact (Forall_inv Hmask).
      + apply (IH (length mask') ltac:(cbn [length]; lia) mask' eq_refl
                 (Forall_inv_tail Hmask) _ Hq).
    - destruct mask' as [|skip mask'']; [inversion Hq|].
      destruct (skip =? 0); [inversion Hq|].
      apply (IH (length mask'') ltac:(cbn [length]; lia) mask'' eq_refl
               (Forall_inv_tail (Forall_inv_tail Hmask)) _ Hq). }
  pose proof (Hpx q m Hq) as Hp. unfold pixel_at at 2 in Hp.
  unfold Normal_and_Eraser_px in Hp. apply pixel_at_alpha in Hp.
  rewrite Hp, Ha. unfold is_fix15, fix15_one in *.
  pose proof (opa_a_range m opacity Hm Ho) as Hopa.
  set (opa_a0 := u32 (m * opacity) / 2 ^ 15) in *.
  rewrite (u32_small (2 ^ 15 - opa_a0)) by lia.
  rewrite (u32_small (opa_a0 * color_a)) by nia.
  rewrite (u32_small ((2 ^ 15 - opa_a0) * color_a)) by nia.
  assert (H1 := Z.mul_div_le (opa_a0 * color_a) (2 ^ 15) ltac:(lia)).
  assert (H1' := Z.mul_succ_div_gt (opa_a0 * color_a) (2 ^ 15) ltac:(lia)).
  assert (H2 := Z.mul_div_le ((2 ^ 15 - opa_a0) * color_a) (2 ^ 15) ltac:(lia)).
  assert (H2' := Z.mul_succ_div_gt ((2 ^ 15 - opa_a0) * color_a) (2 ^ 15) ltac:(lia)).
  set (q1 := opa_a0 * color_a / 2 ^ 15) in *.
  set (q2 := (2 ^ 15 - opa_a0) * color_a / 2 ^ 15) in *.
  assert (0 <= q1) by (apply Z.div_pos; nia).
  assert (0 <= q2) by (apply Z.div_pos; nia).
  assert (color_a - 1 <= q1 + q2 <= color_a) by nia.
  rewrite u32_small by lia. rewrite u16_small by lia. lia.
Qed.

Lemma smudge_keeps_alpha_witness :
  exists rgba',
    draw_dab_pixels_BlendMode_Normal_and_Eraser example_mask example_rgba 32768 0 100
      400 30000 = Some rgba' /\
    forall q m, (q, m) ∈ mask_pixels example_mask 0 -> rd example_rgba (q + 3) = 400 ->
      400 - 1 <= rd rgba' (q + 3) <= 400.
Proof.
  apply (smudge_keeps_alpha example_mask example_rgba 32768 0 100 400 30000).
  - reflexivity.
  - apply example_mask_fix15.
  - unfold is_fix15, fix15_one. lia.
  - unfold is_fix15, fix15_one. lia.
Defined.

(** ** Overlay painting *)

Lemma quot_scale_bound (x y : Z) :
  Z.abs y <= 2 ^ 15 -> Z.abs (Z.quot (x * y) (2 ^ 15)) <= Z.abs x.
Proof.
  intros Hy. rewrite <- (Z.quot_abs (x * y) (2 ^ 15)) by lia.
  rewrite Z.abs_mul. change (Z.abs (2 ^ 15)) with (2 ^ 15).
  rewrite Z.quot_div_nonneg by lia.
  apply Z.div_le_upper_bound; [lia|].
  rewrite (Z.mul_comm (2 ^ 15)). apply Z.mul_le_mono_nonneg_l; lia.
Qed.

Ltac pass_assert :=
  match goal with
  | |- context [c_assert (?x <=? ?y)] =>
      replace (x <=? y) with true by (symmetry; apply Z.leb_le; lia)
  | |- context [c_assert (?x >=? ?y)] =>
      replace (x >=? y) with true by (symmetry; apply Z.geb_le; lia)
  end; cbn [c_assert mbind option_bind].

Lemma Overlay_effect_Some (rgba bg color : list Z) (opa_a : Z) (p bp i : nat)
  (c : list Z) (col : Z) :
  (p + 4 <= length rgba)%nat -> (bp + 3 <= length bg)%nat -> (i < 3)%nat ->
  0 <= rd rgba (p + i) <= rd rgba (p + 3) -> rd rgba (p + 3) <= 2 ^ 15 ->
  0 <= rd bg (bp + i) <= 2 ^ 15 -> color !! i = Some col -> 0 <= col <= 2 ^ 15 ->
  0 <= opa_a <= 2 ^ 15 ->
  exists v, Overlay_effect rgba bg color opa_a p bp i c = Some (<[i := v]> c) /\
            0 <= v <= 2 ^ 15.
Proof.
  intros Hp Hbp Hi Hr Ha Hb Hcol Hc Ho. unfold Overlay_effect.
  rewrite (lookup_rd rgba (p + i)), (lookup_rd rgba (p + 3)), (lookup_rd bg) by lia.
  rewrite Hcol. cbn [mbind option_bind].
  set (ri := rd rgba (p + i)) in *. set (a := rd rgba (p + 3)) in *.
  set (b := rd bg (bp + i)) in *. clearbody ri a b. clear Hp Hbp Hi Hcol.
  pass_assert. pass_assert.
  rewrite (i32_small (2 ^ 15 - a)) by lia.
  assert (Hq : 0 <= (2 ^ 15 - a) * b / 2 ^ 15 <= 2 ^ 15 - a).
  { split; [apply Z.div_pos; nia|]. apply Z.div_le_upper_bound; nia. }
  rewrite (i32_small ((2 ^ 15 - a) * b)) by nia.
  rewrite Z.quot_div_nonneg by nia.
  set (q := (2 ^ 15 - a) * b / 2 ^ 15) in *. clearbody q.
  rewrite (u32_small (ri + q)) by lia.
  set (ci := ri + q) in *. assert (Hci : 0 <= ci <= 2 ^ 15) by lia. clearbody ci.
  clear Hq Hr Ha Hb.
  pass_assert.
  change (Z.quot (2 ^ 15) 2) with 16384.
  set (tmp := if ci <? 16384 then u16 ci else u16 (u32 (2 ^ 15 - ci))).
  assert (Htmp : 0 <= tmp <= ci /\ tmp <= 2 ^ 15 - ci).
  { unfold tmp. destruct (Z.ltb_spec ci 16384).
    - rewrite u16_small by lia. lia.
    - rewrite u32_small by lia. rewrite u16_small by lia. lia. }
  clearbody tmp.
  pose proof (quot_scale_bound tmp (2 * col - 2 ^ 15) ltac:(lia)) as Hch.
  set (change := Z.quot (tmp * (2 * col - 2 ^ 15)) (2 ^ 15)) in *. clearbody change.
  pose proof (quot_scale_bound change opa_a ltac:(lia)) as Hq2.
  rewrite (Z.mul_comm change) in Hq2.
  set (q2 := Z.quot (opa_a * change) (2 ^ 15)) in *. clearbody q2.
  assert (Ht2 : 0 <= ci + q2 <= 2 ^ 15) by lia.
  pass_assert. pass_assert.
  eexists. split; [reflexivity|].
  pose proof (CLAMP_range (ci + q2) 0 (2 ^ 15) ltac:(lia)).
  rewrite u32_small by lia. assumption.
Qed.

Lemma Overlay_alpha_Some (bg c : list Z) (bp i : nat) (fa ci : Z) :
  (bp + 3 <= length bg)%nat -> (i < 3)%nat -> c !! i = Some ci ->
  is_fix15 ci -> is_fix15 (rd bg (bp + i)) -> is_fix15 fa ->
  Overlay_alpha bg c bp i fa = Some (Z.max fa (minimal_alpha ci (rd bg (bp + i)))).
Proof.
  intros Hbp Hi Hc Hci Hb Hfa. unfold Overlay_alpha, sdiv.
  rewrite Hc, (lookup_rd bg) by lia. cbn [mbind option_bind].
  pose proof (minimal_alpha_range ci _ Hci Hb) as Hm.
  set (b := rd bg (bp + i)) in *. clearbody b. clear Hbp Hi Hc.
  unfold is_fix15, fix15_one in *.
  rewrite (i32_small ci), (i32_small (ci - b)), (i32_small (2 ^ 15 - b)) by lia.
  unfold minimal_alpha in *.
  assert (Hgt : (ci - b >? 0) = (ci >? b)).
  { destruct (Z.gtb_spec (ci - b) 0), (Z.gtb_spec ci b); (reflexivity || lia). }
  assert (Hlt : (ci - b <? 0) = (ci <? b)).
  { destruct (Z.ltb_spec (ci - b) 0), (Z.ltb_spec ci b); (reflexivity || lia). }
  rewrite Hgt, Hlt.
  destruct (Z.gtb_spec ci b).
  - destruct (Z.eqb_spec (2 ^ 15 - b) 0); [lia|]. cbn [mbind option_bind].
    rewrite Z.quot_div_nonneg by lia.
    rewrite (u16_small (_ / _)) by lia. rewrite MAX_max.
    rewrite u16_small by lia. pass_assert. reflexivity.
  - destruct (Z.ltb_spec ci b).
    + destruct (Z.eqb_spec b 0); [lia|]. cbn [mbind option_bind].
      replace (- (ci - b)) with (b - ci) by lia.
      rewrite Z.quot_div_nonneg by lia.
      rewrite (u16_small (_ / _)) by lia. rewrite MAX_max.
      rewrite u16_small by lia. pass_assert. reflexivity.
    + cbn [mbind option_bind]. rewrite MAX_max.
      rewrite u16_small by lia. pass_assert. reflexivity.
Qed.

(** The colour that unflattening computes before it clamps. *)
Lemma unflatten_res_range (d b F : Z) :
  is_fix15 d -> is_fix15 b -> minimal_alpha d b <= F -> 0 <= F <= 2 ^ 15 ->
  -1 <= b * F / 2 ^ 15 + (d - b) <= F.
Proof.
  unfold is_fix15, fix15_one, minimal_alpha. intros Hd Hb Hm HF.
  assert (Hq2 := Z.mul_div_le (b * F) (2 ^ 15) ltac:(lia)).
  assert (Hq2' := Z.mul_succ_div_gt (b * F) (2 ^ 15) ltac:(lia)).
  set (q2 := b * F / 2 ^ 15) in *.
  assert (Hq2r : 0 <= q2 <= F).
  { split; [apply Z.div_pos; nia|]. apply Z.div_le_upper_bound; nia. }
  clearbody q2.
  destruct (Z.gtb_spec d b) as [Hgt|Hgt].
  - assert (Hm1 := Z.mul_succ_div_gt ((d - b) * 2 ^ 15) (2 ^ 15 - b) ltac:(lia)).
    set (ma := (d - b) * 2 ^ 15 / (2 ^ 15 - b)) in *. clearbody ma.
    assert (Hx : (2 ^ 15 - b) * Z.succ ma <= (2 ^ 15 - b) * (F + 1))
      by (apply Z.mul_le_mono_nonneg_l; lia).
    lia.
  - destruct (Z.ltb_spec d b) as [Hlt|Hlt]; [|lia].
    assert (Hm1 := Z.mul_succ_div_gt ((b - d) * 2 ^ 15) b ltac:(lia)).
    set (ma := (b - d) * 2 ^ 15 / b) in *. clearbody ma.
    assert (Hx : b * Z.succ ma <= b * (F + 1))
      by (apply Z.mul_le_mono_nonneg_l; lia).
    lia.
Qed.

Lemma Overlay_color_Some (bg c : list Z) (p bp : nat) (fa : Z) (i : nat)
  (rgba : list Z) (ci : Z) :
  (p + 4 <= length rgba)%nat -> (bp + 3 <= length bg)%nat -> (i < 3)%nat ->
  c !! i = Some ci -> is_fix15 ci -> is_fix15 (rd bg (bp + i)) ->
  minimal_alpha ci (rd bg (bp + i)) <= fa -> 0 <= fa <= 2 ^ 15 ->
  rd rgba (p + 3) = fa ->
  exists v, Overlay_color bg c p bp fa i rgba = Some (<[(p + i)%nat := v]> rgba) /\
            0 <= v <= fa.
Proof.
  intros Hp Hbp Hi Hc Hci Hb Hm Hfa Ha. unfold Overlay_color.
  rewrite Hc, (lookup_rd bg) by lia. cbn [mbind option_bind].
  pose proof (unflatten_res_range ci _ fa Hci Hb Hm Hfa) as Hres.
  set (b := rd bg (bp + i)) in *. clearbody b. clear Hbp Hc Hm.
  unfold is_fix15, fix15_one in *.
  rewrite (i32_small ci), (i32_small (ci - b)) by lia.
  rewrite (u32_small (b * fa)) by nia.
  set (res := b * fa / 2 ^ 15 + (ci - b)) in *. clearbody res.
  pass_assert. pass_assert.
  rewrite store16_Some by lia. cbn [mbind option_bind].
  rewrite list_lookup_insert_eq by lia.
  rewrite list_lookup_insert_ne by lia.
  rewrite (lookup_rd rgba) by lia. rewrite Ha. cbn [mbind option_bind].
  assert (Hv : 0 <= u16 (CLAMP res 0 (2 ^ 15)) <= fa).
  { pose proof (CLAMP_range res 0 (2 ^ 15) ltac:(lia)).
    rewrite u16_small by lia. unfold CLAMP.
    destruct (Z.gtb_spec res (2 ^ 15)); [lia|].
    destruct (Z.ltb_spec res 0); lia. }
  pass_assert. eexists. split; [reflexivity | exact Hv].
Qed.

Lemma BlendMode_Overlay_pixel_Some (bg : list Z) (color_r color_g color_b opacity m : Z)
  (p bp : nat) (rgba : list Z) :
  (p + 4 <= length rgba)%nat -> (bp + 3 <= length bg)%nat ->
  (forall i, (i < 3)%nat -> 0 <= rd rgba (p + i) <= rd rgba (p + 3)) ->
  rd rgba (p + 3) <= 2 ^ 15 ->
  (forall i, (i < 3)%nat -> is_fix15 (rd bg (bp + i))) ->
  is_fix15 color_r -> is_fix15 color_g -> is_fix15 color_b ->
  is_fix15 m -> is_fix15 opacity ->
  exists r g b fa,
    BlendMode_Overlay_pixel bg [color_r; color_g; color_b] opacity m p bp rgba =
      Some (<[(p + 2)%nat := b]> (<[(p + 1)%nat := g]> (<[(p + 0)%nat := r]>
              (<[(p + 3)%nat := fa]> rgba)))) /\
    0 <= r <= fa /\ 0 <= g <= fa /\ 0 <= b <= fa /\ fa <= 2 ^ 15.
Proof.
  intros Hp Hbp Hpx Ha Hbg Hcr Hcg Hcb Hm Ho. unfold BlendMode_Overlay_pixel.
  assert (Hopa : 0 <= u32 (m * opacity) / 2 ^ 15 <= 2 ^ 15).
  { unfold is_fix15, fix15_one in Hm, Ho. rewrite u32_small by nia.
    split; [apply Z.div_pos; nia|]. apply Z.div_le_upper_bound; nia. }
  set (opa_a := u32 (m * opacity) / 2 ^ 15) in *. clearbody opa_a.
  pose proof (Hbg 0%nat ltac:(lia)) as Hb0. pose proof (Hbg 1%nat ltac:(lia)) as Hb1.
  pose proof (Hbg 2%nat ltac:(lia)) as Hb2.
  cbn [for_loop].
  destruct (Overlay_effect_Some rgba bg [color_r; color_g; color_b] opa_a p bp 0
              [0; 0; 0] color_r Hp Hbp ltac:(lia) (Hpx 0%nat ltac:(lia)) Ha Hb0
              eq_refl Hcr Hopa) as (c0 & -> & Hc0).
  cbn [mbind option_bind].
  destruct (Overlay_effect_Some rgba bg [color_r; color_g; color_b] opa_a p bp 1
              (<[0%nat := c0]> [0; 0; 0]) color_g Hp Hbp ltac:(lia)
              (Hpx 1%nat ltac:(lia)) Ha Hb1 eq_refl Hcg Hopa) as (c1 & -> & Hc1).
  cbn [mbind option_bind].
  destruct (Overlay_effect_Some rgba bg [color_r; color_g; color_b] opa_a p bp 2
              (<[1%nat := c1]> (<[0%nat := c0]> [0; 0; 0])) color_b Hp Hbp ltac:(lia)
              (Hpx 2%nat ltac:(lia)) Ha Hb2 eq_refl Hcb Hopa) as (c2 & -> & Hc2).
  cbn [mbind option_bind].
  change (<[2%nat := c2]> (<[1%nat := c1]> (<[0%nat := c0]> [0; 0; 0])))
    with [c0; c1; c2].
  rewrite (lookup_rd rgba (p + 3)) by lia. cbn [mbind option_bind].
  assert (Ha0 : is_fix15 (rd rgba (p + 3))).
  { pose proof (Hpx 0%nat ltac:(lia)). unfold is_fix15, fix15_one. lia. }
  pose proof (minimal_alpha_range c0 _ Hc0 Hb0) as Hm0.
  pose proof (minimal_alpha_range c1 _ Hc1 Hb1) as Hm1.
  pose proof (minimal_alpha_range c2 _ Hc2 Hb2) as Hm2.
  rewrite (Overlay_alpha_Some bg [c0; c1; c2] bp 0 _ c0 Hbp ltac:(lia) eq_refl Hc0 Hb0 Ha0).
  cbn [mbind option_bind].
  set (fa0 := Z.max (rd rgba (p + 3)) (minimal_alpha c0 (rd bg (bp + 0)))).
  assert (Hfa0 : is_fix15 fa0) by (unfold is_fix15, fix15_one in *; lia).
  rewrite (Overlay_alpha_Some bg [c0; c1; c2] bp 1 _ c1 Hbp ltac:(lia) eq_refl Hc1 Hb1 Hfa0).
  cbn [mbind option_bind].
  set (fa1 := Z.max fa0 (minimal_alpha c1 (rd bg (bp + 1)))).
  assert (Hfa1 : is_fix15 fa1) by (unfold is_fix15, fix15_one in *; lia).
  rewrite (Overlay_alpha_Some bg [c0; c1; c2] bp 2 _ c2 Hbp ltac:(lia) eq_refl Hc2 Hb2 Hfa1).
  cbn [mbind option_bind].
  set (fa := Z.max fa1 (minimal_alpha c2 (rd bg (bp + 2)))).
  assert (Hfa : 0 <= fa <= 2 ^ 15) by (unfold is_fix15, fix15_one in *; lia).
  assert (Hge : minimal_alpha c0 (rd bg (bp + 0)) <= fa /\
                minimal_alpha c1 (rd bg (bp + 1)) <= fa /\
                minimal_alpha c2 (rd bg (bp + 2)) <= fa /\ rd rgba (p + 3) <= fa)
    by lia.
  destruct Hge as (Hg0 & Hg1 & Hg2 & Hga).
  clearbody fa. clear fa0 fa1 Hfa0 Hfa1 Hm0 Hm1 Hm2.
  rewrite store16_Some by lia. cbn [mbind option_bind].
  rewrite (u16_small fa) by lia.
  destruct (Z.gtb_spec fa 0) as [Hpos|Hzero].
  - set (rg0 := <[(p + 3)%nat := fa]> rgba).
    assert (Hl0 : (p + 4 <= length rg0)%nat) by (unfold rg0; rewrite length_insert; lia).
    assert (Hrd0 : rd rg0 (p + 3) = fa).
    { unfold rg0, rd. rewrite list_lookup_insert_eq by lia. reflexivity. }
    destruct (Overlay_color_Some bg [c0; c1; c2] p bp fa 0 rg0 c0 Hl0 Hbp ltac:(lia)
                eq_refl Hc0 Hb0 Hg0 Hfa Hrd0) as (r & -> & Hr).
    cbn [mbind option_bind].
    set (rg1 := <[(p + 0)%nat := r]> rg0).
    assert (Hl1 : (p + 4 <= length rg1)%nat) by (unfold rg1; rewrite length_insert; lia).
    assert (Hrd1 : rd rg1 (p + 3) = fa).
    { unfold rg1, rd. rewrite list_lookup_insert_ne by lia. exact Hrd0. }
    destruct (Overlay_color_Some bg [c0; c1; c2] p bp fa 1 rg1 c1 Hl1 Hbp ltac:(lia)
                eq_refl Hc1 Hb1 Hg1 Hfa Hrd1) as (g & -> & Hg).
    cbn [mbind option_bind].
    set (rg2 := <[(p + 1)%nat := g]> rg1).
    assert (Hl2 : (p + 4 <= length rg2)%nat) by (unfold rg2; rewrite length_insert; lia).
    assert (Hrd2 : rd rg2 (p + 3) = fa).
    { unfold rg2, rd. rewrite list_lookup_insert_ne by lia. exact Hrd1. }
    destruct (Overlay_color_Some bg [c0; c1; c2] p bp fa 2 rg2 c2 Hl2 Hbp ltac:(lia)
                eq_refl Hc2 Hb2 Hg2 Hfa Hrd2) as (b & -> & Hb).
    exists r, g, b, fa. split; [reflexivity|]. lia.
  - assert (fa = 0) by lia. subst fa.
    exists 0, 0, 0, 0. split; [|lia]. f_equal.
    assert (Hz : forall i, (i < 3)%nat -> rgba !! (p + i)%nat = Some 0).
    { intros i Hi. rewrite lookup_rd by lia. f_equal.
      pose proof (Hpx i Hi). lia. }
    symmetry.
    rewrite (list_insert_id _ (p + 0)%nat 0)
      by (rewrite list_lookup_insert_ne by lia; apply Hz; lia).
    rewrite (list_insert_id _ (p + 1)%nat 0)
      by (rewrite list_lookup_insert_ne by lia; apply Hz; lia).
    rewrite (list_insert_id _ (p + 2)%nat 0)
      by (rewrite list_lookup_insert_ne by lia; apply Hz; lia).
    reflexivity.
Qed.

Section DabWalkBg.
Variable body : Z -> nat -> nat -> list Z -> option (list Z).
Variable len : nat.
Variable Pm : Z -> Prop.
Variable Inv : list Z -> Prop.
Hypothesis Hbody : forall m k rgba,
  Pm m -> (4 * k + 4 <= len)%nat -> length rgba = len -> Inv rgba ->
  exists rgba', body m (4 * k)%nat (3 * k)%nat rgba = Some rgba' /\
    length rgba' = len /\ Inv rgba'.

Lemma draw_dab_pixels_bg_inv (mask : list Z) :
  Forall Pm mask ->
  forall (k : nat) (rgba : list Z),
    mask_ok len mask (4 * k) = true -> length rgba = len -> Inv rgba ->
    exists rgba', draw_dab_pixels_bg body mask (4 * k) (3 * k) rgba = Some rgba' /\
      length rgba' = len /\ Inv rgba'.
Proof.
  remember (length mask) as n eqn:Hn. revert mask Hn.
  induction n as [n IH] using lt_wf_ind.
  intros mask Hn HPm k rgba Hok Hlen Hinv. subst n.
  destruct mask as [|m mask']; [discriminate|].
  cbn [mask_ok draw_dab_pixels_bg] in *.
  destruct (negb (m =? 0)).
  - apply andb_prop in Hok as [Hb Hok]. apply Nat.leb_le in Hb.
    destruct (Hbody m k rgba) as (rgba1 & -> & Hlen1 & Hinv1);
      [exact (Forall_inv HPm) | exact Hb | exact Hlen | exact Hinv |].
    cbn [mbind option_bind].
    replace (4 * k + 4)%nat with (4 * (k + 1))%nat in * by lia.
    replace (3 * k + 3)%nat with (3 * (k + 1))%nat by lia.
    apply (IH (length mask')); [cbn [length]; lia | reflexivity
                               | exact (Forall_inv_tail HPm) | assumption ..].
  - destruct mask' as [|skip mask'']; [discriminate|].
    destruct (skip =? 0).
    + exists rgba. auto.
    + apply andb_prop in Hok as [Hs Hok]. apply Z.eqb_eq in Hs.
      assert (Hk : (4 * k + Z.to_nat skip = 4 * (k + Z.to_nat skip / 4))%nat).
      { assert (Z.to_nat skip mod 4 = 0)%nat; [|lia].
        destruct (Z.le_gt_cases 0 skip); [|lia].
        apply Nat2Z.inj. rewrite Nat2Z.inj_mod, Z2Nat.id by lia. exact Hs. }
      assert (Hk3 : (3 * k + Z.to_nat (skip / 4 * 3) = 3 * (k + Z.to_nat skip / 4))%nat).
      { destruct (Z.le_gt_cases 0 skip) as [Hpos|Hneg].
        - apply Nat2Z.inj. rewrite !Nat2Z.inj_add, !Nat2Z.inj_mul, Nat2Z.inj_add.
          rewrite Nat2Z.inj_div, !Z2Nat.id by (try apply Z.mul_nonneg_nonneg;
            try apply Z.div_pos; lia). lia.
        - assert (skip / 4 < 0) by (apply Z.div_lt_upper_bound; lia).
          replace (Z.to_nat skip) with 0%nat by lia.
          replace (Z.to_nat (skip / 4 * 3)) with 0%nat by lia.
          cbn. lia. }
      rewrite Hk in *. rewrite Hk3.
      apply (IH (length mask'')); [cbn [length]; lia | reflexivity | | assumption ..].
      exact (Forall_inv_tail (Forall_inv_tail HPm)).
Qed.
End DabWalkBg.

(** Overlay painting of a premultiplied buffer over a background with
    cells in [0 .. 1<<15] returns: no assertion of the source fails, no
    division is by zero, and the buffer stays premultiplied. *)
Theorem Overlay_keeps_premultiplied (mask rgba bg : list Z)
  (color_r color_g color_b opacity : Z) :
  mask_ok (length rgba) mask 0 = true ->
  Forall is_fix15 mask -> is_fix15 opacity ->
  is_fix15 color_r -> is_fix15 color_g -> is_fix15 color_b ->
  premultiplied rgba -> Forall is_fix15 bg ->
  (3 * length rgba <= 4 * length bg)%nat ->
  exists rgba',
    draw_dab_pixels_BlendMode_Overlay mask rgba bg color_r color_g color_b opacity
      = Some rgba' /\
    length rgba' = length rgba /\ premultiplied rgba'.
Proof.
  intros Hok Hmask Ho Hr Hg Hb Hpre Hbg Hlen.
  unfold draw_dab_pixels_BlendMode_Overlay. cbv zeta.
  refine (draw_dab_pixels_bg_inv _ (length rgba) is_fix15 premultiplied
            _ mask Hmask 0%nat rgba Hok eq_refl Hpre).
  intros m k rg Hm Hk Hrl Hinv.
  destruct (Hinv k ltac:(lia)) as (Hr0 & Hg0 & Hb0 & Ha0). unfold fix15_one in Ha0.
  destruct (BlendMode_Overlay_pixel_Some bg color_r color_g color_b opacity m
              (4 * k) (3 * k) rg)
    as (r & g & b & fa & Hrun & Hrr & Hgr & Hbr & Hfa);
    try assumption; try lia.
  - intros i Hi. destruct i as [|[|[|i]]]; rewrite ?Nat.add_0_r; (assumption || lia).
  - intros i Hi. apply Forall_rd; [assumption | lia].
  - rewrite Hrun. eexists. split; [reflexivity|].
    split; [rewrite !length_insert; exact Hrl|].
    rewrite Nat.add_0_r.
    apply premultiplied_update; (assumption || lia).
Qed.

Lemma Overlay_keeps_premultiplied_witness :
  exists rgba',
    draw_dab_pixels_BlendMode_Overlay example_mask example_rgba
      [100; 200; 300; 0; 0; 0; 5; 6; 7; 32768; 0; 16384] 32768 0 100 30000
      = Some rgba' /\
    length rgba' = length example_rgba /\ premultiplied rgba'.
Proof.
  apply (Overlay_keeps_premultiplied example_mask example_rgba
           [100; 200; 300; 0; 0; 0; 5; 6; 7; 32768; 0; 16384] 32768 0 100 30000).
  - reflexivity.
  - apply example_mask_fix15.
  - unfold is_fix15, fix15_one. lia.
  - unfold is_fix15, fix15_one. lia.
  - unfold is_fix15, fix15_one. lia.
  - unfold is_fix15, fix15_one. lia.
  - apply example_rgba_premultiplied.
  - repeat constructor; unfold is_fix15, fix15_one; lia.
  - cbn [length example_rgba]. lia.
Defined.

(** ** Colour picking *)

Lemma pixels_weight_cons (q : nat) (m : Z) (px : list (nat * Z)) :
  pixels_weight ((q, m) :: px) = m + pixels_weight px.
Proof. reflexivity. Qed.

Lemma pixels_sum_cons (rgba : list Z) (c q : nat) (m : Z) (px : list (nat * Z)) :
  pixels_sum rgba c ((q, m) :: px) = m * rd rgba (q + c) / 2 ^ 15 + pixels_sum rgba c px.
Proof. reflexivity. Qed.

Lemma weighted_cell_range (m v : Z) :
  is_fix15 m -> is_u16 v -> 0 <= m * v < 2 ^ 32 /\ 0 <= m * v / 2 ^ 15 < 2 ^ 16.
Proof.
  unfold is_fix15, fix15_one, is_u16. intros Hm Hv.
  split; [nia|]. split; [apply Z.div_pos; nia|].
  apply Z.div_lt_upper_bound; nia.
Qed.

Lemma get_color_pixel_Some (m : Z) (p : nat) (rgba : list Z) (w r g b a : Z) :
  (p + 4 <= length rgba)%nat -> Z.of_nat (length rgba) <= 2 ^ 14 ->
  is_fix15 m -> Forall is_u16 rgba ->
  0 <= w <= Z.of_nat p * 2 ^ 13 -> 0 <= r <= Z.of_nat p * 2 ^ 14 ->
  0 <= g <= Z.of_nat p * 2 ^ 14 -> 0 <= b <= Z.of_nat p * 2 ^ 14 ->
  0 <= a <= Z.of_nat p * 2 ^ 14 ->
  get_color_pixel m p rgba (w, r, g, b, a) =
    Some (w + m, r + m * rd rgba (p + 0) / 2 ^ 15, g + m * rd rgba (p + 1) / 2 ^ 15,
          b + m * rd rgba (p + 2) / 2 ^ 15, a + m * rd rgba (p + 3) / 2 ^ 15).
Proof.
  intros Hp Hlen Hm Hu Hw Hr Hg Hb Ha.
  assert (Hp' : Z.of_nat p + 4 <= 16384) by lia.
  unfold get_color_pixel. rewrite Nat.add_0_r.
  rewrite !lookup_rd by lia. cbn [mbind option_bind].
  assert (H0 : is_u16 (rd rgba p)) by (apply Forall_rd; [assumption | lia]).
  assert (H1 : is_u16 (rd rgba (p + 1))) by (apply Forall_rd; [assumption | lia]).
  assert (H2 : is_u16 (rd rgba (p + 2))) by (apply Forall_rd; [assumption | lia]).
  assert (H3 : is_u16 (rd rgba (p + 3))) by (apply Forall_rd; [assumption | lia]).
  destruct (weighted_cell_range m _ Hm H0) as [P0 Q0].
  destruct (weighted_cell_range m _ Hm H1) as [P1 Q1].
  destruct (weighted_cell_range m _ Hm H2) as [P2 Q2].
  destruct (weighted_cell_range m _ Hm H3) as [P3 Q3].
  unfold is_fix15, fix15_one in Hm. clear Hu Hlen Hp H0 H1 H2 H3.
  rewrite !(u32_small (m * _)) by assumption.
  rewrite !u32_small by lia. reflexivity.
Qed.

Lemma get_color_pixels_sums (rgba : list Z) :
  Z.of_nat (length rgba) <= 2 ^ 14 -> Forall is_u16 rgba ->
  forall (mask : list Z) (p : nat) (w r g b a : Z),
    mask_ok (length rgba) mask p = true -> Forall is_fix15 mask ->
    0 <= w <= Z.of_nat p * 2 ^ 13 -> 0 <= r <= Z.of_nat p * 2 ^ 14 ->
    0 <= g <= Z.of_nat p * 2 ^ 14 -> 0 <= b <= Z.of_nat p * 2 ^ 14 ->
    0 <= a <= Z.of_nat p * 2 ^ 14 ->
    get_color_pixels mask p rgba (w, r, g, b, a) =
      Some (w + pixels_weight (mask_pixels mask p),
            r + pixels_sum rgba 0 (mask_pixels mask p),
            g + pixels_sum rgba 1 (mask_pixels mask p),
            b + pixels_sum rgba 2 (mask_pixels mask p),
            a + pixels_sum rgba 3 (mask_pixels mask p)).
Proof.
  intros Hlen Hu mask. remember (length mask) as n eqn:Hn. revert mask Hn.
  induction n as [n IH] using lt_wf_ind.
  intros mask Hn p w r g b a Hok Hmask Hw Hr Hg Hb Ha. subst n. cbv zeta.
  destruct mask as [|m0 mask']; [discriminate|].
  cbn [mask_ok get_color_pixels mask_pixels] in *.
  destruct (negb (m0 =? 0)).
  - apply andb_prop in Hok as [Hp Hok]. apply Nat.leb_le in Hp.
    pose proof (Forall_inv Hmask) as Hm0.
    rewrite get_color_pixel_Some by assumption. cbn [mbind option_bind].
    assert (H0 : is_u16 (rd rgba (p + 0))) by (apply Forall_rd; [assumption | lia]).
    assert (H1 : is_u16 (rd rgba (p + 1))) by (apply Forall_rd; [assumption | lia]).
    assert (H2 : is_u16 (rd rgba (p + 2))) by (apply Forall_rd; [assumption | lia]).
    assert (H3 : is_u16 (rd rgba (p + 3))) by (apply Forall_rd; [assumption | lia]).
    destruct (weighted_cell_range m0 _ Hm0 H0) as [_ Q0].
    destruct (weighted_cell_range m0 _ Hm0 H1) as [_ Q1].
    destruct (weighted_cell_range m0 _ Hm0 H2) as [_ Q2].
    destruct (weighted_cell_range m0 _ Hm0 H3) as [_ Q3].
    unfold is_fix15, fix15_one in Hm0.
    assert (Hp4 : Z.of_nat (p + 4) = Z.of_nat p + 4) by lia.
    rewrite (IH (length mask') ltac:(cbn [length]; lia) mask' eq_refl (p + 4)%nat
               (w + m0) (r + m0 * rd rgba (p + 0) / 2 ^ 15)
               (g + m0 * rd rgba (p + 1) / 2 ^ 15) (b + m0 * rd rgba (p + 2) / 2 ^ 15)
               (a + m0 * rd rgba (p + 3) / 2 ^ 15) Hok (Forall_inv_tail Hmask));
      try (rewrite Hp4; clear - Hw Hr Hg Hb Ha Hm0 Q0 Q1 Q2 Q3; lia).
    rewrite pixels_weight_cons, !pixels_sum_cons, !Z.add_assoc. reflexivity.
  - destruct mask' as [|skip mask'']; [discriminate|].
    destruct (Z.eqb_spec skip 0) as [Hs|Hs].
    + unfold pixels_weight, pixels_sum. cbn [foldr]. rewrite !Z.add_0_r. reflexivity.
    + apply andb_prop in Hok as [_ Hok].
      pose proof (Forall_inv (Forall_inv_tail Hmask)) as Hsk.
      unfold is_fix15 in Hsk.
      assert (Hps : Z.of_nat p <= Z.of_nat (p + Z.to_nat skip)) by lia.
      apply (IH (length mask'') ltac:(cbn [length]; lia) mask'' eq_refl);
        [exact Hok | exact (Forall_inv_tail (Forall_inv_tail Hmask)) | ..];
        clear - Hps Hw Hr Hg Hb Ha; set (P' := Z.of_nat (p + Z.to_nat skip)) in *; lia.
Qed.

(** Over one tile the five 32 bit accumulators never wrap: what is
    added to the float sums are the exact sums over the visited pixels,
    as the comment in the source states. *)
Theorem get_color_sums_exact (float : Type) (float_of_uint32 : Z -> float)
  (float_add : float -> float -> float) (mask rgba : list Z)
  (sum_weight sum_r sum_g sum_b sum_a : float) :
  (length rgba <= tile_cells)%nat -> Forall is_u16 rgba ->
  mask_ok (length rgba) mask 0 = true -> Forall is_fix15 mask ->
  let px := mask_pixels mask 0 in
  get_color_pixels_accumulate float float_of_uint32 float_add mask rgba
    (sum_weight, sum_r, sum_g, sum_b, sum_a) =
    Some (float_add sum_weight (float_of_uint32 (pixels_weight px)),
          float_add sum_r (float_of_uint32 (pixels_sum rgba 0 px)),
          float_add sum_g (float_of_uint32 (pixels_sum rgba 1 px)),
          float_add sum_b (float_of_uint32 (pixels_sum rgba 2 px)),
          float_add sum_a (float_of_uint32 (pixels_sum rgba 3 px))).
Proof.
  intros Hlen Hu Hok Hmask. cbv zeta. unfold get_color_pixels_accumulate.
  assert (Hlen' : Z.of_nat (length rgba) <= 2 ^ 14).
  { revert Hlen. generalize (length rgba). clear. intros n Hn. tile_facts. lia. }
  rewrite (get_color_pixels_sums rgba Hlen' Hu mask 0 0 0 0 0 0 Hok Hmask)
    by (change (Z.of_nat 0) with 0; clear; lia).
  cbn [mbind option_bind]. rewrite !Z.add_0_l. reflexivity.
Qed.

Lemma get_color_sums_exact_witness :
  get_color_pixels_accumulate Z (fun n => n) Z.add example_mask example_rgba
    (1, 2, 3, 4, 5) =
    Some (1 + 57344, 2 + 8292, 3 + 200, 4 + 4396, 5 + 8592).
Proof.
  refine (get_color_sums_exact Z (fun n => n) Z.add example_mask example_rgba
            1 2 3 4 5 _ _ _ _).
  - cbn [example_rgba length]. clear. tile_facts. lia.
  - apply example_rgba_u16.
  - reflexivity.
  - apply example_mask_fix15.
Defined.

(** ** Flatten and unflatten: further properties *)

Lemma color_val_range (d b F : Z) : 0 <= F <= 2 ^ 15 -> 0 <= color_val d b F <= F.
Proof.
  intros HF. unfold color_val. destruct (Z.gtb_spec F 0); [|lia].
  pose proof (CLAMP_range (u32 (b * F) / 2 ^ 15 + i32 (d - b)) 0 F ltac:(lia)).
  rewrite u16_small by lia. lia.
Qed.

Lemma minimal_alpha_pos (d b : Z) :
  is_fix15 d -> is_fix15 b -> d <> b -> 1 <= minimal_alpha d b.
Proof.
  unfold is_fix15, fix15_one, minimal_alpha. intros Hd Hb Hne.
  destruct (Z.gtb_spec d b).
  - apply Z.div_le_lower_bound; nia.
  - destruct (Z.ltb_spec d b); [|lia]. apply Z.div_le_lower_bound; nia.
Qed.

Lemma unflatten_channel (d b F : Z) :
  is_fix15 d -> is_fix15 b -> minimal_alpha d b <= F -> F <= 2 ^ 15 ->
  d - 1 <= flat_channel (color_val d b F) F b <= d.
Proof.
  intros Hd Hb Hm HF.
  pose proof (minimal_alpha_range d b Hd Hb) as Hmr.
  assert (HF0 : 0 <= F <= 2 ^ 15) by (unfold is_fix15 in Hmr; lia).
  pose proof (color_val_range d b F HF0) as Hcr.
  assert (Hbb : 0 <= b <= 2 ^ 15) by exact Hb.
  destruct (flat_channel_exact (color_val d b F) F b) as [-> _]; [lia | lia | lia |].
  clear Hcr. unfold color_val.
  destruct (Z.gtb_spec F 0) as [HFp|HFz].
  - unfold is_fix15, fix15_one in *.
    assert (Hq1 := Z.mul_div_le ((2 ^ 15 - F) * b) (2 ^ 15) ltac:(lia)).
    assert (Hq1' := Z.mul_succ_div_gt ((2 ^ 15 - F) * b) (2 ^ 15) ltac:(lia)).
    assert (Hq2 := Z.mul_div_le (b * F) (2 ^ 15) ltac:(lia)).
    assert (Hq2' := Z.mul_succ_div_gt (b * F) (2 ^ 15) ltac:(lia)).
    set (q1 := (2 ^ 15 - F) * b / 2 ^ 15) in *.
    set (q2 := b * F / 2 ^ 15) in *.
    assert (0 <= q1 <= 2 ^ 15 - F).
    { split; [apply Z.div_pos; nia|]. apply Z.div_le_upper_bound; nia. }
    assert (0 <= q2 <= F).
    { split; [apply Z.div_pos; nia|]. apply Z.div_le_upper_bound; nia. }
    rewrite (u32_small (b * F)) by nia. fold q2.
    rewrite i32_small by lia.
    assert (Hsum : b - 1 <= q1 + q2 <= b) by (clear - Hq1 Hq1' Hq2 Hq2'; lia).
    pose proof (CLAMP_range (q2 + (d - b)) 0 F ltac:(lia)).
    rewrite u16_small by lia.
    unfold minimal_alpha in Hm.
    unfold CLAMP.
    destruct (Z.gtb_spec (q2 + (d - b)) F) as [Hup|Hup].
    + (* the upper clamp is never active *)
      exfalso. destruct (Z.gtb_spec d b) as [Hgt|Hgt]; [|lia].
      assert (Hm1 := Z.mul_succ_div_gt ((d - b) * 2 ^ 15) (2 ^ 15 - b) ltac:(lia)).
      set (ma := (d - b) * 2 ^ 15 / (2 ^ 15 - b)) in *.
      assert (Hx : (2 ^ 15 - b) * Z.succ ma <= (2 ^ 15 - b) * (F + 1))
        by (apply Z.mul_le_mono_nonneg_l; lia).
      clear - Hup Hq2 Hm1 Hx Hbb. lia.
    + destruct (Z.ltb_spec (q2 + (d - b)) 0) as [Hlo|Hlo]; [|lia].
      (* the lower clamp takes -1 to 0 *)
      destruct (Z.gtb_spec d b) as [Hgt|Hgt]; [lia|].
      destruct (Z.ltb_spec d b) as [Hlt|Hlt]; [|lia].
      assert (Hm1 := Z.mul_succ_div_gt ((b - d) * 2 ^ 15) b ltac:(lia)).
      set (ma := (b - d) * 2 ^ 15 / b) in *.
      assert (Hx : b * Z.succ ma <= b * (F + 1))
        by (apply Z.mul_le_mono_nonneg_l; lia).
      clear - Hx Hm1 Hq1 Hq1' Hq2 Hq2' Hlo Hbb Hsum. lia.
  - assert (F = 0) by lia. subst F.
    destruct (Z.eq_dec d b) as [->|Hne].
    + rewrite Z.sub_0_r, (Z.mul_comm (2 ^ 15)), Z.div_mul by lia. lia.
    + pose proof (minimal_alpha_pos d b Hd Hb Hne). lia.
Qed.

Lemma final_alpha_ge (dst bg : list Z) (p c : nat) :
  (forall c, (c < 4)%nat -> is_fix15 (rd dst (p + c)) /\ is_fix15 (rd bg (p + c))) ->
  (c < 3)%nat ->
  minimal_alpha (rd dst (p + c)) (rd bg (p + c)) <= final_alpha_val dst bg p /\
  rd dst (p + 3) <= final_alpha_val dst bg p /\
  0 <= final_alpha_val dst bg p <= 2 ^ 15.
Proof.
  intros H Hc. rewrite (final_alpha_max dst bg p H).
  destruct (H 0%nat ltac:(lia)) as [Hd0 Hb0]. destruct (H 1%nat ltac:(lia)) as [Hd1 Hb1].
  destruct (H 2%nat ltac:(lia)) as [Hd2 Hb2]. destruct (H 3%nat ltac:(lia)) as [Hd3 _].
  pose proof (minimal_alpha_range _ _ Hd0 Hb0). pose proof (minimal_alpha_range _ _ Hd1 Hb1).
  pose proof (minimal_alpha_range _ _ Hd2 Hb2).
  unfold is_fix15, fix15_one in *.
  destruct c as [|[|[|c]]]; lia.
Qed.

(** Unflatten gives a premultiplied tile: the assertions that the source
    makes under HEAVY_DEBUG hold. *)
Theorem flat2rgba_premultiplied (dst bg : list Z) :
  length dst = tile_cells -> length bg = tile_cells ->
  Forall is_fix15 dst -> Forall is_fix15 bg ->
  exists dst', tile_flat2rgba dst bg = Some dst' /\ premultiplied dst'.
Proof.
  intros Hd Hb Hfd Hfb.
  destruct (tile_flat2rgba_cells dst bg Hd Hb Hfd Hfb) as (dst' & Hrun & Hlen & Hcells).
  exists dst'. split; [exact Hrun|].
  intros k Hk. pose proof TILE_SIZE_eq as HT. pose proof tile_cells_eq as HC.
  assert (Hk' : (k < TILE_SIZE * TILE_SIZE)%nat) by lia.
  assert (Hdom : forall c', (c' < 4)%nat ->
            is_fix15 (rd dst (4 * k + c')) /\ is_fix15 (rd bg (4 * k + c'))).
  { intros c' Hc'. split; apply Forall_rd; try assumption; lia. }
  destruct (final_alpha_ge dst bg (4 * k) 0 Hdom ltac:(lia)) as (_ & _ & HF).
  assert (Hrdd : forall c', (c' < 4)%nat ->
            rd dst' (4 * k + c') = flat2rgba_val dst bg k c').
  { intros c' Hc'. unfold rd. rewrite Hcells by assumption. reflexivity. }
  unfold pixel_ok. cbv zeta.
  pose proof (Hrdd 0%nat ltac:(lia)) as H0. rewrite Nat.add_0_r in H0.
  rewrite H0, (Hrdd 1%nat), (Hrdd 2%nat), (Hrdd 3%nat) by lia.
  unfold flat2rgba_val. cbn [Nat.ltb Nat.leb].
  set (F := final_alpha_val dst bg (4 * k)) in *.
  rewrite (u16_small F) by lia. unfold fix15_one.
  pose proof (color_val_range (rd dst (4 * k + 0)) (rd bg (4 * k + 0)) F HF).
  pose proof (color_val_range (rd dst (4 * k + 1)) (rd bg (4 * k + 1)) F HF).
  pose proof (color_val_range (rd dst (4 * k + 2)) (rd bg (4 * k + 2)) F HF).
  lia.
Qed.

Lemma flat2rgba_premultiplied_witness :
  exists dst', tile_flat2rgba (pixel_tile 300 200 100 50) (pixel_tile 100 200 400 0)
                 = Some dst' /\ premultiplied dst'.
Proof.
  apply (flat2rgba_premultiplied (pixel_tile 300 200 100 50) (pixel_tile 100 200 400 0)).
  - apply length_pixel_tile.
  - apply length_pixel_tile.
  - apply Forall_pixel_tile; unfold is_fix15, fix15_one; lia.
  - apply Forall_pixel_tile; unfold is_fix15, fix15_one; lia.
Defined.

(** Unflatten followed by flatten over the same background gives back
    the flat colour, up to one unit downwards. *)
Theorem unflatten_flatten_color (dst bg : list Z) :
  length dst = tile_cells -> length bg = tile_cells ->
  Forall is_fix15 dst -> Forall is_fix15 bg ->
  exists t flat,
    tile_flat2rgba dst bg = Some t /\ tile_rgba2flat t bg = Some flat /\
    forall k c, (k < TILE_SIZE * TILE_SIZE)%nat -> (c < 3)%nat ->
      rd dst (4 * k + c) - 1 <= rd flat (4 * k + c) <= rd dst (4 * k + c).
Proof.
  intros Hd Hb Hfd Hfb.
  destruct (tile_flat2rgba_cells dst bg Hd Hb Hfd Hfb) as (t & Hrun1 & Hlen1 & Hcells1).
  assert (Htlen : length t = tile_cells) by congruence.
  destruct (tile_rgba2flat_cells t bg Htlen Hb) as (flat & Hrun2 & Hlen2 & Hcells2).
  exists t, flat. split; [exact Hrun1|]. split; [exact Hrun2|].
  intros k c Hk Hc. pose proof TILE_SIZE_eq as HT. pose proof tile_cells_eq as HC.
  assert (Hdom : forall c', (c' < 4)%nat ->
            is_fix15 (rd dst (4 * k + c')) /\ is_fix15 (rd bg (4 * k + c'))).
  { intros c' Hc'. split; apply Forall_rd; try assumption; lia. }
  destruct (final_alpha_ge dst bg (4 * k) c Hdom Hc) as (Hm & _ & HF).
  assert (Hrdt : forall c', (c' < 4)%nat ->
            rd t (4 * k + c') = flat2rgba_val dst bg k c').
  { intros c' Hc'. unfold rd. rewrite Hcells1 by assumption. reflexivity. }
  assert (Hrdf : rd flat (4 * k + c) = rgba2flat_val t bg k c).
  { unfold rd. rewrite Hcells2 by (assumption || lia). reflexivity. }
  rewrite Hrdf. unfold rgba2flat_val. destruct (Nat.ltb_spec c 3); [|lia].
  rewrite (Hrdt c), (Hrdt 3%nat) by lia. unfold flat2rgba_val.
  destruct (Nat.ltb_spec c 3); [|lia]. cbn [Nat.ltb Nat.leb].
  set (F := final_alpha_val dst bg (4 * k)) in *.
  rewrite (u16_small F) by lia.
  destruct (Hdom c ltac:(lia)) as [Hdc Hbc].
  apply unflatten_channel; (assumption || lia).
Qed.

Lemma unflatten_flatten_color_witness :
  exists t flat,
    tile_flat2rgba (pixel_tile 300 200 100 50) (pixel_tile 100 200 400 0) = Some t /\
    tile_rgba2flat t (pixel_tile 100 200 400 0) = Some flat /\
    forall k c, (k < TILE_SIZE * TILE_SIZE)%nat -> (c < 3)%nat ->
      rd (pixel_tile 300 200 100 50) (4 * k + c) - 1 <= rd flat (4 * k + c)
        <= rd (pixel_tile 300 200 100 50) (4 * k + c).
Proof.
  apply (unflatten_flatten_color (pixel_tile 300 200 100 50) (pixel_tile 100 200 400 0)).
  - apply length_pixel_tile.
  - apply length_pixel_tile.
  - apply Forall_pixel_tile; unfold is_fix15, fix15_one; lia.
  - apply Forall_pixel_tile; unfold is_fix15, fix15_one; lia.
Defined.

(** Flatten leaves the alpha channel as it is, leaves opaque pixels as
    they are, and turns a transparent black pixel into the background. *)
Theorem rgba2flat_alpha_opaque_transparent (dst bg : list Z) :
  length dst = tile_cells -> length bg = tile_cells ->
  Forall is_u16 dst -> Forall is_u16 bg ->
  exists flat, tile_rgba2flat dst bg = Some flat /\
    forall k, (k < TILE_SIZE * TILE_SIZE)%nat ->
      flat !! (4 * k + 3)%nat = dst !! (4 * k + 3)%nat /\
      (rd dst (4 * k + 3) = fix15_one ->
         forall c, (c < 3)%nat -> flat !! (4 * k + c)%nat = dst !! (4 * k + c)%nat) /\
      ((forall c, (c < 4)%nat -> rd dst (4 * k + c) = 0) ->
         forall c, (c < 3)%nat -> flat !! (4 * k + c)%nat = bg !! (4 * k + c)%nat).
Proof.
  intros Hd Hb Hud Hub.
  destruct (tile_rgba2flat_cells dst bg Hd Hb) as (flat & Hrun & Hlen & Hcells).
  exists flat. split; [exact Hrun|]. intros k Hk.
  pose proof TILE_SIZE_eq as HT. pose proof tile_cells_eq as HC.
  split; [|split].
  - rewrite Hcells by (assumption || lia). unfold rgba2flat_val. cbn [Nat.ltb Nat.leb].
    symmetry. apply lookup_rd. lia.
  - intros Ha c Hc. rewrite Hcells by (assumption || lia). unfold rgba2flat_val.
    destruct (Nat.ltb_spec c 3); [|lia]. rewrite Ha.
    rewrite (lookup_rd dst) by lia. f_equal. unfold flat_channel, fix15_one.
    rewrite Z.sub_diag. change (u32 0) with 0. rewrite Z.mul_0_l.
    change (u32 0 / 2 ^ 15) with 0. rewrite Z.add_0_r.
    assert (Hv : is_u16 (rd dst (4 * k + c))) by (apply Forall_rd; [assumption|lia]).
    unfold is_u16 in Hv. rewrite u32_small by lia. apply u16_small. lia.
  - intros Hz c Hc. rewrite Hcells by (assumption || lia). unfold rgba2flat_val.
    destruct (Nat.ltb_spec c 3); [|lia]. rewrite (Hz c), (Hz 3%nat) by lia.
    rewrite (lookup_rd bg) by lia. f_equal. unfold flat_channel.
    assert (Hv : is_u16 (rd bg (4 * k + c))) by (apply Forall_rd; [assumption|lia]).
    unfold is_u16 in Hv. rewrite Z.sub_0_r. change (u32 (2 ^ 15)) with (2 ^ 15).
    rewrite (u32_small (2 ^ 15 * _)) by lia.
    rewrite (Z.mul_comm (2 ^ 15)), Z.div_mul by lia. rewrite Z.add_0_l.
    rewrite u32_small by lia. apply u16_small. lia.
Qed.

Lemma rgba2flat_alpha_opaque_transparent_witness :
  exists flat, tile_rgba2flat (pixel_tile 100 200 300 32768) (pixel_tile 1 2 3 4)
                 = Some flat /\
    forall k, (k < TILE_SIZE * TILE_SIZE)%nat ->
      flat !! (4 * k + 3)%nat = pixel_tile 100 200 300 32768 !! (4 * k + 3)%nat /\
      (rd (pixel_tile 100 200 300 32768) (4 * k + 3) = fix15_one ->
         forall c, (c < 3)%nat ->
           flat !! (4 * k + c)%nat = pixel_tile 100 200 300 32768 !! (4 * k + c)%nat) /\
      ((forall c, (c < 4)%nat -> rd (pixel_tile 100 200 300 32768) (4 * k + c) = 0) ->
         forall c, (c < 3)%nat ->
           flat !! (4 * k + c)%nat = pixel_tile 1 2 3 4 !! (4 * k + c)%nat).
Proof.
  apply (rgba2flat_alpha_opaque_transparent (pixel_tile 100 200 300 32768)
           (pixel_tile 1 2 3 4)).
  - apply length_pixel_tile.
  - apply length_pixel_tile.
  - apply Forall_pixel_tile; unfold is_u16; lia.
  - apply Forall_pixel_tile; unfold is_u16; lia.
Defined.

(** ** Stroke map: further properties *)

Lemma strokemap_channel_val_zero_b (a b : list Z) (p i : nat) (cc : Z) :
  rd b (p + i) = 0 -> rd b (p + 3) = 0 -> - 2 ^ 31 <= cc < 2 ^ 31 ->
  strokemap_channel_val a b p i cc = cc.
Proof.
  intros Hi H3 Hcc. unfold strokemap_channel_val. rewrite Hi, H3.
  rewrite Z.mul_0_r, Z.mul_0_l. change (i32 (u32 0 / 2 ^ 15)) with 0.
  change (Z.abs (0 - 0)) with 0. rewrite Z.add_0_r. apply i32_small. exact Hcc.
Qed.

Lemma strokemap_channel_val_zero_a (a b : list Z) (p i : nat) (cc : Z) :
  rd a (p + i) = 0 -> rd a (p + 3) = 0 -> - 2 ^ 31 <= cc < 2 ^ 31 ->
  strokemap_channel_val a b p i cc = cc.
Proof.
  intros Hi H3 Hcc. unfold strokemap_channel_val. rewrite Hi, H3.
  rewrite Z.mul_0_r, Z.mul_0_l. change (i32 (u32 0 / 2 ^ 15)) with 0.
  change (Z.abs (0 - 0)) with 0. rewrite Z.add_0_r. apply i32_small. exact Hcc.
Qed.

(** A pixel that the stroke erased completely is not part of the stroke
    map, whatever it was before. *)
Theorem strokemap_erased_pixel (a b res : list Z) :
  length a = tile_cells -> length b = tile_cells ->
  length res = (TILE_SIZE * TILE_SIZE)%nat -> Forall is_u16 a ->
  exists res', tile_perceptual_change_strokemap a b res = Some res' /\
    forall k, (k < TILE_SIZE * TILE_SIZE)%nat ->
      (forall c, (c < 4)%nat -> rd b (4 * k + c) = 0) -> res' !! k = Some 0.
Proof.
  intros Ha Hb Hr Hu.
  destruct (tile_perceptual_change_strokemap_cells a b res Ha Hb Hr)
    as (res' & Hrun & _ & Hcells).
  exists res'. split; [exact Hrun|]. intros k Hk Hz.
  rewrite (Hcells k Hk). f_equal. unfold strokemap_val. cbv zeta.
  rewrite (strokemap_channel_val_zero_b a b _ 0 0) by (try apply Hz; lia).
  rewrite (strokemap_channel_val_zero_b a b _ 1 0) by (try apply Hz; lia).
  rewrite (strokemap_channel_val_zero_b a b _ 2 0) by (try apply Hz; lia).
  rewrite (Hz 3%nat) by lia.
  assert (Hv : is_u16 (rd a (4 * k + 3))).
  { apply Forall_rd; [assumption|]. pose proof TILE_SIZE_eq. pose proof tile_cells_eq. lia. }
  unfold is_u16 in Hv. set (ao := rd a (4 * k + 3)) in *.
  assert (HM : MAX ao 0 = ao) by (rewrite MAX_max; lia). rewrite HM.
  change (Z.quot (2 ^ 15) 4) with 8192. change (Z.quot (2 ^ 15) 64) with 512.
  assert (0 <= Z.quot ao 16) by (apply Z.quot_pos; lia).
  destruct (Z.gtb_spec (0 - ao) 8192); [lia|].
  destruct (Z.gtb_spec (0 - ao) 512); [lia|].
  destruct (Z.gtb_spec 0 (Z.quot ao 16)); [lia|]. reflexivity.
Qed.

Lemma strokemap_erased_pixel_witness :
  exists res',
    tile_perceptual_change_strokemap (pixel_tile 5 6 7 1000) (pixel_tile 0 0 0 0)
      (replicate (TILE_SIZE * TILE_SIZE) 9) = Some res' /\
    forall k, (k < TILE_SIZE * TILE_SIZE)%nat ->
      (forall c, (c < 4)%nat -> rd (pixel_tile 0 0 0 0) (4 * k + c) = 0) ->
      res' !! k = Some 0.
Proof.
  apply (strokemap_erased_pixel (pixel_tile 5 6 7 1000) (pixel_tile 0 0 0 0)
           (replicate (TILE_SIZE * TILE_SIZE) 9)).
  - apply length_pixel_tile.
  - apply length_pixel_tile.
  - apply length_replicate.
  - apply Forall_pixel_tile; unfold is_u16; lia.
Defined.

(** On a pixel that was transparent black before the stroke, the stroke
    is recorded exactly when the new alpha is above [(1<<15)/64]. *)
Theorem strokemap_on_transparent (a b res : list Z) :
  length a = tile_cells -> length b = tile_cells ->
  length res = (TILE_SIZE * TILE_SIZE)%nat -> Forall is_u16 b ->
  exists res', tile_perceptual_change_strokemap a b res = Some res' /\
    forall k, (k < TILE_SIZE * TILE_SIZE)%nat ->
      (forall c, (c < 4)%nat -> rd a (4 * k + c) = 0) ->
      res' !! k = Some (if rd b (4 * k + 3) >? 512 then 1 else 0).
Proof.
  intros Ha Hb Hr Hu.
  destruct (tile_perceptual_change_strokemap_cells a b res Ha Hb Hr)
    as (res' & Hrun & _ & Hcells).
  exists res'. split; [exact Hrun|]. intros k Hk Hz.
  rewrite (Hcells k Hk). f_equal. unfold strokemap_val. cbv zeta.
  rewrite (strokemap_channel_val_zero_a a b _ 0 0) by (try apply Hz; lia).
  rewrite (strokemap_channel_val_zero_a a b _ 1 0) by (try apply Hz; lia).
  rewrite (strokemap_channel_val_zero_a a b _ 2 0) by (try apply Hz; lia).
  rewrite (Hz 3%nat) by lia.
  assert (Hv : is_u16 (rd b (4 * k + 3))).
  { apply Forall_rd; [assumption|]. pose proof TILE_SIZE_eq. pose proof tile_cells_eq. lia. }
  unfold is_u16 in Hv. set (an := rd b (4 * k + 3)) in *.
  assert (HM : MAX 0 an = an) by (rewrite MAX_max; lia). rewrite HM.
  change (Z.quot (2 ^ 15) 4) with 8192. change (Z.quot (2 ^ 15) 64) with 512.
  change (Z.quot 0 2) with 0. rewrite Z.sub_0_r.
  assert (0 <= Z.quot an 16) by (apply Z.quot_pos; lia).
  destruct (Z.gtb_spec an 8192), (Z.gtb_spec an 512), (Z.gtb_spec an 0),
    (Z.gtb_spec 0 (Z.quot an 16)); cbn [orb andb]; (reflexivity || lia).
Qed.

Lemma strokemap_on_transparent_witness :
  exists res',
    tile_perceptual_change_strokemap (pixel_tile 0 0 0 0) (pixel_tile 5 6 7 513)
      (replicate (TILE_SIZE * TILE_SIZE) 9) = Some res' /\
    forall k, (k < TILE_SIZE * TILE_SIZE)%nat ->
      (forall c, (c < 4)%nat -> rd (pixel_tile 0 0 0 0) (4 * k + c) = 0) ->
      res' !! k = Some (if rd (pixel_tile 5 6 7 513) (4 * k + 3) >? 512 then 1 else 0).
Proof.
  apply (strokemap_on_transparent (pixel_tile 0 0 0 0) (pixel_tile 5 6 7 513)
           (replicate (TILE_SIZE * TILE_SIZE) 9)).
  - apply length_pixel_tile.
  - apply length_pixel_tile.
  - apply length_replicate.
  - apply Forall_pixel_tile; unfold is_u16; lia.
Defined.

(** ** Bit-depth converters: further properties *)

Lemma convert_rgbu16_to_rgbu8_pixel_Some (noise src : list Z) (x p ni : nat)
  (dst : list Z) :
  (p + 4 <= length src)%nat -> (p + 4 <= length dst)%nat ->
  (ni < length noise)%nat ->
  convert_rgbu16_to_rgbu8_pixel noise src x (p, p, ni, dst) =
    let add := rd noise ni in
    Some ((p + 4)%nat, (p + 4)%nat, (ni + 1)%nat,
          <[(p + 3)%nat := 255]>
            (<[(p + 2)%nat := u8 (dither8 (rd src (p + 2)) add)]>
               (<[(p + 1)%nat := u8 (dither8 (rd src (p + 1)) add)]>
                  (<[p := u8 (dither8 (rd src p) add)]> dst)))).
Proof.
  intros Hs Hd Hn. unfold convert_rgbu16_to_rgbu8_pixel.
  rewrite !lookup_rd by lia. cbn [mbind option_bind].
  repeat (rewrite store8_Some by (rewrite ?length_insert; lia);
          cbn [mbind option_bind]).
  reflexivity.
Qed.

Lemma convert_rgbu16_to_rgbu8_row_cells (noise src : list Z) (y : nat) (dst : list Z) :
  (y * tile_stride + 4 * TILE_SIZE <= length src)%nat ->
  (y * tile_stride + 4 * TILE_SIZE <= length dst)%nat ->
  (TILE_SIZE * y + TILE_SIZE <= length noise)%nat ->
  exists dst',
    convert_rgbu16_to_rgbu8_row noise src y ((TILE_SIZE * y)%nat, dst) =
      Some ((TILE_SIZE * y + TILE_SIZE)%nat, dst') /\
    length dst' = length dst /\
    (forall x c, (x < TILE_SIZE)%nat -> (c < 4)%nat ->
       dst' !! (4 * (TILE_SIZE * y + x) + c)%nat =
         Some (rgbu8_val noise src (TILE_SIZE * y + x) c)) /\
    (forall j, (j < 4 * (TILE_SIZE * y) \/ 4 * (TILE_SIZE * y) + 4 * TILE_SIZE <= j)%nat ->
       dst' !! j = dst !! j).
Proof.
  intros Hs Hd Hn. tile_facts. unfold convert_rgbu16_to_rgbu8_row.
  replace (y * tile_stride)%nat with (4 * (TILE_SIZE * y))%nat in * by lia.
  generalize dependent (TILE_SIZE * y)%nat. intros q Hs Hd Hn.
  destruct (for_loop_cells
              (fun s : nat * nat * nat * list Z => s.2)
              (fun x s => s.1.1.1 = (4 * (q + x))%nat /\ s.1.1.2 = (4 * (q + x))%nat
                          /\ s.1.2 = (q + x)%nat)
              (fun _ c => (c < 4)%nat)
              (fun x c => (4 * (q + x) + c)%nat)
              (fun x c => rgbu8_val noise src (q + x) c)
              dst (convert_rgbu16_to_rgbu8_pixel noise src) 0%nat TILE_SIZE)
    with (s := ((4 * q)%nat, (4 * q)%nat, q, dst))
    as (s' & Hl & Hp & Hlen & Hcells & Hout).
  - intros; cbv beta in *; lia.
  - intros x [[[sp dp] ni] d] Hx (Hsp & Hdp & Hni) Hlen _. cbn [fst snd] in *.
    subst sp dp ni.
    rewrite convert_rgbu16_to_rgbu8_pixel_Some by lia. cbv zeta.
    eexists. split; [reflexivity|]. cbn [fst snd].
    split; [lia|]. split; [rewrite !length_insert; exact Hlen|]. split.
    + intros c Hc. unfold rgbu8_val.
      destruct c as [|[|[|[|c]]]]; try lia; cbn [Nat.ltb Nat.leb];
        rewrite ?Nat.add_0_r; lookup_inserts; reflexivity.
    + intros j Hj.
      pose proof (Hj 0%nat ltac:(lia)). pose proof (Hj 1%nat ltac:(lia)).
      pose proof (Hj 2%nat ltac:(lia)). pose proof (Hj 3%nat ltac:(lia)).
      lookup_inserts. reflexivity.
  - cbn [fst snd]. lia.
  - reflexivity.
  - rewrite Hl. destruct s' as [[[sp dp] ni] d]. cbn [fst snd mbind option_bind] in *.
    destruct Hp as (_ & _ & ->).
    exists d. split; [f_equal; f_equal; lia|]. split; [exact Hlen|]. split.
    + intros x c Hx Hc. apply Hcells; [lia | exact Hc].
    + intros j Hj. apply Hout. intros x c Hx Hc. lia.
Qed.

Lemma tile_convert_rgbu16_to_rgbu8_cells (rand : nat -> Z) (st : noise_state)
  (src dst : list Z) :
  noise_state_ok st -> length src = tile_cells -> length dst = tile_cells ->
  exists st' dst', tile_convert_rgbu16_to_rgbu8 rand st src dst = Some (st', dst') /\
    have_noise st' = true /\
    length (dithering_noise st') = dithering_noise_size /\
    Forall in_noise_band (dithering_noise st') /\
    (have_noise st = true -> st' = st) /\
    length dst' = length dst /\
    forall k c, (k < TILE_SIZE * TILE_SIZE)%nat -> (c < 4)%nat ->
      dst' !! (4 * k + c)%nat = Some (rgbu8_val (dithering_noise st') src k c).
Proof.
  intros Hst Hs Hd. tile_facts. unfold tile_convert_rgbu16_to_rgbu8.
  destruct (precalculate_dithering_noise_ok rand st Hst)
    as (st' & Hpre & Hh & Hnl & Hnb).
  rewrite Hpre. cbn [mbind option_bind].
  assert (Hsame : have_noise st = true -> st' = st).
  { intros Ht. unfold precalculate_dithering_noise_if_required in Hpre.
    rewrite Ht in Hpre. congruence. }
  assert (Hnl' : length (dithering_noise st') = (64 * 64 * 2)%nat)
    by (rewrite Hnl; reflexivity).
  assert (Hres : have_noise st' = true /\
                 length (dithering_noise st') = dithering_noise_size) by auto.
  clear Hnl.
  destruct (for_loop_cells
              (fun s : nat * list Z => s.2)
              (fun y s => s.1 = (TILE_SIZE * y)%nat)
              (fun _ (t : nat * nat) => (t.1 < TILE_SIZE)%nat /\ (t.2 < 4)%nat)
              (fun y t => (4 * (TILE_SIZE * y + t.1) + t.2)%nat)
              (fun y t => rgbu8_val (dithering_noise st') src (TILE_SIZE * y + t.1) t.2)
              dst (convert_rgbu16_to_rgbu8_row (dithering_noise st') src) 0%nat TILE_SIZE)
    with (s := (0%nat, dst)) as (s' & Hl & _ & Hlen & Hcells & _).
  - intros y y' [x c] [x' c'] _ _ [Hx1 Hc1] [Hx2 Hc2] Hne. cbn [fst snd] in *. lia.
  - intros y [ni d] Hy Hni Hlen _. cbn [fst snd] in *. subst ni.
    destruct (convert_rgbu16_to_rgbu8_row_cells (dithering_noise st') src y d)
      as (d' & Hr & Hlen' & Hc & Hf); [lia | lia | lia |].
    eexists. split; [exact Hr|]. cbn [fst snd]. split; [lia|].
    split; [congruence|]. split.
    + intros [x c] [Hx1 Hc1]. cbn [fst snd] in *. apply Hc; assumption.
    + intros j Hj. apply Hf.
      destruct (decide (j < 4 * (TILE_SIZE * y))%nat); [left; assumption|].
      destruct (decide (4 * (TILE_SIZE * y) + 4 * TILE_SIZE <= j)%nat);
        [right; assumption|].
      exfalso.
      apply (Hj (((j - 4 * (TILE_SIZE * y)) / 4)%nat, ((j - 4 * (TILE_SIZE * y)) mod 4)%nat));
        cbn [fst snd]; lia.
  - cbn [fst snd]. lia.
  - reflexivity.
  - rewrite Hl. destruct s' as [ni d]. cbn [fst snd mbind option_bind] in *.
    exists st', d. split; [reflexivity|]. destruct Hres as [? ?].
    repeat (split; [assumption|]). clear H3.
    intros k c Hk Hc.
    specialize (Hcells (k / 64)%nat ((k mod 64)%nat, c)). cbn [fst snd] in Hcells.
    replace (TILE_SIZE * (k / 64) + k mod 64)%nat with k in Hcells by lia.
    apply Hcells; lia.
Qed.

Lemma to_fix15_range (v : Z) :
  is_u8 v -> v * 2 ^ 15 - 127 <= to_fix15 v * 255 <= v * 2 ^ 15 + 127 /\
             0 <= to_fix15 v <= 2 ^ 15.
Proof.
  unfold is_u8, to_fix15. intros Hv.
  rewrite (u32_small (v * 2 ^ 15)) by lia.
  change (255 / 2) with 127. rewrite u32_small by lia.
  assert (H1 := Z.mul_div_le (v * 2 ^ 15 + 127) 255 ltac:(lia)).
  assert (H2 := Z.mul_succ_div_gt (v * 2 ^ 15 + 127) 255 ltac:(lia)).
  set (q := (v * 2 ^ 15 + 127) / 255) in *. lia.
Qed.

(** The 16 bit value of an 8 bit value dithers back to it, for every
    noise value of the band. *)
Lemma dither_to_fix15 (v n : Z) :
  is_u8 v -> in_noise_band n -> u8 (dither8 (to_fix15 v) n) = v.
Proof.
  intros Hv Hn. pose proof (to_fix15_range v Hv) as [Hr Hr'].
  unfold is_u8, in_noise_band, dither8 in *.
  rewrite (u32_small (_ * 255)) by lia. rewrite u32_small by lia.
  assert (Hq : (to_fix15 v * 255 + n) / 2 ^ 15 = v).
  { symmetry. apply (Z.div_unique _ _ _ (to_fix15 v * 255 + n - v * 2 ^ 15)); lia. }
  rewrite Hq. apply u8_small. lia.
Qed.

(** Conversion without alpha: every alpha written is 255, and a colour
    cell that holds the 16 bit value of an 8 bit value gets that 8 bit
    value, whatever the noise. *)
Theorem rgbu16_to_rgbu8_opaque_exact (rand : nat -> Z) (st : noise_state)
  (src dst : list Z) :
  noise_state_ok st -> length src = tile_cells -> length dst = tile_cells ->
  exists st' dst', tile_convert_rgbu16_to_rgbu8 rand st src dst = Some (st', dst') /\
    forall k, (k < TILE_SIZE * TILE_SIZE)%nat ->
      dst' !! (4 * k + 3)%nat = Some 255 /\
      forall c v, (c < 3)%nat -> is_u8 v -> rd src (4 * k + c) = to_fix15 v ->
        dst' !! (4 * k + c)%nat = Some v.
Proof.
  intros Hst Hs Hd.
  destruct (tile_convert_rgbu16_to_rgbu8_cells rand st src dst Hst Hs Hd)
    as (st' & dst' & Hrun & _ & Hnl & Hnb & _ & _ & Hcells).
  exists st', dst'. split; [exact Hrun|]. intros k Hk. split.
  - rewrite Hcells by (assumption || lia). reflexivity.
  - intros c v Hc Hv Hsrc. rewrite Hcells by (assumption || lia). f_equal.
    unfold rgbu8_val. destruct (Nat.ltb_spec c 3); [|lia]. rewrite Hsrc.
    apply dither_to_fix15; [exact Hv|]. apply Forall_rd; [exact Hnb|].
    rewrite Hnl. clear - Hk. pose proof TILE_SIZE_eq. unfold dithering_noise_size. lia.
Qed.

Lemma rgbu16_to_rgbu8_opaque_exact_witness :
  exists st' dst',
    tile_convert_rgbu16_to_rgbu8 (fun i => Z.of_nat i * 7919) no_noise
      (pixel_tile 32768 0 16384 77) (replicate tile_cells 9) = Some (st', dst') /\
    forall k, (k < TILE_SIZE * TILE_SIZE)%nat ->
      dst' !! (4 * k + 3)%nat = Some 255 /\
      forall c v, (c < 3)%nat -> is_u8 v ->
        rd (pixel_tile 32768 0 16384 77) (4 * k + c) = to_fix15 v ->
        dst' !! (4 * k + c)%nat = Some v.
Proof.
  apply (rgbu16_to_rgbu8_opaque_exact (fun i => Z.of_nat i * 7919) no_noise
           (pixel_tile 32768 0 16384 77) (replicate tile_cells 9)).
  - apply no_noise_ok.
  - apply length_pixel_tile.
  - apply length_replicate.
Defined.

Lemma premultiply_le (c a : Z) : 0 <= c <= 2 ^ 15 -> 0 <= a <= 2 ^ 15 ->
  0 <= premultiply c a <= a.
Proof.
  intros Hc Ha. unfold premultiply. change (2 ^ 15 / 2) with 16384.
  rewrite (u32_small (c * a)) by nia. rewrite u32_small by nia.
  split; [apply Z.div_pos; nia|].
  apply Z.lt_succ_r, Z.div_lt_upper_bound; nia.
Qed.

(** 8 bit to 16 bit: the result is premultiplied. *)
Theorem rgba8_to_rgba16_premultiplied (src dst : list Z) :
  length src = tile_cells -> length dst = tile_cells -> Forall is_u8 src ->
  exists dst', tile_convert_rgba8_to_rgba16 src dst = Some dst' /\ premultiplied dst'.
Proof.
  intros Hs Hd Hu.
  destruct (tile_convert_rgba8_to_rgba16_cells src dst Hs Hd) as (dst' & Hrun & Hlen & Hcells).
  exists dst'. split; [exact Hrun|]. intros k Hk.
  pose proof TILE_SIZE_eq as HT. pose proof tile_cells_eq as HC.
  assert (Hk' : (k < TILE_SIZE * TILE_SIZE)%nat) by lia.
  assert (Hrdd : forall c', (c' < 4)%nat -> rd dst' (4 * k + c') = rgba16_val src k c').
  { intros c' Hc'. unfold rd. rewrite Hcells by assumption. reflexivity. }
  assert (Hv : forall c', (c' < 4)%nat -> 0 <= to_fix15 (rd src (4 * k + c')) <= 2 ^ 15).
  { intros c' Hc'. apply to_fix15_range. apply Forall_rd; [assumption | lia]. }
  unfold pixel_ok. cbv zeta.
  pose proof (Hrdd 0%nat ltac:(lia)) as H0. rewrite Nat.add_0_r in H0.
  rewrite H0, (Hrdd 1%nat), (Hrdd 2%nat), (Hrdd 3%nat) by lia.
  unfold rgba16_val. cbn [Nat.ltb Nat.leb]. cbv zeta.
  pose proof (Hv 3%nat ltac:(lia)) as Ha.
  set (a := to_fix15 (rd src (4 * k + 3))) in *.
  pose proof (premultiply_le _ a (Hv 0%nat ltac:(lia)) Ha).
  pose proof (premultiply_le _ a (Hv 1%nat ltac:(lia)) Ha).
  pose proof (premultiply_le _ a (Hv 2%nat ltac:(lia)) Ha).
  rewrite !u16_small by lia. unfold fix15_one. lia.
Qed.

Lemma rgba8_to_rgba16_premultiplied_witness :
  exists dst', tile_convert_rgba8_to_rgba16 (pixel_tile 110 145 255 37)
                 (replicate tile_cells 0) = Some dst' /\ premultiplied dst'.
Proof.
  apply (rgba8_to_rgba16_premultiplied (pixel_tile 110 145 255 37)
           (replicate tile_cells 0)).
  - apply length_pixel_tile.
  - apply length_replicate.
  - apply Forall_pixel_tile; unfold is_u8; lia.
Defined.

(** The alpha channel survives the round trip at every alpha, also below
    the threshold of the colours. *)
Theorem roundtrip_keeps_alpha (rand : nat -> Z) (st : noise_state) (src d16 d8 : list Z) :
  noise_state_ok st ->
  length src = tile_cells -> Forall is_u8 src ->
  length d16 = tile_cells -> length d8 = tile_cells ->
  exists t16 st' t8,
    tile_convert_rgba8_to_rgba16 src d16 = Some t16 /\
    tile_convert_rgba16_to_rgba8 rand st t16 d8 = Some (st', t8) /\
    forall k, (k < TILE_SIZE * TILE_SIZE)%nat ->
      t8 !! (4 * k + 3)%nat = src !! (4 * k + 3)%nat.
Proof.
  intros Hst Hs Hu H16 H8.
  destruct (tile_convert_rgba8_to_rgba16_cells src d16 Hs H16)
    as (t16 & Hrun1 & Hlen1 & Hcells1).
  assert (Ht16 : length t16 = tile_cells) by congruence.
  destruct (tile_convert_rgba16_to_rgba8_cells rand st t16 d8 Hst Ht16 H8)
    as (st' & t8 & Hrun2 & _ & Hnl & Hnb & _ & _ & Hcells2).
  exists t16, st', t8. split; [exact Hrun1|]. split; [exact Hrun2|].
  intros k Hk. pose proof TILE_SIZE_eq as HT. pose proof tile_cells_eq as HC.
  rewrite Hcells2 by (assumption || lia). rewrite (lookup_rd src) by lia. f_equal.
  unfold rgba8_val. cbn [Nat.ltb Nat.leb]. cbv zeta.
  assert (Hv : is_u8 (rd src (4 * k + 3))) by (apply Forall_rd; [assumption | lia]).
  pose proof (to_fix15_range _ Hv) as [_ Hr].
  assert (Ha : rd t16 (4 * k + 3) = to_fix15 (rd src (4 * k + 3))).
  { unfold rd at 1. rewrite Hcells1 by (assumption || lia). cbn [default from_option].
    unfold id, rgba16_val. cbn [Nat.ltb Nat.leb]. cbv zeta. apply u16_small. lia. }
  rewrite Ha. apply dither_to_fix15; [exact Hv|]. apply Forall_rd; [exact Hnb|].
  rewrite Hnl. clear - Hk. pose proof TILE_SIZE_eq. unfold dithering_noise_size. lia.
Qed.

Lemma roundtrip_keeps_alpha_witness :
  exists t16 st' t8,
    tile_convert_rgba8_to_rgba16 (pixel_tile 110 145 255 3) (replicate tile_cells 0)
      = Some t16 /\
    tile_convert_rgba16_to_rgba8 (fun i => Z.of_nat i * 7919) no_noise t16
      (replicate tile_cells 0) = Some (st', t8) /\
    forall k, (k < TILE_SIZE * TILE_SIZE)%nat ->
      t8 !! (4 * k + 3)%nat = pixel_tile 110 145 255 3 !! (4 * k + 3)%nat.
Proof.
  apply (roundtrip_keeps_alpha (fun i => Z.of_nat i * 7919) no_noise
           (pixel_tile 110 145 255 3) (replicate tile_cells 0) (replicate tile_cells 0)).
  - apply no_noise_ok.
  - apply length_pixel_tile.
  - apply Forall_pixel_tile; unfold is_u8; lia.
  - apply length_replicate.
  - apply length_replicate.
Defined.

(** The noise table is made once: a conversion that follows another one
    leaves the state as it found it, whatever [rand] would return. *)
Theorem noise_table_made_once (rand1 rand2 : nat -> Z) (st : noise_state)
  (src1 dst1 src2 dst2 : list Z) :
  noise_state_ok st ->
  length src1 = tile_cells -> length dst1 = tile_cells ->
  length src2 = tile_cells -> length dst2 = tile_cells ->
  exists st' t1 t2,
    tile_convert_rgba16_to_rgba8 rand1 st src1 dst1 = Some (st', t1) /\
    tile_convert_rgbu16_to_rgbu8 rand2 st' src2 dst2 = Some (st', t2) /\
    forall k, (k < TILE_SIZE * TILE_SIZE)%nat ->
      in_noise_band (rd (dithering_noise st') (2 * k)) /\
      in_noise_band (rd (dithering_noise st') (2 * k + 1)).
Proof.
  intros Hst Hs1 Hd1 Hs2 Hd2.
  destruct (tile_convert_rgba16_to_rgba8_cells rand1 st src1 dst1 Hst Hs1 Hd1)
    as (st' & t1 & Hrun1 & Hh & Hnl & Hnb & _ & _ & _).
  assert (Hst' : noise_state_ok st') by (split; auto).
  destruct (tile_convert_rgbu16_to_rgbu8_cells rand2 st' src2 dst2 Hst' Hs2 Hd2)
    as (st'' & t2 & Hrun2 & _ & _ & _ & Hsame & _ & _).
  rewrite (Hsame Hh) in Hrun2.
  exists st', t1, t2. split; [exact Hrun1|]. split; [exact Hrun2|].
  intros k Hk.
  assert (Hn : (2 * k + 1 < length (dithering_noise st'))%nat).
  { rewrite Hnl. clear - Hk. pose proof TILE_SIZE_eq. unfold dithering_noise_size. lia. }
  split; apply Forall_rd; (assumption || lia).
Qed.

Lemma noise_table_made_once_witness :
  exists st' t1 t2,
    tile_convert_rgba16_to_rgba8 (fun i => Z.of_nat i * 7919) no_noise
      (pixel_tile 1 2 3 4) (replicate tile_cells 0) = Some (st', t1) /\
    tile_convert_rgbu16_to_rgbu8 (fun i => Z.of_nat i) st'
      (pixel_tile 5 6 7 8) (replicate tile_cells 0) = Some (st', t2) /\
    forall k, (k < TILE_SIZE * TILE_SIZE)%nat ->
      in_noise_band (rd (dithering_noise st') (2 * k)) /\
      in_noise_band (rd (dithering_noise st') (2 * k + 1)).
Proof.
  apply (noise_table_made_once (fun i => Z.of_nat i * 7919) (fun i => Z.of_nat i)
           no_noise (pixel_tile 1 2 3 4) (replicate tile_cells 0)
           (pixel_tile 5 6 7 8) (replicate tile_cells 0)).
  - apply no_noise_ok.
  - apply length_pixel_tile.
  - apply length_replicate.
  - apply length_pixel_tile.
  - apply length_replicate.
Defined.

(** ** Mipmap downscaler: further properties *)

Lemma tile_downscale_rgba16_frame (src dst : list Z) (dst_stride dst_x dst_y : nat) :
  length src = tile_cells ->
  (4 * dst_x + 4 * (TILE_SIZE / 2) <= dst_stride)%nat ->
  ((dst_y + TILE_SIZE / 2) * dst_stride <= length dst)%nat ->
  exists dst', tile_downscale_rgba16 src dst dst_stride dst_x dst_y = Some dst' /\
    forall j,
      (forall y x c, (y < TILE_SIZE / 2)%nat -> (x < TILE_SIZE / 2)%nat -> (c < 4)%nat ->
         j <> ((y + dst_y) * dst_stride + 4 * dst_x + 4 * x + c)%nat) ->
      dst' !! j = dst !! j.
Proof.
  intros Hsrc Hx Hy. tile_facts. unfold tile_downscale_rgba16.
  destruct (for_loop_cells
              (fun s : list Z => s) (fun _ _ => True)
              (fun _ (t : nat * nat) => (t.1 < TILE_SIZE / 2)%nat /\ (t.2 < 4)%nat)
              (fun y t => ((y + dst_y) * dst_stride + (4 * dst_x + 4 * t.1 + t.2))%nat)
              (fun y t => downscale_val src (2 * y * tile_stride + 8 * t.1) t.2)
              dst (downscale_row src dst_stride dst_x dst_y) 0%nat (TILE_SIZE / 2)%nat)
    with (s := dst) as (dst' & Hl & _ & _ & _ & Hout).
  - intros y y' [x c] [x' c'] _ _ [Hx1 Hc1] [Hx2 Hc2] Hne. cbn [fst snd] in *.
    assert (y + dst_y <> y' + dst_y)%nat by lia.
    apply rows_disjoint; [lia | lia | assumption].
  - intros y d Hyr _ Hlen _.
    destruct (downscale_row_cells src dst_stride dst_x dst_y y d)
      as (d' & Hr & Hlen' & Hc & Hf); [lia | nia |].
    exists d'. split; [exact Hr|]. split; [exact I|].
    split; [congruence|]. split.
    + intros [x c] [Hx1 Hc1]. cbn [fst snd] in *.
      rewrite <- Hc by assumption. f_equal. lia.
    + intros j Hj. apply Hf.
      destruct (decide (j < (y + dst_y) * dst_stride + 4 * dst_x)%nat) as [|Hge];
        [left; assumption|].
      destruct (decide ((y + dst_y) * dst_stride + 4 * dst_x + 4 * (TILE_SIZE / 2) <= j)%nat)
        as [|Hlt]; [right; assumption|].
      exfalso.
      apply (Hj (((j - ((y + dst_y) * dst_stride + 4 * dst_x)) / 4)%nat,
                 ((j - ((y + dst_y) * dst_stride + 4 * dst_x)) mod 4)%nat));
        cbn [fst snd]; lia.
  - exact I.
  - reflexivity.
  - exists dst'. split; [exact Hl|]. intros j Hj. apply Hout.
    intros y [x c] Hy' [Hx' Hc]. cbn [fst snd] in *.
    specialize (Hj y x c ltac:(lia) Hx' Hc). lia.
Qed.

Lemma src_block_in_tile (y x c : nat) :
  (y < TILE_SIZE / 2)%nat -> (x < TILE_SIZE / 2)%nat -> (c < 4)%nat ->
  (2 * y * tile_stride + 8 * x + 4 * TILE_SIZE + 4 + c < tile_cells)%nat.
Proof. tile_lia. Qed.

Lemma downscale_val_exact (src : list Z) (p c : nat) :
  Forall is_u16 src -> (p + 4 * TILE_SIZE + 4 + c < length src)%nat ->
  let s00 := rd src (p + c) in
  let s01 := rd src (p + 4 + c) in
  let s10 := rd src (p + 4 * TILE_SIZE + c) in
  let s11 := rd src (p + 4 * TILE_SIZE + 4 + c) in
  downscale_val src p c = s00 / 4 + s01 / 4 + s10 / 4 + s11 / 4 /\
  4 * downscale_val src p c <= s00 + s01 + s10 + s11 <= 4 * downscale_val src p c + 12.
Proof.
  intros Hu Hp. cbv zeta. unfold downscale_val.
  assert (H00 : is_u16 (rd src (p + c))) by (apply Forall_rd; [assumption | lia]).
  assert (H01 : is_u16 (rd src (p + 4 + c))) by (apply Forall_rd; [assumption | lia]).
  assert (H10 : is_u16 (rd src (p + 4 * TILE_SIZE + c)))
    by (apply Forall_rd; [assumption | lia]).
  assert (H11 : is_u16 (rd src (p + 4 * TILE_SIZE + 4 + c)))
    by (apply Forall_rd; [assumption | lia]).
  unfold is_u16 in *.
  rewrite u16_small by lia. lia.
Qed.

(** The destination quadrant gets, channel by channel, the sum of the
    four quarters of the 2x2 block: the 16 bit store never wraps, and
    the result is the average of the block rounded down by at most three
    units. *)
Theorem downscale_average (src dst : list Z) (dst_stride dst_x dst_y : nat) :
  length src = tile_cells -> Forall is_u16 src ->
  (4 * dst_x + 4 * (TILE_SIZE / 2) <= dst_stride)%nat ->
  ((dst_y + TILE_SIZE / 2) * dst_stride <= length dst)%nat ->
  exists dst', tile_downscale_rgba16 src dst dst_stride dst_x dst_y = Some dst' /\
    forall y x c, (y < TILE_SIZE / 2)%nat -> (x < TILE_SIZE / 2)%nat -> (c < 4)%nat ->
      let p := (2 * y * tile_stride + 8 * x)%nat in
      let sum := rd src (p + c) + rd src (p + 4 + c)
                 + rd src (p + 4 * TILE_SIZE + c) + rd src (p + 4 * TILE_SIZE + 4 + c) in
      exists v, dst' !! ((y + dst_y) * dst_stride + 4 * dst_x + 4 * x + c)%nat = Some v /\
                4 * v <= sum <= 4 * v + 12.
Proof.
  intros Hs Hu Hx Hy.
  destruct (tile_downscale_rgba16_cells src dst dst_stride dst_x dst_y Hs Hx Hy)
    as (dst' & Hrun & _ & Hcells).
  exists dst'. split; [exact Hrun|]. intros y x c Hy' Hx' Hc. cbv zeta.
  eexists. split; [apply Hcells; assumption|].
  apply downscale_val_exact; [exact Hu|]. rewrite Hs. apply src_block_in_tile; assumption.
Qed.

Lemma downscale_average_witness :
  exists dst',
    tile_downscale_rgba16 (replicate tile_cells 32767) (replicate tile_cells 0)
      tile_stride 32 32 = Some dst' /\
    forall y x c, (y < TILE_SIZE / 2)%nat -> (x < TILE_SIZE / 2)%nat -> (c < 4)%nat ->
      let p := (2 * y * tile_stride + 8 * x)%nat in
      let sum := rd (replicate tile_cells 32767) (p + c)
                 + rd (replicate tile_cells 32767) (p + 4 + c)
                 + rd (replicate tile_cells 32767) (p + 4 * TILE_SIZE + c)
                 + rd (replicate tile_cells 32767) (p + 4 * TILE_SIZE + 4 + c) in
      exists v, dst' !! ((y + 32) * tile_stride + 4 * 32 + 4 * x + c)%nat = Some v /\
                4 * v <= sum <= 4 * v + 12.
Proof.
  apply (downscale_average (replicate tile_cells 32767) (replicate tile_cells 0)
           tile_stride 32 32).
  - apply length_replicate.
  - apply Forall_replicate. unfold is_u16. lia.
  - tile_lia.
  - rewrite length_replicate. tile_lia.
Defined.

(** The downscaler writes the destination quadrant and nothing else. *)
Theorem downscale_frame (src dst : list Z) (dst_stride dst_x dst_y : nat) :
  length src = tile_cells ->
  (4 * dst_x + 4 * (TILE_SIZE / 2) <= dst_stride)%nat ->
  ((dst_y + TILE_SIZE / 2) * dst_stride <= length dst)%nat ->
  exists dst', tile_downscale_rgba16 src dst dst_stride dst_x dst_y = Some dst' /\
    length dst' = length dst /\
    forall j,
      (forall y x c, (y < TILE_SIZE / 2)%nat -> (x < TILE_SIZE / 2)%nat -> (c < 4)%nat ->
         j <> ((y + dst_y) * dst_stride + 4 * dst_x + 4 * x + c)%nat) ->
      dst' !! j = dst !! j.
Proof.
  intros Hs Hx Hy.
  destruct (tile_downscale_rgba16_cells src dst dst_stride dst_x dst_y Hs Hx Hy)
    as (dst' & Hrun & Hlen & _).
  destruct (tile_downscale_rgba16_frame src dst dst_stride dst_x dst_y Hs Hx Hy)
    as (dst'' & Hrun' & Hframe).
  exists dst'. split; [exact Hrun|]. split; [exact Hlen|].
  assert (dst'' = dst') by congruence. subst dst''. exact Hframe.
Qed.

Lemma downscale_frame_witness :
  exists dst',
    tile_downscale_rgba16 (replicate tile_cells 32767) (replicate tile_cells 0)
      tile_stride 32 32 = Some dst' /\
    length dst' = length (replicate tile_cells 0) /\
    forall j,
      (forall y x c, (y < TILE_SIZE / 2)%nat -> (x < TILE_SIZE / 2)%nat -> (c < 4)%nat ->
         j <> ((y + 32) * tile_stride + 4 * 32 + 4 * x + c)%nat) ->
      dst' !! j = replicate tile_cells 0 !! j.
Proof.
  apply (downscale_frame (replicate tile_cells 32767) (replicate tile_cells 0)
           tile_stride 32 32).
  - apply length_replicate.
  - tile_lia.
  - rewrite length_replicate. tile_lia.
Defined.

(** Downscaling a premultiplied tile gives premultiplied pixels. *)
Theorem downscale_keeps_premultiplied (src dst : list Z) (dst_stride dst_x dst_y : nat) :
  length src = tile_cells -> premultiplied src ->
  (4 * dst_x + 4 * (TILE_SIZE / 2) <= dst_stride)%nat ->
  ((dst_y + TILE_SIZE / 2) * dst_stride <= length dst)%nat ->
  exists dst', tile_downscale_rgba16 src dst dst_stride dst_x dst_y = Some dst' /\
    forall y x c, (y < TILE_SIZE / 2)%nat -> (x < TILE_SIZE / 2)%nat -> (c < 3)%nat ->
      let q := ((y + dst_y) * dst_stride + 4 * dst_x + 4 * x)%nat in
      0 <= rd dst' (q + c) <= rd dst' (q + 3) /\ rd dst' (q + 3) <= fix15_one.
Proof.
  intros Hs Hp Hx Hy.
  destruct (tile_downscale_rgba16_cells src dst dst_stride dst_x dst_y Hs Hx Hy)
    as (dst' & Hrun & _ & Hcells).
  exists dst'. split; [exact Hrun|]. intros y x c Hy' Hx' Hc. cbv zeta.
  assert (Hrd : forall c', (c' < 4)%nat ->
            rd dst' ((y + dst_y) * dst_stride + 4 * dst_x + 4 * x + c') =
            downscale_val src (2 * y * tile_stride + 8 * x) c').
  { intros c' Hc'. unfold rd. rewrite Hcells by assumption. reflexivity. }
  rewrite (Hrd c), (Hrd 3%nat) by lia. clear Hrd.
  pose proof (src_block_in_tile y x 3 Hy' Hx' ltac:(lia)) as Hin.
  rewrite <- Hs in Hin. clear Hcells Hrun.
  assert (Hy2 : exists k, (2 * y * tile_stride + 8 * x)%nat = (4 * k)%nat).
  { exists (2 * y * TILE_SIZE + 2 * x)%nat. clear. tile_facts. lia. }
  destruct Hy2 as [k Hk]. rewrite Hk in *. clear Hk.
  assert (Hk4 : exists k', (4 * k + 4 * TILE_SIZE)%nat = (4 * k')%nat).
  { exists (k + TILE_SIZE)%nat. lia. }
  destruct Hk4 as [k' Hk']. rewrite Hk' in *.
  destruct (premultiplied_rd src k c Hp ltac:(lia) Hc) as [H00 A00].
  destruct (premultiplied_rd src (k + 1) c Hp ltac:(lia) Hc) as [H01 A01].
  destruct (premultiplied_rd src k' c Hp ltac:(lia) Hc) as [H10 A10].
  destruct (premultiplied_rd src (k' + 1) c Hp ltac:(lia) Hc) as [H11 A11].
  replace (4 * (k + 1) + c)%nat with (4 * k + 4 + c)%nat in * by lia.
  replace (4 * (k + 1) + 3)%nat with (4 * k + 4 + 3)%nat in * by lia.
  replace (4 * (k' + 1) + c)%nat with (4 * k' + 4 + c)%nat in * by lia.
  replace (4 * (k' + 1) + 3)%nat with (4 * k' + 4 + 3)%nat in * by lia.
  unfold downscale_val. rewrite Hk'. unfold fix15_one.
  clear Hx Hy Hy' Hx' Hk' Hin Hs Hp.
  rewrite (u16_small (_ + rd src (4 * k' + 4 + 3) / 4)) by lia.
  rewrite (u16_small (_ + rd src (4 * k' + 4 + c) / 4)) by lia.
  lia.
Qed.

Lemma downscale_keeps_premultiplied_witness :
  exists dst',
    tile_downscale_rgba16 (pixel_tile 100 200 300 400) (replicate tile_cells 0)
      tile_stride 32 0 = Some dst' /\
    forall y x c, (y < TILE_SIZE / 2)%nat -> (x < TILE_SIZE / 2)%nat -> (c < 3)%nat ->
      let q := ((y + 0) * tile_stride + 4 * 32 + 4 * x)%nat in
      0 <= rd dst' (q + c) <= rd dst' (q + 3) /\ rd dst' (q + 3) <= fix15_one.
Proof.
  apply (downscale_keeps_premultiplied (pixel_tile 100 200 300 400)
           (replicate tile_cells 0) tile_stride 32 0).
  - apply length_pixel_tile.
  - apply premultiplied_pixel_tile; unfold fix15_one; lia.
  - tile_lia.
  - rewrite length_replicate. tile_lia.
Defined.
